(* ===== verification/_CoqProject ===== *)
-Q . S2P
Prelude.v
CLib.v
AddHdr.v
Vdbg.v
Hex.v
HexIov.v
Dbg.v
HexParse.v
IovMachine.v
Frame.v
