(* ===== verification/Prelude.v ===== *)
(** * A verification development of vomlehn/dbg

    [dbg] is a small C library for debugging output.  Its sources are
    [src/dbg.c], [src/include/dbg.h] and [src/gettid.h].  A message is a
    header expanded from a [%]-template ([DBG_HEADER], by default
    ["%f:%l: "]) followed by a printf-style message.  The library also
    dumps byte buffers as rows of hexadecimal: either one contiguous buffer
    or an array of [struct iovec] segments.

    ** The program and how its parts interact

    - [dbg_add_hdr] (dbg.c 48-110) expands one [%]-directive of the template
      into a 256-byte stack buffer through [snprintf].
    - [__vdbg] (dbg.c 112-170) walks the template.  It calls [dbg_add_hdr]
      on each [%], copies literal characters under the guard
      [remaining > 2], appends the user message with [vsnprintf] at the
      template's NUL, and prints the buffer with one [printf("%s", buf)].
    - [__vdbg_hex] (dbg.c 183-227) calls [__vdbg] for the caption.  It then
      renders [ceil(size / 16)] rows, each ["%02x: "] of the row number
      followed by the bytes, into a second 256-byte buffer, and prints each
      row followed by [EOL], the string ["\r\n"] (CR LF).
    - [__vdbg_hex_iov] (dbg.c 240-294) dumps the segments as one stream.
      It keeps one running byte index and one row buffer, and marks the
      start of each later segment with ['*'].
    - The inline wrappers [__dbg], [__dbg_hex] and [__dbg_hex_iov] have
      two definitions each, chosen by [#if DBG] (dbg.h 39).  Under [DBG]
      (dbg.h 67-115) they test [cond] and then call the three functions
      above.  Under [#else] (dbg.h 116-134) they only [return 0].  The macros [dbg], [dbg_t], [dbg_f],
      [dbg_cond], [dbg_hex] and the others (dbg.h 143-208) insert
      [__FILE__], [__func__] and [__LINE__].
    - [gettid.h] declares [gettid] only under [__linux__], and [dbg.c]
      defines [HAS_GETTID], which enables the [%t] directive, under the
      same test.  [getpid], [gettid], [clock_gettime] and stdout are the
      platform services the library calls.

    ** Files of the development, in dependency order

    - [Prelude] (this file).  Its central definition is the [outcome] type:
      a run of C code either finishes ([Done]), reaches undefined behaviour
      ([Undefined], with the kind of UB), or runs out of fuel
      ([OutOfFuel]).  [outcome] is made a monad through stdpp's [MRet] and
      [MBind], so the models read [x ← m; k].  The file also holds the
      scope [dbg_scope] for C string literals ["..."%cs], the hint
      databases [dbg] and [dbg_rw], the Ltac [inv_outcome] and [ostep],
      and lemmas on buffer splices ([splice]).
    - [CLib]: the C library, modelled from C11 and POSIX rather than from
      repository code.  It covers:
      + stack buffers as lists of [option ascii], where [None] is an
        indeterminate byte;
      + [snprintf] and [vsnprintf] into a buffer;
      + [printf("%s")] reading a buffer;
      + the decimal and hexadecimal conversions, [strrchr], and the
        macro [MIN] of dbg.c (a statement expression, [MIN_spec]);
      + the interface to the platform, the typeclass [Platform]: whether
        [__linux__] is defined, [getpid],
        [gettid], the readings of the monotonic clock (each of which may
        fail), the unspecified contents of an uninitialised [timespec], and
        whether the n-th write to stdout fails.  The [world] record threads the lines written to stdout, the
        number of write attempts and the number of clock readings.
        [demo_platform], [demo_platform_failing], [demo_platform_noclock]
        and the non-Linux [demo_platform_bsd] are instances used by the
        witnesses;
      + [int_range] and [int_result], the values an [int] result takes.
    - [AddHdr]: [dbg_add_hdr].  The switch is the enum [directive], and
      [directive_piece] is the table of what each directive contributes.
    - [Vdbg]: [__vdbg].  The C locals [hdr], [buf], [p], [remaining] and
      [rc] form the record [fstate], and [vdbg_step] is one iteration of
      the [do ... while] loop.  The unbounded rendering [hdr_pieces] is its
      specification, together with the buffer invariant [buf_inv].
    - [Hex]: [__vdbg_hex].  [hex_cols], [hex_row] and [hex_rows] are its
      loops, and [hex_lines] is the specification of the rows.
    - [HexIov]: [__vdbg_hex_iov].  The record [iov_state] holds the
      locals, and [iov_prefix], [iov_byte], [iov_bytes] and [iov_segs] are
      the loops.  The specification is the token stream [iov_tokens],
      whose rows are [iov_lines].
    - [Dbg]: the [dbg.h] wrappers and macros, and [DBG_HEADER].  The two
      bodies of each wrapper are [__dbg_on] and [__dbg_off] (and the
      [_hex] and [_hex_iov] ones).  The switch [DBG] is a parameter, and
      [__dbg] is [#if DBG] written out.
    - [HexParse]: a reader for hex dumps.  It is a specification, not
      repository code, and is used to prove the dump lossless.
    - [IovMachine]: the loops of [__vdbg_hex_iov] as a transition system
      [iov_step] over [iov_state].  One rule consumes any byte, and the
      other ends a segment.  The states reachable from [iov_init] are
      [iov_reachable], and [within n P] is the inductive "whatever bytes
      come next, P is reached within [n] of them".
    - [Frame]: what one call leaves to the next.  The class
      [WorldMorphism] holds the maps on worlds that commute with [printf]
      and [clock_gettime].  Its instances are [out_prepend] (more lines
      already on stdout) and, when stdout never fails ([StdoutReliable]),
      [writes_shift] (more earlier writes).  The Section [Natural] proves
      every operation natural in such a map, from [dbg_add_hdr] up to the
      wrappers, with one Ltac [natural] that walks the binds.

    ** What is proved (by group)

    - The formatter [__vdbg].  It terminates on every input
      ([vdbg_terminates]), and every iteration keeps
      [p + remaining = 256] ([vdbg_step_cursor_inv]).  When the header
      places no literal where [remaining] is 1 or 2 and no [%%] where it is
      0 or 1, the result is the logical length.  A failed
      [clock_gettime] is not reported: [%T] then prints the stale [now]
      ([vdbg_clock_error_ignored]).  The line printed is then
      the first 255 characters of the unbounded rendering
      ([vdbg_prints_prefix]), or all of it when it fits
      ([vdbg_short_verbatim]).  A message error returns [-1] with no
      output ([vdbg_msg_error]), and a failed write returns [-1]
      ([vdbg_write_error]).  A message whose length fits an [int] but
      whose sum with the header's length does not makes [rc += rc2]
      overflow, which is undefined behaviour ([vdbg_rc_overflow]).  A
      header directive whose [snprintf] fails ends the call at once with
      [-1], no output, and no further read of the template
      ([vdbg_hdr_error_aborts]).
    - [dbg_add_hdr] is the directive table followed by [write_piece]
      ([dbg_add_hdr_unfold]).  [%B] yields the path after its last ['/']
      ([basename_last_slash], [basename_no_slash]).
    - Undefined behaviour of [__vdbg] found by modelling, each for every
      template of the shape named, on top of the walk [vdbg_walk_prefix]
      and the invariant [buf_inv], which also records that the cells
      past [p] were never written:
      + a template whose part before two final literals renders to 253
        characters leaves [buf[254]] indeterminate, and [printf] reads it
        ([vdbg_literal_uninit]); through the default header this happens
        whenever [__func__] and the line number take 252 characters
        together ([dbg_default_header_uninit]);
      + a [%%] met once the rendering has reached 256 characters stores
        past the buffer ([vdbg_pct_overflow]);
      + a template ending in a lone [%] reads past its terminator
        ([vdbg_lone_percent_overrun]).
    - The contiguous dumper [__vdbg_hex].  For buffers under 2^32 bytes it
      refines [hex_lines] ([vdbg_hex_refines]).  It writes exactly
      [ceil(size / 16)] rows, stops at the first failed write and returns
      its result, and its rows never overflow their buffer.  The rows
      parse back to the dumped bytes ([vdbg_hex_roundtrip]).  Past 2^32
      bytes the [unsigned] arithmetic wraps: row [2^28] re-reads byte 0
      ([hex_row_index_wraps]).  Past 2^32 rows the row loop never
      completes ([hex_rows_never_complete]).
    - The scattered dumper [__vdbg_hex_iov].  It refines [iov_lines]
      ([vdbg_hex_iov_refines]).  The final partial row is never written,
      and the function returns 3 rather than 0.  For two segments making
      one row it agrees with the contiguous dumper except for the ['*']
      ([vdbg_hex_iov_contiguous]).  Its rows parse back to exactly the
      first [16 * (total / 16)] bytes ([vdbg_hex_iov_roundtrip]).  A
      segment of 2^32 bytes or more never finishes
      ([iov_bytes_never_complete]).
    - The wrappers.  With [DBG] at 0 or a false [cond], they are no-ops.
      [dbg] under the default header prints ["func:line: msg"] whenever
      the function name and line number take at most 251 characters
      ([dbg_default_line]); at exactly 252 it prints an indeterminate byte
      ([dbg_default_header_uninit]).  The caption of [dbg_hex_iov] exchanges the file and the function
      ([dbg_hex_iov_caption_swapped]).
    - [%t] prints the thread id on Linux and nothing elsewhere
      ([vdbg_tid_platform]).
    - The scattered dumper as a machine, for any number of segments of any
      sizes, including past 2^32 bytes.  Every reachable state keeps
      [out_buf]'s cursor in bounds ([iov_reachable_buffer_bounds], by rule
      induction on [rtc iov_step]).  From every reachable state any next
      byte is processed without undefined behaviour or error
      ([iov_reachable_progress]).  Within [16 - i mod 16] further bytes a
      row is written ([iov_reachable_row_written], bounded liveness).  The
      function's own loops run on this machine, so it completes without
      an early return and returns a non-negative value for any number of
      segments each under 2^32 bytes, whatever their total
      ([vdbg_hex_iov_completes]).
    - Successive calls.  With [%T] two calls print the two successive
      clock readings ([vdbg_time_successive]), so the idempotence of spec
      section 8 fails for such templates.  Frame.v also holds the
      structural lemmas behind that remark: a call touches the world only
      through [printf] and [clock_gettime] ([entry_points_natural]), and
      with a reliable stdout a call that reads no clock repeats
      ([entry_points_repeat]).

    ** Bounds and fuel

    - [__vdbg] gets fuel [length hdr + 2].  Every iteration advances the
      template index, and the loop stops at the NUL at index
      [length hdr], so this fuel is enough: [vdbg_terminates] proves the
      model never runs out of it.
    - The row loop of [__vdbg_hex] gets fuel [nrows + 1], and the inner
      loops of [__vdbg_hex_iov] get [iov_len + 1] and [iovcnt + 1].  The
      theorems about the dumpers assume fewer than 2^32 bytes (and
      segments).  Under that assumption no [unsigned] counter wraps and
      the fuel is enough, which the refinement theorems prove by
      returning [Done].  Beyond that bound the counters wrap.  The
      theorems [hex_rows_never_complete] and [iov_bytes_never_complete]
      show that the loops then never complete, whatever the fuel.
    - [int], [unsigned] and [size_t] are [Z] values.  Each conversion the
      code performs is written out: signed overflow of [int] addition is
      undefined behaviour, [unsigned] wraps modulo 2^32 and [size_t]
      modulo 2^64.

    ** Modelling choices

    - A failed [snprintf], [vsnprintf] or [printf] returns [-1] in the
      model.  C and POSIX promise only a negative value.  The theorems
      that name [-1] as the result of a failure ([vdbg_msg_error],
      [vdbg_write_error], [vdbg_hdr_error_aborts],
      [vdbg_hex_write_error]) read "the negative value the C library
      returned" for another C library: the code passes that value on
      unchanged.
    - The class [Platform] stands for [gettid] (gettid.h) and for the C
      library and kernel services the code calls: [getpid],
      [clock_gettime] and the writes to stdout.

    ** Not modelled

    - The text of the user message comes from [vsnprintf] over a
      [va_list].  It is an input of the model: the rendered characters, or
      an encoding error.
    - Concurrency is not modelled.  Every call is sequential and writes its
      lines with whole [printf] calls.
    - A user-defined [DBG_HEADER] is any template passed to [__vdbg].  The
      wrappers use the default one.
    - The lines of the sources the model does not map are declarations
      and preprocessor plumbing: the [#include]s, the include guards, the
      prototypes of dbg.h 15-33 (their [format] attributes only drive
      compiler warnings), the [#warning] when [DBG] is undefined, and the
      [#define DBG 1] with which dbg.c includes its own header (dbg.c
      32-33; the [DBG] parameter of the wrappers covers every value).
      The parameter names of the prototype of [__vdbg_hex_iov] differ from
      its definition, which [dbg_hex_iov_caption_swapped] is about; C binds
      arguments by position, so the model follows the definition. *)

From Stdlib Require Export Ascii ZArith Lia ZifyNat.
From Stdlib Require String.
From stdpp Require Export base list strings sets.
Export ListNotations.
Open Scope list_scope.

(** C character strings are lists of characters; the terminating NUL is
    not part of the list. *)
Abbreviation cstr := (list ascii).
(** Bytes of a dumped buffer, [unsigned char]. *)
Abbreviation byte := Byte.byte.
Definition NUL : ascii := Ascii.zero.

Declare Scope dbg_scope.
Delimit Scope dbg_scope with dbg.

(** ["abc"]%cs is the C string literal of the characters a, b, c. *)
Notation "s %cs" := (String.list_ascii_of_string s%string) (at level 1, only parsing) : dbg_scope.

(** ** Outcomes of running C code *)

(** Kinds of undefined behaviour the model detects. *)
Inductive ub : Type :=
  | UB_hdr_overrun     (** the template pointer was read past its NUL *)
  | UB_buf_overflow    (** a store outside a stack buffer *)
  | UB_uninit_read     (** [printf("%s")] read an indeterminate byte *)
  | UB_unterminated    (** [printf("%s")] ran off the end of a buffer *)
  | UB_input_overrun   (** a read beyond the bytes the caller supplied *)
  | UB_int_overflow.   (** signed [int] arithmetic overflowed *)

#[export] Instance ub_eq_dec : EqDecision ub.
Proof. solve_decision. Defined.

Inductive outcome (A : Type) : Type :=
  | Done (a : A)
  | Undefined (u : ub)
  | OutOfFuel.
Arguments Done {A} a.
Arguments Undefined {A} u.
Arguments OutOfFuel {A}.

Definition obind {A B} (m : outcome A) (k : A -> outcome B) : outcome B :=
  match m with
  | Done a => k a
  | Undefined u => Undefined u
  | OutOfFuel => OutOfFuel
  end.

(** [outcome] is a monad in stdpp's classes, so the code reads with stdpp's
    [x ← m; k] and ['(a, b) ← m; k] notation. *)
#[export] Instance outcome_ret : MRet outcome := @Done.
#[export] Instance outcome_bind : MBind outcome := fun A B k m => obind m k.

Lemma bind_outcome {A B} (m : outcome A) (k : A -> outcome B) : (m ≫= k) = obind m k.
Proof. reflexivity. Qed.

Open Scope dbg_scope.

Create HintDb dbg discriminated.
Create Rewrite HintDb dbg_rw.

Section OutcomeLemmas.
Context {A B : Type}.

Lemma obind_Done_inv (m : outcome A) (k : A -> outcome B) b :
  obind m k = Done b -> exists a, m = Done a /\ k a = Done b.
Proof. destruct m; simpl; [eauto|discriminate|discriminate]. Qed.

Lemma obind_Undefined_inv (m : outcome A) (k : A -> outcome B) u :
  obind m k = Undefined u ->
  m = Undefined u \/ exists a, m = Done a /\ k a = Undefined u.
Proof. destruct m; simpl; intros H; [eauto|left; congruence|discriminate]. Qed.

Lemma obind_assoc {C} (m : outcome A) (k : A -> outcome B) (k' : B -> outcome C) :
  obind (obind m k) k' = obind m (fun a => obind (k a) k').
Proof. by destruct m. Qed.

Lemma obind_ext (m : outcome A) (k k' : A -> outcome B) :
  (forall a, m = Done a -> k a = k' a) -> obind m k = obind m k'.
Proof. destruct m; simpl; auto. Qed.
End OutcomeLemmas.

Lemma obind_not_oof {A B} (m : outcome A) (k : A -> outcome B) :
  m <> OutOfFuel -> (forall a, m = Done a -> k a <> OutOfFuel) -> obind m k <> OutOfFuel.
Proof. destruct m; simpl; [eauto|discriminate|done]. Qed.

(** The map of the monad. *)
Definition omap {A B} (f : A -> B) (m : outcome A) : outcome B := obind m (fun a => Done (f a)).

Lemma omap_obind {A B C} (f : B -> C) (m : outcome A) (k : A -> outcome B) :
  omap f (obind m k) = obind m (fun a => omap f (k a)).
Proof. by destruct m. Qed.

Lemma obind_omap {A B C} (f : A -> B) (m : outcome A) (k : B -> outcome C) :
  obind (omap f m) k = obind m (fun a => k (f a)).
Proof. by destruct m. Qed.

Lemma obind_Done {A B} (a : A) (k : A -> outcome B) : obind (Done a) k = k a.
Proof. reflexivity. Qed.
#[export] Hint Rewrite @obind_Done @bind_outcome : dbg_rw.

(** Invert every successful bind among the hypotheses. *)
Ltac inv_outcome :=
  repeat match goal with
  | H : mbind _ _ = Done _ |- _ => rewrite bind_outcome in H
  | H : obind _ _ = Done _ |- _ =>
      let a := fresh "a" in let Ha := fresh "Ha" in
      apply obind_Done_inv in H as (a & Ha & H)
  | H : Done _ = Done _ |- _ => injection H as H
  | H : (_, _) = (_, _) |- _ => injection H as H
  end; subst.

(** Invert one successful bind in [H], naming its parts with [p]. *)
Tactic Notation "oinv" hyp(H) "as" simple_intropattern(p) :=
  rewrite ?bind_outcome in H; apply obind_Done_inv in H as p.

(** Turn [≫=] into [obind] and reduce the binds of known outcomes. *)
Ltac ostep := rewrite ?bind_outcome; cbn [obind].

(** ** Generic lemmas on lists *)

Section ListLemmas.
Context {A : Type}.
Implicit Types (l k : list A) (x : A).

(** Writing a list [k] over [l] at offset [n], the shape every store into a
    stack buffer takes. *)
Definition splice (l : list A) (n : nat) (k : list A) : list A :=
  take n l ++ k ++ drop (n + length k) l.

Lemma length_splice l n k :
  n + length k <= length l -> length (splice l n k) = length l.
Proof. intros. unfold splice. rewrite !length_app, length_take, length_drop. lia. Qed.

Lemma splice_nil l n : n <= length l -> splice l n [] = l.
Proof. intros. unfold splice. simpl. rewrite Nat.add_0_r. apply take_drop. Qed.

Lemma splice_insert l n x k :
  S n + length k <= length l ->
  splice (<[n := x]> l) (S n) k = splice l n (x :: k).
Proof.
  intros Hl. unfold splice.
  rewrite (insert_take_drop l n x) by lia.
  rewrite take_app, drop_app_ge; rewrite length_take, Nat.min_l by lia.
  - replace (S n - n) with 1 by lia.
    replace (S n + length k - n) with (S (length k)) by lia.
    simpl. rewrite take_0, drop_drop, <- app_assoc. simpl.
    rewrite take_take, Nat.min_r, Nat.add_succ_r by lia. reflexivity.
  - lia.
Qed.
Lemma take_splice l k n m :
  n <= length l -> m <= length k -> take (n + m) (splice l n k) = take n l ++ take m k.
Proof.
  intros. unfold splice. rewrite take_app, length_take, Nat.min_l by lia.
  rewrite take_take, Nat.min_r by lia. f_equal.
  replace (n + m - n) with m by lia. by apply take_app_le.
Qed.

Lemma drop_splice_ge l n k m :
  n <= length l -> n + length k <= m -> drop m (splice l n k) = drop m l.
Proof.
  intros. unfold splice. rewrite drop_app_ge by (rewrite length_take; lia).
  rewrite length_take, Nat.min_l by lia. rewrite drop_app_ge by lia. rewrite drop_drop.
  f_equal. lia.
Qed.

Lemma splice_end l k n : n + length k = length l -> splice l n k = take n l ++ k.
Proof. intros. unfold splice. rewrite drop_ge by lia. by rewrite app_nil_r. Qed.

Lemma take_S_insert l n x :
  n < length l -> take (S n) (<[n := x]> l) = take n l ++ [x].
Proof.
  intros. rewrite insert_take_drop by done.
  rewrite take_app, length_take, Nat.min_l, take_ge, Nat.sub_succ_l, Nat.sub_diag
    by (rewrite ?length_take; lia).
  done.
Qed.
End ListLemmas.

#[export] Hint Rewrite @length_app @length_take @length_drop @length_insert
  @length_map @length_replicate : dbg_rw.
