(* ===== verification/CLib.v ===== *)
(** * CLib: the C library and platform behaviour [dbg.c] relies on

    This is not repository code.  It is the C11 and POSIX behaviour of the
    calls the sources make: [snprintf], [printf("%s")], the [%u %d %ld
    %06ld %02x] conversions, [strrchr], [getpid], [gettid],
    [clock_gettime] and writes to stdout.  A stack buffer [char buf[256]]
    is a list of 256 cells.  A cell is [None] until it is written, because
    automatic storage starts out indeterminate.  The platform is the
    typeclass [Platform], the interface the components are proved against.
    A [world] threads the stdout transcript and the counters. *)

From S2P Require Import Prelude.

(** ** Integer widths (LP64) *)

Definition INT_MAX : Z := (2 ^ 31 - 1)%Z.
(** Conversion to [unsigned] and to [size_t]. *)
Definition u32 (z : Z) : Z := (z mod 2 ^ 32)%Z.
Definition u64 (z : Z) : Z := (z mod 2 ^ 64)%Z.

(** [MIN(a,b)] (dbg.c 21-27): a statement expression that evaluates each
    argument once, into [_a] and [_b], and yields [_a < _b ? _a : _b]. *)
Definition MIN (a b : Z) : Z := if decide (a < b)%Z then a else b.

Lemma MIN_spec a b : MIN a b = Z.min a b.
Proof. unfold MIN. case_decide; lia. Qed.

Lemma u64_small z : (0 <= z < 2 ^ 64)%Z -> u64 z = z.
Proof. intros. unfold u64. apply Z.mod_small. lia. Qed.

Lemma u32_small z : (0 <= z < 2 ^ 32)%Z -> u32 z = z.
Proof. intros. unfold u32. apply Z.mod_small. lia. Qed.

(** ** Stack buffers *)

Abbreviation cells := (list (option ascii)).

(** [char buf[n];] before any store. *)
Definition uninit (n : nat) : cells := replicate n None.

(** [*p = c] where [p] is the offset [p] into the buffer. *)
Definition store (b : cells) (p : nat) (c : ascii) : outcome cells :=
  if decide (p < length b) then Done (<[p := Some c]> b)
  else Undefined UB_buf_overflow.

(** Consecutive stores from offset [p]. *)
Fixpoint store_str (b : cells) (p : nat) (s : cstr) : outcome cells :=
  match s with
  | [] => Done b
  | c :: s' => b' ← store b p c; store_str b' (S p) s'
  end.

(** A [const char *] argument is read up to its first NUL. *)
Fixpoint c_str (s : cstr) : cstr :=
  match s with
  | [] => []
  | c :: s' => if decide (c = NUL) then [] else c :: c_str s'
  end.

(** [snprintf(p, n, fmt, ...)] whose conversion produces the text [s]
    (C11 7.21.6.5).  At most [n - 1] characters are stored, followed by a
    NUL, and nothing is stored when [n = 0].  The result is the length of
    [s].  A result above [INT_MAX] is an [EOVERFLOW] failure that returns
    [-1]. *)
Definition snprintf (b : cells) (p : nat) (n : Z) (s : cstr) : outcome (cells * Z) :=
  let len := Z.of_nat (length s) in
  if decide (INT_MAX < len)%Z then Done (b, (-1)%Z)
  else if decide (n = 0%Z) then Done (b, len)
  else b' ← store_str b p (take (Z.to_nat n - 1) s ++ [NUL]); Done (b', len).

(** The user message [vsnprintf(p, n, fmt, ap)] formats: the characters
    it renders, or an encoding failure. *)
Inductive fmt_result := Rendered (s : cstr) | FmtError.

Definition vsnprintf (b : cells) (p : nat) (n : Z) (m : fmt_result) : outcome (cells * Z) :=
  match m with
  | Rendered s => snprintf b p n s
  | FmtError => Done (b, (-1)%Z)
  end.

Definition INT_MIN : Z := (- 2 ^ 31)%Z.

(** Signed [int] addition; overflow is undefined behaviour. *)
Definition int_add (a b : Z) : outcome Z :=
  if decide (INT_MIN <= a + b <= INT_MAX)%Z then Done (a + b)%Z else Undefined UB_int_overflow.

(** [printf("%s", buf)] reads the buffer up to its NUL.  An indeterminate
    cell or the end of the buffer before a NUL is undefined behaviour. *)
Fixpoint read_cstr (b : cells) : outcome cstr :=
  match b with
  | [] => Undefined UB_unterminated
  | None :: _ => Undefined UB_uninit_read
  | Some c :: b' =>
      if decide (c = NUL) then Done [] else s ← read_cstr b'; Done (c :: s)
  end.

(** ** Number conversions *)

Definition digit_char (d : N) : ascii :=
  Ascii.ascii_of_N (if (d <? 10)%N then 48 + d else 87 + d)%N.

Fixpoint digits (fuel : nat) (base n : N) : list N :=
  match fuel with
  | O => []
  | S f => if (n <? base)%N then [n] else digits f base (n / base) ++ [(n mod base)%N]
  end.

(** Unsigned conversion in base [base], lower-case digits and no padding. *)
Definition utoa (base n : N) : cstr := map digit_char (digits (S (N.size_nat n)) base n).

(** ["%u"] *)
Definition fmt_u (n : N) : cstr := utoa 10 n.
(** ["%d"] and ["%ld"] *)
Definition fmt_d (z : Z) : cstr :=
  if decide (z < 0)%Z then "-"%char :: fmt_u (Z.to_N (Z.opp z)) else fmt_u (Z.to_N z).
(** Zero padding to width [w]. *)
Definition pad0 (w : nat) (s : cstr) : cstr := replicate (w - length s) "0"%char ++ s.
(** ["%02x"] *)
Definition fmt_02x (n : N) : cstr := pad0 2 (utoa 16 n).
(** ["%06ld"]: the sign counts towards the width. *)
Definition fmt_06ld (z : Z) : cstr :=
  if decide (z < 0)%Z then "-"%char :: pad0 5 (fmt_u (Z.to_N (Z.opp z))) else pad0 6 (fmt_u (Z.to_N z)).

(** [strrchr(s, c)]: the suffix of [s] starting at the last [c], if any. *)
Fixpoint strrchr (s : cstr) (c : ascii) : option cstr :=
  match s with
  | [] => None
  | x :: s' =>
      match strrchr s' c with
      | Some r => Some r
      | None => if decide (x = c) then Some (x :: s') else None
      end
  end.

(** ** The platform *)

Record timespec := mk_timespec { tv_sec : Z; tv_nsec : Z }.

(** The services the library calls but does not implement:
    - [linux] is the predefined macro [__linux__].  Only on Linux does
      [gettid.h] declare [gettid] (gettid.h 7-11).
    - [clock_monotonic n] is the n-th reading of [CLOCK_MONOTONIC], or
      [None] when that call fails.
    - [stale_now] is the unspecified value an uninitialised local
      [struct timespec] holds.
    - [stdout_fails n] says whether the n-th write to stdout fails. *)
Class Platform := {
  linux : bool;
  getpid : Z;
  gettid : Z;
  clock_monotonic : nat -> option timespec;
  stale_now : timespec;
  stdout_fails : nat -> bool
}.

(** What the calls change: the lines written to stdout, the number of
    write attempts, and the number of clock readings. *)
Record world := mk_world { w_out : list cstr; w_writes : nat; w_ticks : nat }.

Definition world0 : world := mk_world [] 0 0.

Section Platform.
Context `{Platform}.

(** [rc = clock_gettime(CLOCK_MONOTONIC, &now)]: 0 and the reading, or
    [-1] with [now] left as it was. *)
Definition clock_gettime (now : timespec) (w : world) : Z * timespec * world :=
  let w' := mk_world (w_out w) (w_writes w) (S (w_ticks w)) in
  match clock_monotonic (w_ticks w) with
  | Some t => (0%Z, t, w')
  | None => ((-1)%Z, now, w')
  end.

(** [printf] writing the characters [s] in one call.  It returns their
    number, or [-1] when the write fails. *)
Definition printf (w : world) (s : cstr) : Z * world :=
  if stdout_fails (w_writes w)
  then ((-1)%Z, mk_world (w_out w) (S (w_writes w)) (w_ticks w))
  else (Z.of_nat (length s), mk_world (w_out w ++ [s]) (S (w_writes w)) (w_ticks w)).
End Platform.

(** A concrete Linux platform, used to run the model on examples: the
    clock advances one second per reading and stdout writes succeed. *)
Definition demo_platform : Platform := {|
  linux := true; getpid := 4242; gettid := 4243;
  clock_monotonic := fun n => Some (mk_timespec (100 + Z.of_nat n) 123456789);
  stale_now := mk_timespec 0 0;
  stdout_fails := fun _ => false
|}.

(** The same platform where the n-th write to stdout fails. *)
Definition demo_platform_failing (n : nat) : Platform := {|
  linux := true; getpid := 4242; gettid := 4243;
  clock_monotonic := fun n => Some (mk_timespec (100 + Z.of_nat n) 123456789);
  stale_now := mk_timespec 0 0;
  stdout_fails := fun k => Nat.eqb k n
|}.

(** A platform whose monotonic clock is unavailable. *)
Definition demo_platform_noclock : Platform := {|
  linux := true; getpid := 4242; gettid := 4243;
  clock_monotonic := fun _ => None;
  stale_now := mk_timespec 1234 5678000;
  stdout_fails := fun _ => false
|}.

(** A platform other than Linux: [gettid.h] declares no [gettid]. *)
Definition demo_platform_bsd : Platform := {|
  linux := false; getpid := 4242; gettid := 0;
  clock_monotonic := fun n => Some (mk_timespec (100 + Z.of_nat n) 123456789);
  stale_now := mk_timespec 0 0;
  stdout_fails := fun _ => false
|}.

(** ** Lemmas *)

Lemma clock_gettime_world `{Platform} now w rc t w' :
  clock_gettime now w = (rc, t, w') ->
  w_out w' = w_out w /\ w_writes w' = w_writes w /\ w_ticks w' = S (w_ticks w).
Proof. unfold clock_gettime. destruct (clock_monotonic _); intros [= <- <- <-]; done. Qed.

Definition nul_free (s : cstr) : Prop := Forall (fun c => c <> NUL) s.

Lemma c_str_nul_free s : nul_free s -> c_str s = s.
Proof.
  induction 1 as [|c s Hc _ IH]; simpl; [done|].
  rewrite decide_False by done. by rewrite IH.
Qed.

Lemma nul_free_c_str s : nul_free (c_str s).
Proof.
  induction s as [|c s IH]; simpl; [constructor|].
  case_decide; [constructor|]. by constructor.
Qed.

Lemma nul_free_app s t : nul_free (s ++ t) <-> nul_free s /\ nul_free t.
Proof. apply Forall_app. Qed.

Lemma store_in b p c :
  p < length b -> store b p c = Done (<[p := Some c]> b).
Proof. intros. unfold store. by rewrite decide_True. Qed.

Lemma store_str_splice b p s :
  p + length s <= length b -> store_str b p s = Done (splice b p (map Some s)).
Proof.
  revert b p. induction s as [|c s IH]; intros b p Hl; simpl in *.
  - by rewrite splice_nil by lia.
  - rewrite store_in by lia. simpl.
    rewrite IH by (rewrite length_insert; lia).
    by rewrite splice_insert by (rewrite length_map; lia).
Qed.

(** The contract of [snprintf] when the region [p, p + n) lies inside the
    buffer and no [EOVERFLOW] occurs. *)
Lemma snprintf_spec b p n s :
  (0 < n)%Z -> p + Z.to_nat n <= length b -> (Z.of_nat (length s) <= INT_MAX)%Z ->
  snprintf b p n s =
    Done (splice b p (map Some (take (Z.to_nat n - 1) s ++ [NUL])), Z.of_nat (length s)).
Proof.
  intros Hn Hp Hs. unfold snprintf.
  rewrite decide_False by lia. rewrite decide_False by lia.
  rewrite store_str_splice; [done|].
  rewrite length_app, length_take. simpl. lia.
Qed.

Lemma snprintf_zero b p s :
  (Z.of_nat (length s) <= INT_MAX)%Z -> snprintf b p 0 s = Done (b, Z.of_nat (length s)).
Proof. intros. unfold snprintf. rewrite decide_False by lia. done. Qed.

Lemma read_cstr_app s rest :
  nul_free s -> read_cstr (map Some s ++ Some NUL :: rest) = Done s.
Proof.
  induction 1 as [|c s Hc _ IH]; simpl.
  - reflexivity.
  - rewrite decide_False by done. by rewrite IH.
Qed.

(** [printf] meets an indeterminate cell before any NUL. *)
Lemma read_cstr_hole s b :
  nul_free s -> take (length s) b = map Some s -> b !! length s = Some None ->
  read_cstr b = Undefined UB_uninit_read.
Proof.
  intros Hs. revert b. induction Hs as [|c s Hc _ IH]; intros [|x b] Htake Hat; try discriminate.
  - by injection Hat as ->.
  - injection Htake as -> Htake. cbn [read_cstr]. rewrite decide_False by done.
    by rewrite (IH b Htake Hat).
Qed.

(** [snprintf] with room for the NUL only. *)
Lemma snprintf_one b p s :
  p < length b -> (Z.of_nat (length s) <= INT_MAX)%Z ->
  snprintf b p 1 s = Done (<[p := Some NUL]> b, Z.of_nat (length s)).
Proof.
  intros Hp Hs. rewrite snprintf_spec by (simpl; lia). simpl.
  by rewrite <- splice_insert, splice_nil by (rewrite ?length_insert; simpl; lia).
Qed.

Lemma int_add_ok a b :
  (INT_MIN <= a + b <= INT_MAX)%Z -> int_add a b = Done (a + b)%Z.
Proof. intros. unfold int_add. by rewrite decide_True. Qed.

Lemma digits_lt fuel base n :
  (0 < base)%N -> Forall (fun d => (d < base)%N) (digits fuel base n).
Proof.
  intros Hb. revert n. induction fuel as [|f IH]; intros n; simpl; [constructor|].
  destruct (N.ltb_spec n base).
  - by constructor.
  - apply Forall_app. split; [apply IH|]. constructor; [apply N.mod_lt; lia|constructor].
Qed.

Lemma digit_char_not_nul d : (d < 16)%N -> digit_char d <> NUL.
Proof.
  intros Hd Heq. apply (f_equal Ascii.N_of_ascii) in Heq.
  unfold digit_char in Heq. rewrite Ascii.N_ascii_embedding in Heq.
  - destruct (d <? 10)%N; simpl in Heq; lia.
  - destruct (d <? 10)%N; lia.
Qed.

Lemma utoa_nul_free base n : (0 < base <= 16)%N -> nul_free (utoa base n).
Proof.
  intros Hb. unfold utoa, nul_free. apply Forall_map.
  eapply Forall_impl; [apply digits_lt; lia|]. intros d Hd. cbv beta in *. apply digit_char_not_nul. lia.
Qed.

Lemma pad0_nul_free w s : nul_free s -> nul_free (pad0 w s).
Proof.
  intros Hs. unfold pad0. apply Forall_app. split; [|done].
  apply Forall_replicate. discriminate.
Qed.

Lemma fmt_u_nul_free n : nul_free (fmt_u n).
Proof. apply utoa_nul_free. lia. Qed.

Lemma fmt_d_nul_free z : nul_free (fmt_d z).
Proof.
  unfold fmt_d. case_decide; [constructor; [discriminate|]|]; apply fmt_u_nul_free.
Qed.

Lemma fmt_06ld_nul_free z : nul_free (fmt_06ld z).
Proof.
  unfold fmt_06ld. case_decide; [constructor; [discriminate|]|];
    apply pad0_nul_free, fmt_u_nul_free.
Qed.

Lemma strrchr_suffix s c r : strrchr s c = Some r -> exists pre, s = pre ++ r.
Proof.
  revert r. induction s as [|x s IH]; intros r; simpl; [discriminate|].
  destruct (strrchr s c) as [r'|] eqn:E.
  - intros [= <-]. destruct (IH r' eq_refl) as [pre ->]. by exists (x :: pre).
  - case_decide; [intros [= <-]; by exists []|discriminate].
Qed.

Lemma store_not_oof b p c : store b p c <> OutOfFuel.
Proof. unfold store. case_decide; discriminate. Qed.

Lemma store_str_not_oof b p s : store_str b p s <> OutOfFuel.
Proof.
  revert b p. induction s as [|c s IH]; intros b p; simpl; [discriminate|].
  rewrite bind_outcome. apply obind_not_oof; [apply store_not_oof|]. intros; apply IH.
Qed.

Lemma c_str_repeat c n : c <> NUL -> c_str (repeat c n) = repeat c n.
Proof. intros Hc. induction n as [|n IH]; [done|]. cbn [repeat c_str]. by rewrite decide_False, IH. Qed.

(** [EOVERFLOW]: a text longer than [INT_MAX] makes [snprintf] return
    [-1] without writing. *)
Lemma snprintf_overflow b p n s :
  (INT_MAX < Z.of_nat (length s))%Z -> snprintf b p n s = Done (b, (-1)%Z).
Proof. intros. unfold snprintf. by rewrite decide_True. Qed.

Lemma snprintf_not_oof b p n s : snprintf b p n s <> OutOfFuel.
Proof.
  unfold snprintf. case_decide; [discriminate|]. case_decide; [discriminate|].
  rewrite bind_outcome. apply obind_not_oof; [apply store_str_not_oof|discriminate].
Qed.

Lemma read_cstr_not_oof b : read_cstr b <> OutOfFuel.
Proof.
  induction b as [|[c|] b IH]; simpl; try discriminate.
  case_decide; [discriminate|]. rewrite bind_outcome. apply obind_not_oof; [done|discriminate].
Qed.

#[export] Hint Resolve nul_free_c_str fmt_u_nul_free fmt_d_nul_free fmt_06ld_nul_free : dbg.

(** ** Lengths of the conversions *)

Lemma digits_length fuel base n k :
  (2 <= base)%N -> 1 <= k -> (n < base ^ N.of_nat k)%N -> length (digits fuel base n) <= k.
Proof.
  revert n k. induction fuel as [|f IH]; intros n k Hb Hk Hn; simpl; [lia|].
  destruct (N.ltb_spec n base); simpl; [lia|].
  rewrite length_app. simpl.
  destruct k as [|[|k]]; [lia| |].
  - simpl in Hn. lia.
  - assert (n / base < base ^ N.of_nat (S k))%N.
    { apply N.Div0.div_lt_upper_bound. rewrite <- N.pow_succ_r'. by rewrite <- Nat2N.inj_succ. }
    specialize (IH (n / base)%N (S k) Hb ltac:(lia) H0). lia.
Qed.

Lemma length_pad0 w s : length (pad0 w s) = w `max` length s.
Proof. unfold pad0. rewrite length_app, length_replicate. lia. Qed.

Lemma length_fmt_02x n k :
  1 <= k -> (n < 16 ^ N.of_nat k)%N -> length (fmt_02x n) <= 2 `max` k.
Proof.
  intros Hk Hn. unfold fmt_02x. rewrite length_pad0. unfold utoa. rewrite length_map.
  pose proof (digits_length (S (N.size_nat n)) 16 n k ltac:(lia) Hk Hn). lia.
Qed.

(** ** The values C calls return *)

(** What a call returning [int] can return: an [int]. *)
Definition int_range (z : Z) : Prop := (INT_MIN <= z <= INT_MAX)%Z.

(** [snprintf] and [printf] return [-1] or a non-negative [int]. *)
Definition int_result (rc : Z) : Prop := rc = (-1)%Z \/ (0 <= rc <= INT_MAX)%Z.

Lemma int_result_range rc : int_result rc -> int_range rc.
Proof. unfold int_result, int_range, INT_MIN, INT_MAX. lia. Qed.

Lemma int_result_neg rc : int_result rc -> (rc < 0)%Z -> rc = (-1)%Z.
Proof. unfold int_result. lia. Qed.

Lemma snprintf_result b p n s b' rc : snprintf b p n s = Done (b', rc) -> int_result rc.
Proof.
  unfold snprintf, int_result. case_decide; [intros [= _ <-]; by left|].
  case_decide; [intros [= _ <-]; right; lia|].
  rewrite bind_outcome. intros H'. apply obind_Done_inv in H' as (b1 & _ & [= _ <-]). right. lia.
Qed.

Lemma printf_writes `{Platform} w s rc w' : printf w s = (rc, w') -> w_writes w' = S (w_writes w).
Proof. unfold printf. destruct (stdout_fails _); by intros [= _ <-]. Qed.

Lemma printf_neg `{Platform} w s rc w' : printf w s = (rc, w') -> (rc < 0)%Z -> rc = (-1)%Z.
Proof. unfold printf. destruct (stdout_fails _); intros [= <- _]; lia. Qed.

#[export] Hint Resolve int_result_range snprintf_result : dbg.
