(* ===== verification/AddHdr.v ===== *)
(** * AddHdr: [dbg_add_hdr], one header directive (src/dbg.c 48-110)

    The template pointer [hdr] is an index into the template.  Index
    [length hdr] holds the terminating NUL, and a larger index reads past
    the string.  The [switch (c)] on the selector is the enum [directive]
    together with its decoder [directive_of].  Each case either stores the
    single character ['%'], calls [snprintf] with the text its conversion
    produces, or, in the default case, does nothing and returns 0.
    [directive_piece] states the same cases as the unbounded text a
    directive contributes, and [write_piece] how [dbg_add_hdr] puts that
    piece into the buffer.  [dbg_add_hdr_unfold] restates [dbg_add_hdr] as
    the table followed by [write_piece], the form the proofs of Vdbg.v use. *)

From S2P Require Import Prelude CLib.

(** [*hdr] for the index [h]. *)
Definition rd_hdr (hdr : cstr) (h : nat) : outcome ascii :=
  match hdr !! h with
  | Some c => Done c
  | None => if decide (h = length hdr) then Done NUL else Undefined UB_hdr_overrun
  end.

(** [#ifdef __linux__ / #define HAS_GETTID / #endif] (dbg.c 17-19). *)
Definition HAS_GETTID `{Platform} : bool := linux.

(** The cases of [switch (c)] in [dbg_add_hdr]. *)
Inductive directive :=
  | Dir_percent | Dir_basename | Dir_func | Dir_file | Dir_line
  | Dir_pid | Dir_tid | Dir_time | Dir_default.

(** The [case 't'] exists only when [HAS_GETTID] is defined (dbg.c 89-93). *)
Definition directive_of `{Platform} (c : ascii) : directive :=
  match c with
  | "%"%char => Dir_percent
  | "B"%char => Dir_basename
  | "f"%char => Dir_func
  | "F"%char => Dir_file
  | "l"%char => Dir_line
  | "p"%char => Dir_pid
  | "t"%char => if HAS_GETTID then Dir_tid else Dir_default
  | "T"%char => Dir_time
  | _ => Dir_default
  end.

(** [basename = strrchr(file, '/'); basename = NULL ? file : basename + 1]. *)
Definition basename (file : cstr) : cstr :=
  match strrchr (c_str file) "/"%char with
  | None => c_str file
  | Some r => tail r
  end.

(** ["%ld.%06ld"] of [now.tv_sec] and [now.tv_nsec / 1000]; C division
    truncates toward zero. *)
Definition fmt_time (now : timespec) : cstr :=
  fmt_d (tv_sec now) ++ "."%char :: fmt_06ld (Z.quot (tv_nsec now) 1000).

Lemma rd_hdr_not_oof hdr h : rd_hdr hdr h <> OutOfFuel.
Proof. unfold rd_hdr. repeat case_match; discriminate. Qed.

Lemma rd_hdr_bound hdr h c : rd_hdr hdr h = Done c -> h <= length hdr /\ (h = length hdr -> c = NUL).
Proof.
  unfold rd_hdr. destruct (hdr !! h) eqn:E.
  - intros [= <-]. apply lookup_lt_Some in E. split; [lia|intros; lia].
  - case_decide; [intros [= <-]; split; [lia|done]|discriminate].
Qed.

Lemma rd_hdr_past hdr h : length hdr < h -> rd_hdr hdr h = Undefined UB_hdr_overrun.
Proof. intros. unfold rd_hdr. by rewrite lookup_ge_None_2, decide_False by lia. Qed.

Lemma basename_nul_free file : nul_free (basename file).
Proof.
  unfold basename. destruct (strrchr (c_str file) "/"%char) as [r|] eqn:E; [|apply nul_free_c_str].
  destruct (strrchr_suffix _ _ _ E) as [pre Hpre].
  pose proof (nul_free_c_str file) as Hn. rewrite Hpre in Hn.
  apply Forall_app in Hn as [_ Hr]. destruct r; simpl; [constructor|]. by inversion Hr.
Qed.

Lemma fmt_time_nul_free now : nul_free (fmt_time now).
Proof.
  unfold fmt_time. apply Forall_app. split; [apply fmt_d_nul_free|].
  constructor; [discriminate|apply fmt_06ld_nul_free].
Qed.

#[export] Hint Resolve basename_nul_free fmt_time_nul_free : dbg.

Section AddHdr.
Context `{Platform}.

(** [dbg_add_hdr(&hdr, p, remaining, file, func, lineno)]: returns the
    advanced template index, the buffer, [rc] and the world.  The int
    [remaining] is converted to [size_t] for [snprintf]. *)
Definition dbg_add_hdr (hdr : cstr) (h : nat) (b : cells) (p : nat) (remaining : Z)
    (file func : cstr) (lineno : N) (w : world) : outcome (nat * cells * Z * world) :=
  let h := S h in
  c ← rd_hdr hdr h;
  match directive_of c with
  | Dir_percent => b' ← store b p "%"%char; Done (h, b', 1%Z, w)
  | Dir_basename =>
      '(b', rc) ← snprintf b p (u64 remaining) (basename file); Done (h, b', rc, w)
  | Dir_func => '(b', rc) ← snprintf b p (u64 remaining) (c_str func); Done (h, b', rc, w)
  | Dir_file => '(b', rc) ← snprintf b p (u64 remaining) (c_str file); Done (h, b', rc, w)
  | Dir_line => '(b', rc) ← snprintf b p (u64 remaining) (fmt_u lineno); Done (h, b', rc, w)
  | Dir_pid => '(b', rc) ← snprintf b p (u64 remaining) (fmt_d getpid); Done (h, b', rc, w)
  | Dir_tid => '(b', rc) ← snprintf b p (u64 remaining) (fmt_d gettid); Done (h, b', rc, w)
  | Dir_time =>
      let '(rc, now, w') := clock_gettime stale_now w in
      '(b', rc) ← snprintf b p (u64 remaining) (fmt_time now); Done (h, b', rc, w')
  | Dir_default => Done (h, b, 0%Z, w)
  end.

(** What a directive contributes to the unbounded rendering: the
    character [%] (stored without [snprintf]), a text, or nothing. *)
Inductive piece := PLit (c : ascii) | PPct | PText (t : cstr) | PSkip.

Definition piece_text (pc : piece) : cstr :=
  match pc with PLit c => [c] | PPct => ["%"%char] | PText t => t | PSkip => [] end.

Definition directive_piece (d : directive) (file func : cstr) (lineno : N) (w : world)
    : piece * world :=
  match d with
  | Dir_percent => (PPct, w)
  | Dir_basename => (PText (basename file), w)
  | Dir_func => (PText (c_str func), w)
  | Dir_file => (PText (c_str file), w)
  | Dir_line => (PText (fmt_u lineno), w)
  | Dir_pid => (PText (fmt_d getpid), w)
  | Dir_tid => (PText (fmt_d gettid), w)
  | Dir_time => let '(_, now, w') := clock_gettime stale_now w in (PText (fmt_time now), w')
  | Dir_default => (PSkip, w)
  end.

(** How [dbg_add_hdr] realises a piece in the buffer. *)
Definition write_piece (pc : piece) (b : cells) (p : nat) (remaining : Z)
    : outcome (cells * Z) :=
  match pc with
  | PPct => b' ← store b p "%"%char; Done (b', 1%Z)
  | PText t => snprintf b p (u64 remaining) t
  | PLit _ | PSkip => Done (b, 0%Z)
  end.

(** [dbg_add_hdr] as the directive table followed by [write_piece], the
    form the other proofs rewrite with. *)
Lemma dbg_add_hdr_unfold hdr h b p remaining file func lineno w :
  dbg_add_hdr hdr h b p remaining file func lineno w =
    c ← rd_hdr hdr (S h);
    let '(pc, w') := directive_piece (directive_of c) file func lineno w in
    '(b', rc) ← write_piece pc b p remaining; Done (S h, b', rc, w').
Proof.
  unfold dbg_add_hdr. destruct (rd_hdr hdr (S h)) as [c| |]; simpl; [|done|done].
  destruct (directive_of c); simpl;
    repeat match goal with |- context [match ?m with _ => _ end] => destruct m end;
    simpl; try done.
  by destruct (store b p _).
Qed.

Lemma directive_piece_nul_free d file func lineno w pc w' :
  directive_piece d file func lineno w = (pc, w') -> nul_free (piece_text pc).
Proof.
  intros Hd. destruct d; simpl in Hd; try destruct (clock_gettime _ _) as [[? ?] ?]; injection Hd as <- <-; simpl;
    auto with dbg;
    repeat constructor; discriminate.
Qed.
Lemma dbg_add_hdr_not_oof hdr h b p rem file func lineno w :
  dbg_add_hdr hdr h b p rem file func lineno w <> OutOfFuel.
Proof.
  rewrite dbg_add_hdr_unfold, bind_outcome. apply obind_not_oof; [apply rd_hdr_not_oof|].
  intros c _. destruct (directive_piece _ _ _ _ _) as [pc w'].
  rewrite bind_outcome. apply obind_not_oof; [|intros [??] _; discriminate].
  destruct pc; simpl; try discriminate; [|apply snprintf_not_oof].
  rewrite bind_outcome. apply obind_not_oof; [apply store_not_oof|discriminate].
Qed.

Lemma dbg_add_hdr_index hdr h b p rem file func lineno w h' b' rc w' :
  dbg_add_hdr hdr h b p rem file func lineno w = Done (h', b', rc, w') -> h' = S h.
Proof.
  rewrite dbg_add_hdr_unfold. intros Hd. inv_outcome.
  destruct (directive_piece _ _ _ _ _) as [pc w1]. inv_outcome. destruct a0. injection Hd. auto.
Qed.


Lemma dbg_add_hdr_result hdr h b p rem file func lineno w h' b' rc w' :
  dbg_add_hdr hdr h b p rem file func lineno w = Done (h', b', rc, w') -> int_result rc.
Proof.
  rewrite dbg_add_hdr_unfold. intros Hd. inv_outcome.
  destruct (directive_piece _ _ _ _ _) as [pc w1]. inv_outcome. destruct a0 as [b1 rc1].
  injection Hd as <- <- <- <-. destruct pc; simpl in Ha0.
  - injection Ha0 as <- <-. right. unfold INT_MAX. lia.
  - inv_outcome. right. unfold INT_MAX. lia.
  - by apply snprintf_result in Ha0.
  - injection Ha0 as <- <-. right. unfold INT_MAX. lia.
Qed.

Lemma directive_piece_world d file func lineno w pc w' :
  directive_piece d file func lineno w = (pc, w') ->
  w_out w' = w_out w /\ w_writes w' = w_writes w.
Proof.
  intros Hd. destruct d; simpl in Hd;
    try (destruct (clock_gettime _ _) as [[? ?] ?] eqn:Ec; injection Hd as <- <-;
         by apply clock_gettime_world in Ec as (? & ? & _));
    by injection Hd as <- <-.
Qed.
End AddHdr.

(** ** The [%B] directive *)

Lemma strrchr_none s c : c ∉ s -> strrchr s c = None.
Proof.
  induction s as [|x s IH]; intros Hc; simpl; [done|].
  rewrite IH by set_solver. rewrite decide_False; [done|]. set_solver.
Qed.

Lemma strrchr_last pre c s : c ∉ s -> strrchr (pre ++ c :: s) c = Some (c :: s).
Proof.
  intros Hc. induction pre as [|x pre IH]; simpl.
  - by rewrite strrchr_none, decide_True.
  - by rewrite IH.
Qed.

(** C9: [%B] expands to the part of the file path after its last ['/']:
    for ["/a/b/c.ext"] it is ["c.ext"]. *)
Theorem basename_last_slash dir s :
  nul_free (dir ++ "/"%char :: s) -> "/"%char ∉ s -> basename (dir ++ "/"%char :: s) = s.
Proof.
  intros Hn Hs. unfold basename. rewrite c_str_nul_free by done.
  by rewrite strrchr_last.
Qed.

(** C10: a file path with no ['/'] is its own basename. *)
Theorem basename_no_slash s : nul_free s -> "/"%char ∉ s -> basename s = s.
Proof.
  intros Hn Hs. unfold basename. rewrite c_str_nul_free by done. by rewrite strrchr_none.
Qed.

Lemma basename_last_slash_witness :
  basename (("/a/b")%cs ++ "/"%char :: ("c.ext")%cs) = ("c.ext")%cs.
Proof.
  apply basename_last_slash.
  - repeat constructor; discriminate.
  - intros Hin. repeat (apply elem_of_cons in Hin as [Hin|Hin]; [discriminate|]).
    by apply elem_of_nil in Hin.
Defined.

Lemma basename_no_slash_witness : basename ("dbg.c")%cs = ("dbg.c")%cs.
Proof.
  apply basename_no_slash.
  - repeat constructor; discriminate.
  - intros Hin. repeat (apply elem_of_cons in Hin as [Hin|Hin]; [discriminate|]).
    by apply elem_of_nil in Hin.
Defined.
