(* ===== verification/Vdbg.v ===== *)
(** * Vdbg: [__vdbg], the bounded message formatter (src/dbg.c 112-170)

    The C locals of [__vdbg] are kept in the record [fstate]: the template
    index [hdr], the stack buffer [buf] with write offset [p], [remaining],
    the accumulated [rc], and the world.  [vdbg_step] is one iteration of
    the [do { switch (c) ... } while (rc >= 0 && c != '\0')] body.
    [vdbg_loop] runs the loop on fuel, and [__vdbg] adds the final
    [printf("%s", buf)].

    The unbounded specification [hdr_pieces] walks the template the same
    way.  It gives the list of pieces each character or directive
    contributes; their concatenation is the header a buffer of unlimited
    size would hold.  [pieces_safe] is the condition under which the
    256-byte buffer holds a correct prefix of that text: no literal may
    land where [remaining] is 1 or 2, and no [%%] where [remaining] is
    0 or 1. *)

From S2P Require Import Prelude CLib AddHdr.

Record fstate := mk_fstate {
  fs_h : nat;       (** [hdr], as an index into the template *)
  fs_buf : cells;   (** [char buf[256]] *)
  fs_p : nat;       (** [p - buf] *)
  fs_rem : Z;       (** [int remaining] *)
  fs_rc : Z;        (** [int rc] *)
  fs_w : world
}.

(** [sizeof(buf)] *)
Definition VDBG_BUF : nat := 256.

Section Vdbg.
Context `{Platform}.
Variables (hdr file func : cstr) (lineno : N) (msg : fmt_result).

(** One iteration of the loop body (dbg.c 125-160).  It returns the
    character [c] the iteration read, for the loop test. *)
Definition vdbg_step (s : fstate) : outcome (ascii * fstate) :=
  c ← rd_hdr hdr (fs_h s);
  '(h, b, rc2, w) ←
    (if decide (c = "%"%char) then
       dbg_add_hdr hdr (fs_h s) (fs_buf s) (fs_p s) (fs_rem s) file func lineno (fs_w s)
     else if decide (c = NUL) then
       '(b, rc2) ← vsnprintf (fs_buf s) (fs_p s) (u64 (fs_rem s)) msg;
       Done (fs_h s, b, rc2, fs_w s)
     else
       b ← (if decide (2 < fs_rem s)%Z then store (fs_buf s) (fs_p s) c
            else Done (fs_buf s));
       Done (fs_h s, b, 1%Z, fs_w s));
  if decide (rc2 < 0)%Z then Done (c, mk_fstate (S h) b (fs_p s) (fs_rem s) rc2 w)
  else
    rc ← int_add (fs_rc s) rc2;
    let added := MIN rc2 (fs_rem s) in
    Done (c, mk_fstate (S h) b (fs_p s + Z.to_nat added) (fs_rem s - added)%Z rc w).

(** [do { ... } while (rc >= 0 && c != '\0')] *)
Fixpoint vdbg_loop (fuel : nat) (s : fstate) : outcome fstate :=
  match fuel with
  | O => OutOfFuel
  | S fuel' =>
      '(c, s') ← vdbg_step s;
      if bool_decide (0 <= fs_rc s')%Z && negb (bool_decide (c = NUL))
      then vdbg_loop fuel' s'
      else Done s'
  end.

(** The unbounded rendering of the header: the pieces of the template
    read from index [length pre] where [hdr = pre ++ t].  [None] when the
    template ends in a lone [%]. *)
Fixpoint hdr_pieces (t : cstr) (w : world) : option (list piece * world) :=
  match t with
  | [] => Some ([], w)
  | c :: t' =>
      if decide (c = NUL) then Some ([], w)
      else if decide (c = "%"%char) then
        match t' with
        | [] => None
        | sel :: t'' =>
            let '(pc, w1) := directive_piece (directive_of sel) file func lineno w in
            '(ps, w2) ← hdr_pieces t'' w1; Some (pc :: ps, w2)
        end
      else '(ps, w1) ← hdr_pieces t' w; Some (PLit c :: ps, w1)
  end.
End Vdbg.

Definition pieces_text (ps : list piece) : cstr := concat (map piece_text ps).

(** A literal must start at a logical position [q] with [q <= 253] or
    [q >= 256], where [remaining] is not 1 or 2.  A [%%] must start at
    [q <= 254], where [remaining] is at least 2. *)
Definition piece_ok (q : nat) (pc : piece) : bool :=
  match pc with
  | PLit _ => bool_decide (q <= 253 \/ 256 <= q)
  | PPct => bool_decide (q <= 254)
  | _ => true
  end.

Fixpoint pieces_safe (q : nat) (ps : list piece) : bool :=
  match ps with
  | [] => true
  | pc :: ps' => piece_ok q pc && pieces_safe (q + length (piece_text pc)) ps'
  end.

Definition vdbg_init (w : world) : fstate := mk_fstate 0 (uninit VDBG_BUF) 0 256 0 w.

(** Enough fuel: every iteration advances the template index and the
    NUL at index [length hdr] ends the loop. *)
Definition vdbg_fuel (hdr : cstr) : nat := length hdr + 2.

Section Entry.
Context `{Platform}.

(** [int __vdbg(hdr, file, func, lineno, fmt, ap)] *)
Definition __vdbg (hdr file func : cstr) (lineno : N) (msg : fmt_result) (w : world)
    : outcome (Z * world) :=
  s ← vdbg_loop hdr file func lineno msg (vdbg_fuel hdr) (vdbg_init w);
  if decide (0 <= fs_rc s)%Z then
    out ← read_cstr (fs_buf s);
    let '(rc2, w') := printf (fs_w s) out in
    Done (if decide (rc2 < 0)%Z then rc2 else fs_rc s, w')
  else Done (fs_rc s, fs_w s).
End Entry.

(** ** The buffer invariant

    After the logical text [L] has been produced, a buffer in the shape
    [buf_inv] holds it.  If [L] is shorter than 256, the buffer holds [L]
    before [p = length L].  Otherwise [p] is at the end and the buffer holds
    the first 255 characters of [L] followed by a NUL.  In the first case
    the cells after [p] have never been written: they are indeterminate. *)

Definition buf_inv (L : cstr) (b : cells) (p : nat) (rem : Z) : Prop :=
  length b = 256 /\ rem = Z.of_nat (256 - p) /\
  ((length L < 256 /\ p = length L /\ take p b = map Some L /\
    drop (S p) b = replicate (255 - p) None) \/
   (256 <= length L /\ p = 256 /\ b = map Some (take 255 L) ++ [Some NUL])).

Lemma buf_inv_init : buf_inv [] (uninit VDBG_BUF) 0 256.
Proof. split; [reflexivity|]. split; [reflexivity|]. left. split; [simpl; lia|]. done. Qed.

Lemma u64_rem L b p rem : buf_inv L b p rem -> u64 rem = rem.
Proof. intros (_ & -> & _). apply u64_small. lia. Qed.

Lemma buf_inv_text L b p rem t :
  buf_inv L b p rem -> (Z.of_nat (length t) <= INT_MAX)%Z ->
  exists b', snprintf b p (u64 rem) t = Done (b', Z.of_nat (length t)) /\
    buf_inv (L ++ t) b' (p + Z.to_nat (MIN (Z.of_nat (length t)) rem)) (rem - MIN (Z.of_nat (length t)) rem)%Z.
Proof.
  intros Hinv Ht. rewrite (u64_rem _ _ _ _ Hinv), MIN_spec.
  destruct Hinv as (Hlen & -> & [(HL & -> & Htake & Hfresh) | (HL & -> & ->)]).
  - rewrite snprintf_spec by lia. eexists; split; [done|].
    split; [rewrite length_splice; [lia|]; rewrite length_map, length_app, length_take; simpl; lia|].
    split; [lia|].
    destruct (decide (length t < 256 - length L)) as [Hfit|Hcut].
    + left. rewrite length_app. split; [lia|]. split; [lia|].
      rewrite take_ge with (l := t) by lia.
      replace (Z.to_nat (Z.min (Z.of_nat (length t)) (Z.of_nat (256 - length L)))) with (length t) by lia.
      split.
      * rewrite take_splice by (rewrite ?length_map, ?length_app; simpl; lia).
        rewrite Htake, map_app, take_app_le, take_ge by (rewrite ?length_map; lia). by rewrite map_app.
      * rewrite drop_splice_ge by (rewrite ?length_map, ?length_app; simpl; lia).
        replace (S (length L + length t)) with (S (length L) + length t) by lia.
        rewrite <- drop_drop, Hfresh, drop_replicate. f_equal. lia.
    + right. rewrite length_app. split; [lia|]. split; [lia|].
      rewrite splice_end by (rewrite length_map, length_app, length_take; simpl; lia).
      rewrite Htake, take_app, (take_ge L), Nat2Z.id by lia.
      replace (256 - length L - 1) with (255 - length L) by lia.
      by rewrite !map_app, app_assoc.
  - rewrite Nat.sub_diag. simpl. rewrite snprintf_zero by done. eexists; split; [done|].
    split; [assumption|]. split; [lia|]. right. rewrite length_app. split; [lia|]. split; [lia|].
    by rewrite take_app_le by lia.
Qed.

(** A store at [p] leaves the cells after [p + 1] as they were. *)
Lemma buf_fresh_insert (b : cells) p x :
  drop (S p) b = replicate (255 - p) None -> drop (S (S p)) (<[p := x]> b) = replicate (255 - S p) None.
Proof.
  intros Hf. rewrite drop_insert_lt by lia.
  replace (S (S p)) with (S p + 1) by lia. rewrite <- drop_drop, Hf, drop_replicate. f_equal. lia.
Qed.

Lemma buf_inv_lit L b p rem c :
  buf_inv L b p rem -> length L <= 253 \/ 256 <= length L ->
  exists b', (if decide (2 < rem)%Z then store b p c else Done b) = Done b' /\
    buf_inv (L ++ [c]) b' (p + Z.to_nat (MIN 1 rem)) (rem - MIN 1 rem)%Z.
Proof.
  rewrite MIN_spec. intros (Hlen & -> & [(HL & -> & Htake & Hfresh) | (HL & -> & ->)]) Hq.
  - rewrite decide_True, store_in by lia. eexists; split; [done|].
    split; [by rewrite length_insert|]. split; [lia|]. left.
    rewrite length_app. simpl. split; [lia|]. split; [lia|].
    replace (length L + Z.to_nat (Z.min 1 (Z.of_nat (256 - length L)))) with (S (length L)) by lia.
    split; [by rewrite take_S_insert, Htake, map_app by lia|]. by apply buf_fresh_insert.
  - simpl. eexists; split; [done|]. split; [assumption|]. split; [lia|]. right.
    rewrite length_app. split; [lia|]. split; [lia|]. by rewrite take_app_le by lia.
Qed.

Lemma buf_inv_pct L b p rem :
  buf_inv L b p rem -> length L <= 254 ->
  exists b', store b p "%"%char = Done b' /\
    buf_inv (L ++ ["%"%char]) b' (p + Z.to_nat (MIN 1 rem)) (rem - MIN 1 rem)%Z.
Proof.
  rewrite MIN_spec. intros (Hlen & -> & [(HL & -> & Htake & Hfresh) | (HL & -> & ->)]) Hq; [|lia].
  rewrite store_in by lia. eexists; split; [done|].
  split; [by rewrite length_insert|]. split; [lia|]. left.
  rewrite length_app. simpl. split; [lia|]. split; [lia|].
  replace (length L + Z.to_nat (Z.min 1 (Z.of_nat (256 - length L)))) with (S (length L)) by lia.
  split; [by rewrite take_S_insert, Htake, map_app by lia|]. by apply buf_fresh_insert.
Qed.

Lemma buf_inv_final L b p rem m :
  buf_inv L b p rem -> nul_free L -> nul_free m -> (Z.of_nat (length m) <= INT_MAX)%Z ->
  exists b', snprintf b p (u64 rem) m = Done (b', Z.of_nat (length m)) /\
    read_cstr b' = Done (take 255 (L ++ m)).
Proof.
  intros Hinv HnL Hnm Hm. rewrite (u64_rem _ _ _ _ Hinv).
  destruct Hinv as (Hlen & -> & [(HL & -> & Htake & _) | (HL & -> & ->)]).
  - rewrite snprintf_spec by lia. eexists; split; [done|].
    unfold splice. rewrite Htake, Nat2Z.id, map_app, <- !app_assoc.
    simpl. rewrite app_assoc, <- map_app. rewrite read_cstr_app.
    + rewrite take_app, (take_ge L) by lia. do 3 f_equal. lia.
    + apply Forall_app. split; [done|]. by apply Forall_take.
  - rewrite Nat.sub_diag. simpl. rewrite snprintf_zero by done. eexists; split; [done|].
    rewrite take_app_le by lia. apply read_cstr_app. by apply Forall_take.
Qed.

(** ** Walking the template *)

Lemma rd_hdr_at pre c t : rd_hdr (pre ++ c :: t) (length pre) = Done c.
Proof. unfold rd_hdr. by rewrite lookup_app_r, Nat.sub_diag by lia. Qed.

Lemma rd_hdr_end hdr : rd_hdr hdr (length hdr) = Done NUL.
Proof. unfold rd_hdr. rewrite lookup_ge_None_2 by lia. by rewrite decide_True. Qed.

Lemma buf_inv_skip L b p rem :
  buf_inv L b p rem -> buf_inv (L ++ []) b (p + Z.to_nat (MIN 0 rem)) (rem - MIN 0 rem)%Z.
Proof.
  intros Hinv. rewrite app_nil_r.
  destruct Hinv as (Hlen & -> & Hc). rewrite MIN_spec, Z.min_l by lia.
  rewrite Nat.add_0_r, Z.sub_0_r. by split.
Qed.

(** Writing a directive's piece keeps the invariant. *)
Lemma buf_inv_piece `{Platform} L b p rem pc :
  buf_inv L b p rem -> piece_ok (length L) pc = true -> (forall c, pc <> PLit c) ->
  (Z.of_nat (length (piece_text pc)) <= INT_MAX)%Z ->
  exists b', write_piece pc b p rem = Done (b', Z.of_nat (length (piece_text pc))) /\
    buf_inv (L ++ piece_text pc) b'
      (p + Z.to_nat (MIN (Z.of_nat (length (piece_text pc))) rem))
      (rem - MIN (Z.of_nat (length (piece_text pc))) rem)%Z.
Proof.
  intros Hinv Hok Hnl Hmax. destruct pc as [c| |t|]; simpl in *.
  - by destruct (Hnl c).
  - apply bool_decide_eq_true in Hok.
    destruct (buf_inv_pct L b p rem Hinv Hok) as (b' & -> & Hb'). by exists b'.
  - by apply buf_inv_text.
  - exists b. split; [done|]. by apply buf_inv_skip.
Qed.

Lemma rd_hdr_sel pre c sel t : rd_hdr (pre ++ c :: sel :: t) (S (length pre)) = Done sel.
Proof.
  pose proof (rd_hdr_at (pre ++ [c]) sel t) as Hr.
  rewrite <- app_assoc, length_app, Nat.add_1_r in Hr. exact Hr.
Qed.

Lemma directive_piece_not_lit `{Platform} d file func lineno w pc w' :
  directive_piece d file func lineno w = (pc, w') -> forall c, pc <> PLit c.
Proof.
  intros Hd c ->. destruct d; simpl in Hd;
    try destruct (clock_gettime _ _) as [[? ?] ?]; discriminate.
Qed.


Section Walk.
Context `{Platform}.
Variables (hdr file func : cstr) (lineno : N) (msg : fmt_result).

Definition at_text (pre L : cstr) (s : fstate) : Prop :=
  fs_h s = length pre /\ buf_inv L (fs_buf s) (fs_p s) (fs_rem s) /\
  fs_rc s = Z.of_nat (length L).

(** A literal, whatever [remaining] is: stored only when
    [remaining > 2], counted in [rc] and [p] in every case. *)
Lemma vdbg_step_char pre c t s :
  hdr = pre ++ c :: t -> c <> NUL -> c <> "%"%char -> fs_h s = length pre ->
  vdbg_step hdr file func lineno msg s =
    b ← (if decide (2 < fs_rem s)%Z then store (fs_buf s) (fs_p s) c else Done (fs_buf s));
    rc ← int_add (fs_rc s) 1;
    Done (c, mk_fstate (S (fs_h s)) b (fs_p s + Z.to_nat (MIN 1 (fs_rem s)))
               (fs_rem s - MIN 1 (fs_rem s))%Z rc (fs_w s)).
Proof.
  intros -> Hnul Hpct Hh. unfold vdbg_step. rewrite Hh at 1. rewrite rd_hdr_at. ostep.
  rewrite decide_False by done. rewrite decide_False by done.
  case_decide; [destruct (store (fs_buf s) (fs_p s) c)|]; ostep; try done.
  all: by rewrite decide_False by lia.
Qed.

Lemma vdbg_step_lit pre c t L s :
  hdr = pre ++ c :: t -> c <> NUL -> c <> "%"%char -> at_text pre L s ->
  piece_ok (length L) (PLit c) = true -> (Z.of_nat (length (L ++ [c])) <= INT_MAX)%Z ->
  exists s', vdbg_step hdr file func lineno msg s = Done (c, s') /\
    at_text (pre ++ [c]) (L ++ [c]) s' /\ fs_w s' = fs_w s.
Proof.
  intros -> Hnul Hpct (Hh & Hinv & Hrc) Hok Hmax.
  apply bool_decide_eq_true in Hok.
  destruct (buf_inv_lit _ _ _ _ c Hinv Hok) as (b' & Hst & Hb').
  unfold vdbg_step. rewrite Hh, rd_hdr_at. ostep.
  rewrite decide_False by done. rewrite decide_False by done.
  rewrite Hst. ostep. rewrite decide_False by lia.
  rewrite length_app in Hmax; simpl in Hmax.
  rewrite Hrc, int_add_ok by (unfold INT_MIN; lia). ostep.
  eexists; split; [reflexivity|]. split; [|done].
  split; [rewrite length_app; simpl; lia|]. split; [exact Hb'|]. rewrite length_app; simpl; lia.
Qed.

Lemma vdbg_step_dir pre sel t L s pc w1 :
  hdr = pre ++ "%"%char :: sel :: t -> at_text pre L s ->
  directive_piece (directive_of sel) file func lineno (fs_w s) = (pc, w1) ->
  piece_ok (length L) pc = true ->
  (Z.of_nat (length (L ++ piece_text pc)) <= INT_MAX)%Z ->
  exists s', vdbg_step hdr file func lineno msg s = Done ("%"%char, s') /\
    at_text (pre ++ ["%"%char; sel]) (L ++ piece_text pc) s' /\ fs_w s' = w1.
Proof.
  intros Hhdr (Hh & Hinv & Hrc) Hpc Hok Hmax.
  rewrite length_app in Hmax.
  assert (Hm : (Z.of_nat (length (piece_text pc)) <= INT_MAX)%Z) by lia.
  destruct (buf_inv_piece L _ _ _ pc Hinv Hok (directive_piece_not_lit _ _ _ _ _ _ _ Hpc) Hm)
    as (b' & Hw & Hb').
  unfold vdbg_step. rewrite Hh, Hhdr, rd_hdr_at. ostep. rewrite decide_True by done.
  rewrite dbg_add_hdr_unfold, rd_hdr_sel. ostep. rewrite Hpc, Hw. ostep.
  rewrite decide_False by lia.
  rewrite Hrc, int_add_ok by (unfold INT_MIN; lia). ostep.
  eexists; split; [reflexivity|]. split; [|done].
  split; [rewrite length_app; simpl; lia|]. split; [exact Hb'|]. rewrite length_app; simpl; lia.
Qed.

Lemma vdbg_loop_continue fuel s c s' :
  vdbg_step hdr file func lineno msg s = Done (c, s') -> c <> NUL -> (0 <= fs_rc s')%Z ->
  vdbg_loop hdr file func lineno msg (S fuel) s = vdbg_loop hdr file func lineno msg fuel s'.
Proof.
  intros Hs Hc Hrc. cbn [vdbg_loop]. rewrite Hs. ostep.
  by rewrite bool_decide_true, bool_decide_false by done.
Qed.

(** The result of walking the template up to its terminating NUL. *)
Definition walked (L : cstr) (w1 : world) (s s_end : fstate) (k : nat) : Prop :=
  rd_hdr hdr (fs_h s_end) = Done NUL /\
  buf_inv L (fs_buf s_end) (fs_p s_end) (fs_rem s_end) /\
  fs_rc s_end = Z.of_nat (length L) /\ fs_w s_end = w1 /\
  forall fuel, vdbg_loop hdr file func lineno msg (k + fuel) s =
               vdbg_loop hdr file func lineno msg fuel s_end.

Lemma vdbg_walk_stop pre L s :
  rd_hdr hdr (fs_h s) = Done NUL -> at_text pre L s -> walked (L ++ pieces_text []) (fs_w s) s s 0.
Proof.
  intros Hrd (_ & Hinv & Hrc). simpl. rewrite app_nil_r.
  do 4 (split; [done|]). done.
Qed.

(** One more iteration in front of a walk. *)
Lemma walked_cons L w1 s s' s_end k c pre' L' :
  vdbg_step hdr file func lineno msg s = Done (c, s') -> c <> NUL -> at_text pre' L' s' ->
  walked L w1 s' s_end k -> walked L w1 s s_end (S k).
Proof.
  intros Hstep Hc Hat' (Hrd & Hinv & Hrc & Hw & Hloop). do 4 (split; [done|]).
  intros fuel. change (S k + fuel) with (S (k + fuel)).
  rewrite (vdbg_loop_continue _ _ _ _ Hstep) by (done || (destruct Hat' as (_ & _ & ->); lia)).
  apply Hloop.
Qed.

(** One piece of the template: a literal or a directive [%x] of
    [c :: t] is consumed by one iteration, which appends the piece's
    text to the logical header. *)
Lemma vdbg_walk_piece pre c t rest L s ps w1 :
  hdr = pre ++ (c :: t) ++ rest -> c <> NUL -> at_text pre L s ->
  hdr_pieces file func lineno (c :: t) (fs_w s) = Some (ps, w1) ->
  pieces_safe (length L) ps = true ->
  (Z.of_nat (length (L ++ pieces_text ps)) <= INT_MAX)%Z ->
  exists u t' pc ps' s', c :: t = u ++ t' /\ u <> [] /\ ps = pc :: ps' /\
    vdbg_step hdr file func lineno msg s = Done (c, s') /\
    at_text (pre ++ u) (L ++ piece_text pc) s' /\
    hdr_pieces file func lineno t' (fs_w s') = Some (ps', w1) /\
    pieces_safe (length (L ++ piece_text pc)) ps' = true.
Proof.
  intros Hhdr Hnul Hat Hps Hsafe Hmax. cbn [hdr_pieces] in Hps.
  rewrite decide_False in Hps by done. case_decide as Hpct.
  - subst c. destruct t as [|sel t]; [discriminate|].
    destruct (directive_piece (directive_of sel) file func lineno (fs_w s)) as [pc w1'] eqn:Hpc.
    destruct (hdr_pieces file func lineno t w1') as [[ps' w2]|] eqn:Hps';
      simpl in Hps; [|discriminate].
    injection Hps as <- <-. cbn [pieces_safe] in Hsafe. apply andb_true_iff in Hsafe as [Hok Hsafe].
    change (pieces_text (pc :: ps')) with (piece_text pc ++ pieces_text ps') in Hmax.
    destruct (vdbg_step_dir pre sel (t ++ rest) L s pc w1' Hhdr Hat Hpc Hok)
      as (s' & Hstep & Hat' & Hw'); [rewrite app_assoc, !length_app in *; lia|].
    exists ["%"%char; sel], t, pc, ps', s'. rewrite Hw', length_app. by do 6 (split; [done|]).
  - destruct (hdr_pieces file func lineno t (fs_w s)) as [[ps' w2]|] eqn:Hps';
      simpl in Hps; [|discriminate].
    injection Hps as <- <-. cbn [pieces_safe] in Hsafe. apply andb_true_iff in Hsafe as [Hok Hsafe].
    change (pieces_text (PLit c :: ps')) with ([c] ++ pieces_text ps') in Hmax.
    destruct (vdbg_step_lit pre c (t ++ rest) L s Hhdr Hnul Hpct Hat Hok)
      as (s' & Hstep & Hat' & Hw'); [rewrite app_assoc, !length_app in *; lia|].
    exists [c], t, (PLit c), ps', s'. rewrite Hw', length_app. by do 6 (split; [done|]).
Qed.

Lemma at_text_rc pre L s : at_text pre L s -> (0 <= fs_rc s)%Z.
Proof. intros (_ & _ & ->). lia. Qed.

Lemma vdbg_walk n : forall t pre L s ps w1,
  length t <= n -> hdr = pre ++ t -> at_text pre L s ->
  hdr_pieces file func lineno t (fs_w s) = Some (ps, w1) ->
  pieces_safe (length L) ps = true ->
  (Z.of_nat (length (L ++ pieces_text ps)) <= INT_MAX)%Z ->
  exists k s_end, k <= length t /\ walked (L ++ pieces_text ps) w1 s s_end k.
Proof.
  induction n as [|n IH]; intros t pre L s ps w1 Hn Hhdr Hat Hps Hsafe Hmax.
  all: destruct t as [|c t]; [|destruct (decide (c = NUL)) as [Hnul|Hnul]].
  1, 4: injection Hps as <- <-; exists 0, s; split; [lia|];
    apply (vdbg_walk_stop pre); [|done];
    destruct Hat as (-> & _); rewrite Hhdr, app_nil_r; apply rd_hdr_end.
  1, 3: cbn [hdr_pieces] in Hps; rewrite decide_True in Hps by done;
    injection Hps as <- <-; exists 0, s; split; [lia|];
    apply (vdbg_walk_stop pre); [|done]; destruct Hat as (-> & _);
    by rewrite Hhdr, rd_hdr_at, Hnul.
  { simpl in Hn. lia. }
  destruct (vdbg_walk_piece pre c t [] L s ps w1)
    as (u & t' & pc & ps' & s' & Heq & Hu & -> & Hstep & Hat' & Hps' & Hsafe');
    try done; [by rewrite app_nil_r|].
  assert (Hlen : length t' <= length t)
    by (destruct u; [done|]; apply (f_equal length) in Heq; rewrite length_app in Heq; simpl in *; lia).
  change (pieces_text (pc :: ps')) with (piece_text pc ++ pieces_text ps') in *.
  rewrite app_assoc in Hmax |- *.
  destruct (IH t' (pre ++ u) (L ++ piece_text pc) s' ps' w1) as (k & s_end & Hk & Hwalk);
    try done; [simpl in Hn; lia|by rewrite <- app_assoc, <- Heq|].
  exists (S k), s_end. split; [simpl; lia|].
  exact (walked_cons _ _ _ _ _ _ _ _ _ Hstep Hnul Hat' Hwalk).
Qed.

(** Walking a NUL-free part [t] of the template, followed by anything:
    after at most [length t] iterations the loop stands after [t] with
    the pieces of [t] in the buffer. *)
Lemma vdbg_walk_prefix n : forall t rest pre L s ps w1,
  length t <= n -> hdr = pre ++ t ++ rest -> nul_free t -> at_text pre L s ->
  hdr_pieces file func lineno t (fs_w s) = Some (ps, w1) ->
  pieces_safe (length L) ps = true ->
  (Z.of_nat (length (L ++ pieces_text ps)) <= INT_MAX)%Z ->
  exists k s', k <= length t /\ at_text (pre ++ t) (L ++ pieces_text ps) s' /\ fs_w s' = w1 /\
    forall fuel, vdbg_loop hdr file func lineno msg (k + fuel) s =
                 vdbg_loop hdr file func lineno msg fuel s'.
Proof.
  induction n as [|n IH]; intros t rest pre L s ps w1 Hn Hhdr Hnf Hat Hps Hsafe Hmax.
  all: destruct t as [|c t].
  1, 3: injection Hps as <- <-; exists 0, s; rewrite !app_nil_r; by do 3 (split; [done|]).
  { simpl in Hn. lia. }
  apply Forall_cons in Hnf as [Hnul Hnf].
  destruct (vdbg_walk_piece pre c t rest L s ps w1)
    as (u & t' & pc & ps' & s' & Heq & Hu & -> & Hstep & Hat' & Hps' & Hsafe'); try done.
  assert (Hlen : length t' <= length t)
    by (destruct u; [done|]; apply (f_equal length) in Heq; rewrite length_app in Heq; simpl in *; lia).
  assert (Hnf' : nul_free t').
  { assert (Hct : nul_free (c :: t)) by (by apply Forall_cons). rewrite Heq in Hct. by apply Forall_app in Hct as [_ ?]. }
  change (pieces_text (pc :: ps')) with (piece_text pc ++ pieces_text ps') in *.
  rewrite app_assoc in Hmax |- *.
  destruct (IH t' rest (pre ++ u) (L ++ piece_text pc) s' ps' w1) as (k & s_end & Hk & Hat2 & Hw & Hloop);
    try done; [simpl in Hn; lia|by rewrite Hhdr, Heq, <- !app_assoc|].
  exists (S k), s_end. split; [simpl; lia|]. rewrite <- app_assoc, <- Heq in Hat2.
  split; [done|]. split; [done|]. intros fuel. change (S k + fuel) with (S (k + fuel)).
  rewrite (vdbg_loop_continue _ _ _ _ Hstep Hnul (at_text_rc _ _ _ Hat')). apply Hloop.
Qed.

Lemma vdbg_step_not_oof s : vdbg_step hdr file func lineno msg s <> OutOfFuel.
Proof.
  unfold vdbg_step. rewrite bind_outcome. apply obind_not_oof; [apply rd_hdr_not_oof|].
  intros c _. rewrite bind_outcome. apply obind_not_oof.
  - case_decide; [apply dbg_add_hdr_not_oof|]. case_decide.
    + rewrite bind_outcome. apply obind_not_oof; [|intros [??] _; discriminate].
      destruct msg; [apply snprintf_not_oof|discriminate].
    + rewrite bind_outcome. apply obind_not_oof; [case_decide; [apply store_not_oof|discriminate]|discriminate].
  - intros [[[h b] rc2] w] _. case_decide; [discriminate|].
    rewrite bind_outcome. apply obind_not_oof; [unfold int_add; case_decide; discriminate|discriminate].
Qed.

Lemma vdbg_step_index s c s' :
  vdbg_step hdr file func lineno msg s = Done (c, s') ->
  rd_hdr hdr (fs_h s) = Done c /\
  fs_h s' = (if decide (c = "%"%char) then S (S (fs_h s)) else S (fs_h s)).
Proof.
  unfold vdbg_step. intros Hs. rewrite bind_outcome in Hs.
  apply obind_Done_inv in Hs as (c0 & Hrd & Hs). rewrite bind_outcome in Hs.
  apply obind_Done_inv in Hs as ([[[h b] rc2] w] & Hbr & Hs). cbv beta iota in Hs.
  assert (Hh : fs_h s' = S h /\ c = c0).
  { case_decide; [by injection Hs as <- <-|].
    rewrite bind_outcome in Hs. apply obind_Done_inv in Hs as (rc & _ & Hs).
    by injection Hs as <- <-. }
  destruct Hh as [-> ->]. split; [done|].
  destruct (decide (c0 = "%"%char)); [f_equal; by eapply dbg_add_hdr_index|].
  destruct (decide (c0 = NUL)); rewrite bind_outcome in Hbr; apply obind_Done_inv in Hbr as (x & _ & Hbr);
    [destruct x|]; by injection Hbr as <-.
Qed.
End Walk.

Section Finish.
Context `{Platform}.
Variables (hdr file func : cstr) (lineno : N).

Lemma vdbg_finish fuel s L m :
  rd_hdr hdr (fs_h s) = Done NUL -> buf_inv L (fs_buf s) (fs_p s) (fs_rem s) ->
  fs_rc s = Z.of_nat (length L) -> nul_free L -> nul_free m ->
  (Z.of_nat (length (L ++ m)) <= INT_MAX)%Z ->
  exists s', vdbg_loop hdr file func lineno (Rendered m) (S fuel) s = Done s' /\
    fs_rc s' = Z.of_nat (length (L ++ m)) /\ fs_w s' = fs_w s /\
    read_cstr (fs_buf s') = Done (take 255 (L ++ m)).
Proof.
  intros Hrd Hinv Hrc HL Hm Hmax. rewrite length_app in Hmax.
  assert (Hm1 : (Z.of_nat (length m) <= INT_MAX)%Z) by lia.
  destruct (buf_inv_final L _ _ _ m Hinv HL Hm Hm1) as (b' & Hsn & Hread).
  cbn [vdbg_loop]. unfold vdbg_step. rewrite Hrd. ostep.
  rewrite decide_False by discriminate. rewrite decide_True by done.
  cbn [vsnprintf]. rewrite Hsn. ostep. rewrite decide_False by lia.
  rewrite Hrc, int_add_ok by (unfold INT_MIN; lia). ostep.
  rewrite (bool_decide_true (NUL = NUL)), andb_false_r by done.
  eexists; split; [reflexivity|]. simpl. split; [rewrite length_app; lia|]. by split.
Qed.

Lemma vdbg_finish_error fuel s L :
  rd_hdr hdr (fs_h s) = Done NUL -> buf_inv L (fs_buf s) (fs_p s) (fs_rem s) ->
  exists s', vdbg_loop hdr file func lineno FmtError (S fuel) s = Done s' /\
    fs_rc s' = (-1)%Z /\ fs_w s' = fs_w s.
Proof.
  intros Hrd Hinv. cbn [vdbg_loop]. unfold vdbg_step. rewrite Hrd. ostep.
  rewrite decide_False by discriminate. rewrite decide_True by done.
  cbn [vsnprintf]. ostep. rewrite decide_True by lia. ostep. simpl.
  by eexists.
Qed.

(** [rc += rc2] for the message: when the header's length and the
    message's length, each an [int], add up past [INT_MAX], the signed
    addition overflows. *)
Lemma vdbg_finish_overflow fuel s L m :
  rd_hdr hdr (fs_h s) = Done NUL -> buf_inv L (fs_buf s) (fs_p s) (fs_rem s) ->
  fs_rc s = Z.of_nat (length L) -> nul_free L -> nul_free m ->
  (Z.of_nat (length m) <= INT_MAX)%Z -> (INT_MAX < Z.of_nat (length (L ++ m)))%Z ->
  vdbg_loop hdr file func lineno (Rendered m) (S fuel) s = Undefined UB_int_overflow.
Proof.
  intros Hrd Hinv Hrc HL Hm Hm1 Hover. rewrite length_app in Hover.
  destruct (buf_inv_final L _ _ _ m Hinv HL Hm Hm1) as (b' & Hsn & _).
  cbn [vdbg_loop]. unfold vdbg_step. rewrite Hrd. ostep.
  rewrite decide_False by discriminate. rewrite decide_True by done.
  cbn [vsnprintf]. rewrite Hsn. ostep. rewrite decide_False by lia.
  unfold int_add. rewrite Hrc, decide_False by (unfold INT_MIN; lia). done.
Qed.

Lemma hdr_pieces_nul_free n : forall t w ps w1,
  length t <= n -> hdr_pieces file func lineno t w = Some (ps, w1) -> nul_free (pieces_text ps).
Proof.
  induction n as [|n IH]; intros [|c t] w ps w1 Hn Hps; simpl in *;
    try (injection Hps as <- <-; constructor); try lia.
  case_decide as Hnul; [injection Hps as <- <-; constructor|].
  case_decide as Hpct.
  - destruct t as [|sel t]; [discriminate|].
    destruct (directive_piece (directive_of sel) file func lineno w) as [pc w1'] eqn:Hpc.
    destruct (hdr_pieces file func lineno t w1') as [[ps' w2]|] eqn:Hps'; simpl in Hps; [|discriminate].
    injection Hps as <- <-. change (nul_free (piece_text pc ++ pieces_text ps')).
    apply Forall_app. split; [by eapply directive_piece_nul_free|].
    apply (IH t w1' ps' w2); [simpl in Hn; lia|exact Hps'].
  - destruct (hdr_pieces file func lineno t w) as [[ps' w2]|] eqn:Hps'; simpl in Hps; [|discriminate].
    injection Hps as <- <-. change (nul_free ([c] ++ pieces_text ps')).
    apply Forall_app. split; [by repeat constructor|]. apply (IH t w ps' w2); [lia|exact Hps'].
Qed.
End Finish.

(** ** The properties of [__vdbg] *)

Section Theorems.
Context `{Platform}.

(** Every [rc2] of the loop body is a C result: [-1], or an [int] length. *)
Lemma vdbg_step_rc2 `{Platform} hdr file func lineno msg s c0 h b rc2 w :
  rd_hdr hdr (fs_h s) = Done c0 ->
  (if decide (c0 = "%"%char) then
     dbg_add_hdr hdr (fs_h s) (fs_buf s) (fs_p s) (fs_rem s) file func lineno (fs_w s)
   else if decide (c0 = NUL) then
     '(b, rc2) ← vsnprintf (fs_buf s) (fs_p s) (u64 (fs_rem s)) msg;
     Done (fs_h s, b, rc2, fs_w s)
   else
     b ← (if decide (2 < fs_rem s)%Z then store (fs_buf s) (fs_p s) c0 else Done (fs_buf s));
     Done (fs_h s, b, 1%Z, fs_w s)) = Done (h, b, rc2, w) ->
  int_result rc2.
Proof.
  intros _ Hb. case_decide; [by eapply dbg_add_hdr_result|].
  rewrite bind_outcome in Hb. case_decide.
  - apply obind_Done_inv in Hb as ([b1 rc1] & Ha & Hb). injection Hb as <- <- <- <-.
    destruct msg; simpl in Ha; [by eapply snprintf_result|injection Ha as <- <-; by left].
  - apply obind_Done_inv in Hb as (b1 & _ & Hb). injection Hb as <- <- <- <-.
    right. unfold INT_MAX. lia.
Qed.

(** The loop keeps [rc] an [int]: a negative [rc2] replaces it, any other
    is added with [int_add], whose overflow is undefined. *)
Lemma vdbg_step_rc `{Platform} hdr file func lineno msg s c s' :
  int_range (fs_rc s) -> vdbg_step hdr file func lineno msg s = Done (c, s') -> int_range (fs_rc s').
Proof.
  intros Hr Hs. unfold vdbg_step in Hs. rewrite bind_outcome in Hs.
  apply obind_Done_inv in Hs as (c0 & Hc0 & Hs). rewrite bind_outcome in Hs.
  apply obind_Done_inv in Hs as ([[[h b] rc2] w] & Hb & Hs). cbv beta iota in Hs.
  pose proof (vdbg_step_rc2 _ _ _ _ _ _ _ _ _ _ _ Hc0 Hb) as Hrc2.
  case_decide; [injection Hs as <- <-; by apply int_result_range|].
  rewrite bind_outcome in Hs. apply obind_Done_inv in Hs as (rc & Hadd & Hs).
  injection Hs as <- <-. simpl. unfold int_add in Hadd. case_decide; [|discriminate].
  injection Hadd as <-. unfold int_range. lia.
Qed.

Lemma vdbg_loop_rc `{Platform} hdr file func lineno msg f s s' :
  int_range (fs_rc s) -> vdbg_loop hdr file func lineno msg f s = Done s' -> int_range (fs_rc s').
Proof.
  revert s. induction f as [|f IH]; intros s Hr Hl; cbn [vdbg_loop] in Hl; [discriminate|].
  rewrite bind_outcome in Hl. apply obind_Done_inv in Hl as ([c s1] & Hs & Hl).
  apply (vdbg_step_rc _ _ _ _ _ _ _ _ Hr) in Hs.
  destruct (_ && _); [by apply (IH s1)|by injection Hl as <-].
Qed.

Lemma vdbg_result_range `{Platform} hdr file func lineno msg w rc w' :
  __vdbg hdr file func lineno msg w = Done (rc, w') -> int_range rc.
Proof.
  unfold __vdbg. rewrite bind_outcome. intros Hv. apply obind_Done_inv in Hv as (s & Hl & Hv).
  apply vdbg_loop_rc in Hl; [|unfold vdbg_init, int_range, INT_MIN, INT_MAX; simpl; lia].
  case_decide; [|by injection Hv as <- _].
  rewrite bind_outcome in Hv. apply obind_Done_inv in Hv as (out & _ & Hv).
  destruct (printf (fs_w s) out) as [rc2 w2] eqn:Ep. injection Hv as <- _.
  case_decide; [|done]. rewrite (printf_neg _ _ _ _ Ep) by done. unfold int_range, INT_MIN, INT_MAX. lia.
Qed.

Lemma vdbg_loop_not_oof hdr file func lineno msg f s :
  fs_h s <= length hdr + 1 -> length hdr + 2 <= fs_h s + f ->
  vdbg_loop hdr file func lineno msg f s <> OutOfFuel.
Proof.
  revert s. induction f as [|f IH]; intros s Hh Hf; [lia|].
  cbn [vdbg_loop]. destruct (vdbg_step hdr file func lineno msg s) as [[c s']|u|] eqn:E; ostep;
    [|discriminate|by apply vdbg_step_not_oof in E].
  destruct (vdbg_step_index _ _ _ _ _ _ _ _ E) as [Hrd Hh'].
  apply rd_hdr_bound in Hrd as [Hle Hend].
  destruct (bool_decide (0 <= fs_rc s')%Z && negb (bool_decide (c = NUL))) eqn:Ec; [|discriminate].
  apply andb_true_iff in Ec as [_ Ec]. apply negb_true_iff, bool_decide_eq_false in Ec.
  assert (fs_h s < length hdr).
  { destruct (decide (fs_h s = length hdr)) as [e|]; [by apply Hend in e|lia]. }
  apply IH; rewrite Hh'; case_decide; lia.
Qed.

(** C2: [__vdbg] always finishes: with fuel [length hdr + 2] its loop
    never runs out, whatever the template, message and platform. *)
Theorem vdbg_terminates hdr file func lineno msg w :
  __vdbg hdr file func lineno msg w <> OutOfFuel.
Proof.
  unfold __vdbg. rewrite bind_outcome. apply obind_not_oof.
  - apply vdbg_loop_not_oof; simpl; unfold vdbg_fuel; lia.
  - intros s _. case_decide; [|discriminate]. rewrite bind_outcome.
    apply obind_not_oof; [apply read_cstr_not_oof|]. intros out _. destruct (printf _ _); discriminate.
Qed.

(** C6: every iteration of the [__vdbg] loop keeps the cursor invariant
    of the bounded buffer: [p + remaining = sizeof(buf)] and
    [remaining >= 0], on every branch, errors included. *)
Theorem vdbg_step_cursor_inv hdr file func lineno msg s c s' :
  (Z.of_nat (fs_p s) + fs_rem s = 256)%Z -> (0 <= fs_rem s)%Z ->
  vdbg_step hdr file func lineno msg s = Done (c, s') ->
  (Z.of_nat (fs_p s') + fs_rem s' = 256)%Z /\ (0 <= fs_rem s')%Z.
Proof.
  intros Hp Hr Hs. unfold vdbg_step in Hs. rewrite bind_outcome in Hs.
  apply obind_Done_inv in Hs as (c0 & _ & Hs). rewrite bind_outcome in Hs.
  apply obind_Done_inv in Hs as ([[[h b] rc2] w] & _ & Hs). cbv beta iota in Hs.
  case_decide; [by injection Hs as <- <-|].
  rewrite bind_outcome in Hs. apply obind_Done_inv in Hs as (rc & _ & Hs).
  injection Hs as <- <-. simpl. rewrite MIN_spec. lia.
Qed.

Lemma at_text_init w : at_text [] [] (vdbg_init w).
Proof. split; [done|]. split; [apply buf_inv_init|done]. Qed.

(** A run of [__vdbg] on a safe template, whatever the final write does. *)
Lemma vdbg_run hdr file func lineno m w ps w1 :
  hdr_pieces file func lineno hdr w = Some (ps, w1) ->
  pieces_safe 0 ps = true -> nul_free m ->
  (Z.of_nat (length (pieces_text ps ++ m)) <= INT_MAX)%Z ->
  __vdbg hdr file func lineno (Rendered m) w =
    let '(rc2, w2) := printf w1 (take 255 (pieces_text ps ++ m)) in
    Done (if decide (rc2 < 0)%Z then rc2 else Z.of_nat (length (pieces_text ps ++ m)), w2).
Proof.
  intros Hps Hsafe Hm Hmax.
  destruct (vdbg_walk hdr file func lineno (Rendered m) (length hdr) hdr [] [] (vdbg_init w) ps w1)
    as (k & s_end & Hk & Hrd & Hinv & Hrc & Hw & Hloop);
    try done; [apply at_text_init|rewrite length_app in Hmax; simpl; lia|].
  destruct (vdbg_finish hdr file func lineno (S (length hdr - k)) s_end (pieces_text ps) m)
    as (s' & Hfin & Hrc' & Hw' & Hread); try done.
  { by eapply (hdr_pieces_nul_free file func lineno (length hdr)). }
  unfold __vdbg, vdbg_fuel. replace (length hdr + 2) with (k + S (S (length hdr - k))) by lia.
  rewrite Hloop, Hfin. ostep. rewrite decide_True by lia. rewrite Hread. ostep.
  by rewrite Hw', Hw, Hrc'.
Qed.

Lemma vdbg_safe_run hdr file func lineno m w ps w1 :
  hdr_pieces file func lineno hdr w = Some (ps, w1) ->
  pieces_safe 0 ps = true -> nul_free m ->
  (Z.of_nat (length (pieces_text ps ++ m)) <= INT_MAX)%Z ->
  stdout_fails (w_writes w1) = false ->
  __vdbg hdr file func lineno (Rendered m) w =
    Done (Z.of_nat (length (pieces_text ps ++ m)),
          mk_world (w_out w1 ++ [take 255 (pieces_text ps ++ m)]) (S (w_writes w1)) (w_ticks w1)).
Proof.
  intros Hps Hsafe Hm Hmax Hok. rewrite (vdbg_run _ _ _ _ _ _ _ _ Hps Hsafe Hm Hmax).
  unfold printf. rewrite Hok. by rewrite decide_False by lia.
Qed.

(** C1: when no literal of the template lands where [remaining] is 1 or 2
    and no [%%] where it is 0 or 1 ([pieces_safe]), [__vdbg] returns the
    logical length of the unbounded rendering (header pieces followed by
    the message) and prints, in one write, exactly its first 255
    characters. *)
Theorem vdbg_prints_prefix hdr file func lineno m w ps w1 :
  hdr_pieces file func lineno hdr w = Some (ps, w1) ->
  pieces_safe 0 ps = true -> nul_free m ->
  (Z.of_nat (length (pieces_text ps ++ m)) <= INT_MAX)%Z ->
  stdout_fails (w_writes w1) = false ->
  __vdbg hdr file func lineno (Rendered m) w =
    Done (Z.of_nat (length (pieces_text ps ++ m)),
          mk_world (w_out w1 ++ [take 255 (pieces_text ps ++ m)]) (S (w_writes w1)) (w_ticks w1)).
Proof. apply vdbg_safe_run. Qed.

Lemma pieces_safe_short q ps :
  q + length (pieces_text ps) <= 254 -> pieces_safe q ps = true.
Proof.
  revert q. induction ps as [|pc ps IH]; intros q Hq; [done|].
  change (pieces_text (pc :: ps)) with (piece_text pc ++ pieces_text ps) in Hq.
  rewrite length_app in Hq. simpl. apply andb_true_iff. split; [|apply IH; lia].
  destruct pc; simpl in *; try done; apply bool_decide_eq_true; lia.
Qed.

Lemma hdr_pieces_world file func lineno n : forall t w ps w1,
  length t <= n -> hdr_pieces file func lineno t w = Some (ps, w1) ->
  w_out w1 = w_out w /\ w_writes w1 = w_writes w.
Proof.
  induction n as [|n IH]; intros [|c t] w ps w1 Hn Hps; simpl in *;
    try (injection Hps as <- <-; done); try lia.
  case_decide; [by injection Hps as <- <-|]. case_decide.
  - destruct t as [|sel t]; [discriminate|].
    destruct (directive_piece (directive_of sel) file func lineno w) as [pc w1'] eqn:Hpc.
    destruct (hdr_pieces file func lineno t w1') as [[ps' w2]|] eqn:Hps'; simpl in Hps; [|discriminate].
    injection Hps as <- <-. destruct (directive_piece_world _ _ _ _ _ _ _ Hpc) as [Ho Hw].
    destruct (IH t w1' ps' w2) as [Ho' Hw']; [simpl in Hn; lia|done|]. split; congruence.
  - destruct (hdr_pieces file func lineno t w) as [[ps' w2]|] eqn:Hps'; simpl in Hps; [|discriminate].
    injection Hps as <- <-. apply (IH t w ps' w2); [lia|done].
Qed.

(** C7: a header of at most 254 logical characters followed by a message
    that fits in 255 characters in total is printed verbatim, and its
    length is returned. *)
Theorem vdbg_short_verbatim hdr file func lineno m w ps w1 :
  hdr_pieces file func lineno hdr w = Some (ps, w1) ->
  length (pieces_text ps) <= 254 -> length (pieces_text ps ++ m) <= 255 -> nul_free m ->
  stdout_fails (w_writes w1) = false ->
  __vdbg hdr file func lineno (Rendered m) w =
    Done (Z.of_nat (length (pieces_text ps ++ m)),
          mk_world (w_out w1 ++ [pieces_text ps ++ m]) (S (w_writes w1)) (w_ticks w1)).
Proof.
  intros Hps Hh Hl Hm Hok. rewrite vdbg_safe_run with (ps := ps) (w1 := w1); try done.
  - by rewrite take_ge by lia.
  - by apply pieces_safe_short.
  - unfold INT_MAX. lia.
Qed.

(** C8: when the user message fails to format, [__vdbg] returns [-1] and
    writes nothing to stdout. *)
Theorem vdbg_msg_error hdr file func lineno w ps w1 :
  hdr_pieces file func lineno hdr w = Some (ps, w1) -> pieces_safe 0 ps = true ->
  (Z.of_nat (length (pieces_text ps)) <= INT_MAX)%Z ->
  __vdbg hdr file func lineno FmtError w = Done ((-1)%Z, w1) /\
  w_out w1 = w_out w /\ w_writes w1 = w_writes w.
Proof.
  intros Hps Hsafe Hmax.
  destruct (vdbg_walk hdr file func lineno FmtError (length hdr) hdr [] [] (vdbg_init w) ps w1)
    as (k & s_end & Hk & Hrd & Hinv & Hrc & Hw & Hloop); try done; [apply at_text_init|].
  split; [|by eapply (hdr_pieces_world file func lineno (length hdr))].
  destruct (vdbg_finish_error hdr file func lineno (S (length hdr - k)) s_end _ Hrd Hinv)
    as (s' & Hfin & Hrc' & Hw').
  unfold __vdbg, vdbg_fuel. replace (length hdr + 2) with (k + S (S (length hdr - k))) by lia.
  rewrite Hloop, Hfin. ostep. rewrite decide_False by lia. by rewrite Hrc', Hw', Hw.
Qed.
(** C24: the error of [clock_gettime] is dropped.  When the clock call
    fails, [%T] formats the unspecified contents of the uninitialised
    [now], since [rc] is overwritten by [snprintf]'s result.  [__vdbg]
    prints that text and returns a non-negative length, not an error. *)
Theorem vdbg_clock_error_ignored file func lineno m w :
  clock_monotonic (w_ticks w) = None -> nul_free m ->
  length (fmt_time stale_now ++ m) <= 255 -> stdout_fails (w_writes w) = false ->
  __vdbg ("%T")%cs file func lineno (Rendered m) w =
    Done (Z.of_nat (length (fmt_time stale_now ++ m)),
          mk_world (w_out w ++ [fmt_time stale_now ++ m]) (S (w_writes w)) (S (w_ticks w))).
Proof.
  intros Hc Hm Hlen Hok.
  assert (Hp : hdr_pieces file func lineno ("%T")%cs w =
    Some ([PText (fmt_time stale_now)], mk_world (w_out w) (w_writes w) (S (w_ticks w)))).
  { simpl. unfold clock_gettime. by rewrite Hc. }
  rewrite (vdbg_safe_run _ _ _ _ _ _ _ _ Hp); [|done|done|unfold pieces_text; simpl; rewrite app_nil_r; unfold INT_MAX; lia|done].
  unfold pieces_text. simpl. rewrite app_nil_r, take_ge by lia. done.
Qed.
(** C27: when the final [printf] fails, [__vdbg] returns its [-1]
    instead of the formatted length, and nothing reaches stdout. *)
Theorem vdbg_write_error hdr file func lineno m w ps w1 :
  hdr_pieces file func lineno hdr w = Some (ps, w1) ->
  pieces_safe 0 ps = true -> nul_free m ->
  (Z.of_nat (length (pieces_text ps ++ m)) <= INT_MAX)%Z ->
  stdout_fails (w_writes w1) = true ->
  __vdbg hdr file func lineno (Rendered m) w =
    Done ((-1)%Z, mk_world (w_out w1) (S (w_writes w1)) (w_ticks w1)).
Proof.
  intros Hps Hsafe Hm Hmax Hfail. rewrite (vdbg_run _ _ _ _ _ _ _ _ Hps Hsafe Hm Hmax).
  unfold printf. by rewrite Hfail.
Qed.
(** The text of [%t]: the thread id where [gettid] exists, else nothing. *)
Definition tid_text `{Platform} : cstr := if linux then fmt_d gettid else [].

(** C28: [%t] prints the decimal thread id on a Linux platform.  Elsewhere
    [case 't'] is compiled out, so [%t] falls into the default case and
    prints nothing: [__vdbg("%t", ...)] then prints the message alone. *)
Theorem vdbg_tid_platform file func lineno m w :
  nul_free m -> length (tid_text ++ m) <= 255 -> stdout_fails (w_writes w) = false ->
  __vdbg ("%t")%cs file func lineno (Rendered m) w =
    Done (Z.of_nat (length (tid_text ++ m)),
          mk_world (w_out w ++ [tid_text ++ m]) (S (w_writes w)) (w_ticks w)).
Proof.
  intros Hm Hlen Hok. unfold tid_text in *.
  assert (Hp : hdr_pieces file func lineno ("%t")%cs w =
    Some ([if linux then PText (fmt_d gettid) else PSkip], w)).
  { simpl. unfold directive_of, HAS_GETTID. by destruct linux. }
  assert (Ht : pieces_text [if linux then PText (fmt_d gettid) else PSkip] =
    if linux then fmt_d gettid else []).
  { unfold pieces_text. destruct linux; simpl; by rewrite ?app_nil_r. }
  rewrite (vdbg_safe_run _ _ _ _ _ _ _ _ Hp); rewrite ?Ht; try done.
  - by rewrite take_ge by lia.
  - by destruct linux.
  - unfold INT_MAX. lia.
Qed.
(** C33: [rc += rc2] is [int] arithmetic.  A message whose own length
    fits in an [int] ([vsnprintf] returns it) but which, added to the
    header's length, passes [INT_MAX] makes the addition overflow: the
    call has undefined behaviour instead of returning. *)
Theorem vdbg_rc_overflow hdr file func lineno m w ps w1 :
  hdr_pieces file func lineno hdr w = Some (ps, w1) -> pieces_safe 0 ps = true ->
  (Z.of_nat (length (pieces_text ps)) <= INT_MAX)%Z -> nul_free m ->
  (Z.of_nat (length m) <= INT_MAX)%Z -> (INT_MAX < Z.of_nat (length (pieces_text ps ++ m)))%Z ->
  __vdbg hdr file func lineno (Rendered m) w = Undefined UB_int_overflow.
Proof.
  intros Hps Hsafe Hmax Hm Hm1 Hover.
  destruct (vdbg_walk hdr file func lineno (Rendered m) (length hdr) hdr [] [] (vdbg_init w) ps w1)
    as (k & s_end & Hk & Hrd & Hinv & Hrc & Hw & Hloop); try done; [apply at_text_init|].
  unfold __vdbg, vdbg_fuel. replace (length hdr + 2) with (k + S (S (length hdr - k))) by lia.
  rewrite Hloop, (vdbg_finish_overflow hdr file func lineno _ s_end (pieces_text ps) m); try done.
  by eapply (hdr_pieces_nul_free file func lineno (length hdr)).
Qed.
(** C35: an error of a header directive aborts the call (spec section 7).
    When the text of the directive at the head of the template is longer
    than [INT_MAX] (a file or function name), [snprintf] fails, [rc]
    becomes [-1], the loop stops, and [__vdbg] returns [-1] without
    writing, whatever follows in the template and whatever the message:
    the rest of the template is never read. *)
Theorem vdbg_hdr_error_aborts sel rest file func lineno msg w t :
  directive_piece (directive_of sel) file func lineno w = (PText t, w) ->
  (INT_MAX < Z.of_nat (length t))%Z ->
  __vdbg ("%"%char :: sel :: rest) file func lineno msg w = Done ((-1)%Z, w).
Proof.
  intros Hd Hlen. unfold __vdbg, vdbg_fuel. cbn [length Nat.add vdbg_loop].
  assert (H0 : rd_hdr ("%"%char :: sel :: rest) 0 = Done "%"%char) by reflexivity.
  assert (H1 : rd_hdr ("%"%char :: sel :: rest) 1 = Done sel) by reflexivity.
  unfold vdbg_step. cbn [vdbg_init fs_h]. rewrite H0. ostep.
  rewrite decide_True by done. rewrite dbg_add_hdr_unfold, H1. ostep.
  cbn [vdbg_init fs_w fs_buf fs_p fs_rem fs_h]. rewrite Hd. cbn [write_piece].
  rewrite snprintf_overflow by done. ostep.
  rewrite decide_True by lia. ostep. cbn [fs_rc fs_w].
  rewrite (bool_decide_false (0 <= -1)%Z) by lia. cbn [andb]. ostep. cbn [fs_rc fs_w].
  by rewrite decide_False by lia.
Qed.
(** C3: the [remaining > 2] guard skips the store of a literal but [p]
    still advances over it.  Take any template [t] that renders without
    error to 253 characters, followed by two literals [d] and [c].  [d]
    is stored in [buf[253]].  [c] arrives with [remaining == 2], so it is
    not stored, yet [p] moves to 255.  The message's [vsnprintf] then has
    room for its NUL only, at [buf[255]].  [buf[254]] was never written,
    and [printf] reads it: undefined behaviour, whatever the message. *)
Theorem vdbg_literal_uninit t d c file func lineno m w ps w1 :
  nul_free t -> hdr_pieces file func lineno t w = Some (ps, w1) ->
  length (pieces_text ps) = 253 ->
  d <> NUL -> d <> "%"%char -> c <> NUL -> c <> "%"%char ->
  (Z.of_nat (255 + length m) <= INT_MAX)%Z ->
  __vdbg (t ++ [d; c]) file func lineno (Rendered m) w = Undefined UB_uninit_read.
Proof.
  intros Ht Hps H253 Hd1 Hd2 Hc1 Hc2 Hmax.
  destruct (vdbg_walk_prefix (t ++ [d; c]) file func lineno (Rendered m) (length t) t [d; c] [] []
    (vdbg_init w) ps w1) as (k & s1 & Hk & (Hh & Hinv & Hrc) & Hw & Hloop);
    try done; [apply at_text_init|apply pieces_safe_short; cbn [length]; lia|cbn [app]; unfold INT_MAX; lia|].
  destruct s1 as [h1 b1 p1 r1 rc1 ws]; cbn [app fs_h fs_buf fs_p fs_rem fs_rc fs_w] in *; subst h1 rc1 ws.
  destruct Hinv as (Hlen & -> & [(_ & -> & Htake & Hfresh) | (HL & _)]); [|lia].
  rewrite H253 in Htake, Hfresh, Hloop. cbn in Hfresh.
  unfold __vdbg, vdbg_fuel. replace (length (t ++ [d; c]) + 2) with (k + S (S (S (length t + 1 - k))))
    by (rewrite length_app; simpl; lia).
  rewrite Hloop. cbn [vdbg_loop].
  rewrite (vdbg_step_char _ _ _ _ _ t d [c]) by done. cbn [fs_rem fs_buf fs_p fs_rc fs_h fs_w].
  rewrite decide_True by lia. rewrite store_in by lia. ostep. rewrite int_add_ok by (unfold INT_MIN, INT_MAX; lia). ostep.
  rewrite MIN_spec. cbn [fs_rc]. rewrite bool_decide_true, bool_decide_false by (done || lia). cbn [negb andb].
  replace (253 + Z.to_nat (Z.min 1 (Z.of_nat (256 - 253)))) with 254 by lia.
  replace (Z.of_nat (256 - 253) - Z.min 1 (Z.of_nat (256 - 253)))%Z with 2%Z by lia.
  replace (Z.of_nat 253 + 1)%Z with 254%Z by lia.
  rewrite (vdbg_step_char _ _ _ _ _ (t ++ [d]) c []);
    [|by rewrite <- app_assoc|done|done|rewrite length_app; simpl; lia].
  cbn [fs_rem fs_buf fs_p fs_rc fs_h fs_w]. rewrite decide_False by lia. ostep.
  rewrite int_add_ok by (unfold INT_MIN, INT_MAX; lia). ostep.
  rewrite MIN_spec. cbn [fs_rc]. rewrite bool_decide_true, bool_decide_false by (done || lia). cbn [negb andb].
  replace (254 + Z.to_nat (Z.min 1 2)) with 255 by lia.
  replace (2 - Z.min 1 2)%Z with 1%Z by lia.
  unfold vdbg_step. cbn [fs_h fs_buf fs_p fs_rem fs_rc fs_w].
  replace (S (S (length t))) with (length (t ++ [d; c])) by (rewrite length_app; simpl; lia).
  rewrite rd_hdr_end. ostep. rewrite decide_False by discriminate. rewrite decide_True by done.
  cbn [vsnprintf]. rewrite u64_small by lia.
  rewrite snprintf_one by (rewrite ?length_insert; unfold INT_MAX in *; lia). ostep.
  rewrite decide_False by lia. rewrite int_add_ok by (unfold INT_MIN, INT_MAX in *; lia). ostep.
  rewrite (bool_decide_true (NUL = NUL)), andb_false_r by done. ostep. cbn [fs_rc fs_buf].
  rewrite decide_True by lia.
  rewrite (read_cstr_hole (pieces_text ps ++ [d])); [done| | |].
  - apply nul_free_app. split; [|by repeat constructor].
    exact (hdr_pieces_nul_free file func lineno (length t) t w ps w1 ltac:(done) Hps).
  - rewrite length_app, H253, take_insert by (simpl; lia).
    rewrite Nat.add_1_r, take_S_insert by lia. by rewrite Htake, map_app.
  - rewrite length_app, H253. simpl.
    rewrite !list_lookup_insert_ne by lia.
    by rewrite <- (Nat.add_0_r 254), <- lookup_drop, Hfresh.
Qed.

(** C4: a [%%] directive that comes after the buffer has filled up
    ([remaining == 0], [p == buf + 256]) stores ['%'] one past the end of
    the 256-byte buffer.  This holds for any template whose part before
    the [%%] renders safely to 256 characters or more. *)
Theorem vdbg_pct_overflow t rest file func lineno msg w ps w1 :
  nul_free t -> hdr_pieces file func lineno t w = Some (ps, w1) -> pieces_safe 0 ps = true ->
  256 <= length (pieces_text ps) -> (Z.of_nat (length (pieces_text ps)) <= INT_MAX)%Z ->
  __vdbg (t ++ "%"%char :: "%"%char :: rest) file func lineno msg w = Undefined UB_buf_overflow.
Proof.
  intros Ht Hps Hsafe Hfull Hmax.
  destruct (vdbg_walk_prefix (t ++ "%"%char :: "%"%char :: rest) file func lineno msg (length t) t
    ("%"%char :: "%"%char :: rest) [] [] (vdbg_init w) ps w1)
    as (k & s1 & Hk & (Hh & Hinv & _) & _ & Hloop); try done; [apply at_text_init|].
  destruct Hinv as (Hlen & _ & [(HL & _) | (_ & Hp & _)]); [cbn [app] in HL; lia|].
  unfold __vdbg, vdbg_fuel. replace (length (t ++ "%"%char :: "%"%char :: rest) + 2)
    with (k + S (length t + length rest + 3 - k)) by (rewrite length_app; simpl; lia).
  rewrite Hloop. cbn [vdbg_loop]. unfold vdbg_step. rewrite Hh, rd_hdr_at. ostep.
  rewrite decide_True by done. rewrite dbg_add_hdr_unfold, rd_hdr_sel. ostep.
  cbn [directive_of directive_piece write_piece]. unfold store. rewrite Hp, Hlen, decide_False by lia.
  done.
Qed.

(** C5: a template that ends in a lone [%] makes [__vdbg] read past the
    template's terminating NUL.  [dbg_add_hdr] consumes the NUL as the
    selector, which selects nothing, and the loop goes on past it.  This
    holds whenever the rest of the template renders without error
    before the [%]. *)
Theorem vdbg_lone_percent_overrun t file func lineno msg w ps w1 :
  nul_free t -> hdr_pieces file func lineno t w = Some (ps, w1) -> pieces_safe 0 ps = true ->
  (Z.of_nat (length (pieces_text ps)) <= INT_MAX)%Z ->
  __vdbg (t ++ ["%"%char]) file func lineno msg w = Undefined UB_hdr_overrun.
Proof.
  intros Ht Hps Hsafe Hmax.
  destruct (vdbg_walk_prefix (t ++ ["%"%char]) file func lineno msg (length t) t ["%"%char] [] []
    (vdbg_init w) ps w1) as (k & s1 & Hk & (Hh & Hinv & Hrc) & _ & Hloop); try done; [apply at_text_init|].
  unfold __vdbg, vdbg_fuel. replace (length (t ++ ["%"%char]) + 2)
    with (k + S (S (length t + 1 - k))) by (rewrite length_app; simpl; lia).
  cbn [app] in Hh, Hrc. rewrite Hloop. cbn [vdbg_loop]. unfold vdbg_step. rewrite Hh, rd_hdr_at. ostep.
  rewrite decide_True by done. rewrite dbg_add_hdr_unfold.
  replace (S (length t)) with (length (t ++ ["%"%char])) by (rewrite length_app; simpl; lia).
  rewrite rd_hdr_end. ostep. change (directive_of NUL) with Dir_default. cbn [directive_piece write_piece]. ostep.
  rewrite decide_False by lia. rewrite int_add_ok by (rewrite Hrc; unfold INT_MIN; lia). ostep.
  cbn [fs_rc fs_h]. rewrite bool_decide_true, bool_decide_false by (done || (rewrite Hrc; lia)). cbn [negb andb fs_h].
  rewrite rd_hdr_past by lia. done.
Qed.
End Theorems.

#[local] Existing Instance demo_platform.

Lemma vdbg_prints_prefix_witness :
  __vdbg ("%f:%l: ")%cs ("src/dbg.c")%cs ("main")%cs 42 (Rendered ("hello")%cs) world0 =
    Done (14%Z, mk_world [("main:42: hello")%cs] 1 0).
Proof.
  rewrite (vdbg_prints_prefix _ _ _ _ _ _
    [PText ("main")%cs; PLit ":"%char; PText ("42")%cs; PLit ":"%char; PLit " "%char] world0).
  - reflexivity.
  - reflexivity.
  - reflexivity.
  - repeat constructor; discriminate.
  - vm_compute. discriminate.
  - reflexivity.
Defined.

(** The default header ["%f:%l: "] in a function named by 251 [f]s, on
    line 7: ["%f:%l"] renders to 253 characters. *)
Lemma vdbg_literal_uninit_witness :
  __vdbg ("%f:%l: ")%cs ("a.c")%cs (repeat "f"%char 251) 7 (Rendered ("x")%cs) world0 =
    Undefined UB_uninit_read.
Proof.
  apply (vdbg_literal_uninit ("%f:%l")%cs ":"%char " "%char _ _ _ _ _
    [PText (repeat "f"%char 251); PLit ":"%char; PText ("7")%cs] world0).
  - repeat constructor; discriminate.
  - reflexivity.
  - reflexivity.
  - discriminate.
  - discriminate.
  - discriminate.
  - discriminate.
  - simpl. unfold INT_MAX. lia.
Defined.

(** ["%f%%"] in a function whose name has 300 characters. *)
Lemma vdbg_pct_overflow_witness :
  __vdbg ("%f%%")%cs ("a.c")%cs (repeat "m"%char 300) 42 (Rendered []) world0 = Undefined UB_buf_overflow.
Proof.
  apply (vdbg_pct_overflow ("%f")%cs [] _ _ _ _ _ [PText (repeat "m"%char 300)] world0).
  - repeat constructor; discriminate.
  - reflexivity.
  - reflexivity.
  - vm_compute. lia.
  - vm_compute. discriminate.
Defined.

Lemma vdbg_lone_percent_overrun_witness :
  __vdbg ("%f:%")%cs ("src/dbg.c")%cs ("main")%cs 42 (Rendered ("x")%cs) world0 = Undefined UB_hdr_overrun.
Proof.
  apply (vdbg_lone_percent_overrun ("%f:")%cs _ _ _ _ _ [PText ("main")%cs; PLit ":"%char] world0).
  - repeat constructor; discriminate.
  - reflexivity.
  - reflexivity.
  - vm_compute. discriminate.
Defined.

Lemma vdbg_step_cursor_inv_witness :
  exists c s', vdbg_step ("ab")%cs ("a.c")%cs ("main")%cs 1 (Rendered []) (vdbg_init world0) = Done (c, s') /\
    (Z.of_nat (fs_p s') + fs_rem s' = 256)%Z /\ (0 <= fs_rem s')%Z.
Proof.
  eexists _, _. split; [reflexivity|].
  eapply (vdbg_step_cursor_inv ("ab")%cs ("a.c")%cs ("main")%cs 1 (Rendered []) (vdbg_init world0));
    [reflexivity|simpl; lia|reflexivity].
Defined.

Lemma vdbg_short_verbatim_witness :
  __vdbg ("%f:%l: ")%cs ("src/dbg.c")%cs ("main")%cs 42 (Rendered ("hello")%cs) world0 =
    Done (14%Z, mk_world [("main:42: hello")%cs] 1 0).
Proof.
  rewrite (vdbg_short_verbatim _ _ _ _ _ _
    [PText ("main")%cs; PLit ":"%char; PText ("42")%cs; PLit ":"%char; PLit " "%char] world0).
  - reflexivity.
  - reflexivity.
  - simpl. lia.
  - simpl. lia.
  - repeat constructor; discriminate.
  - reflexivity.
Defined.

Lemma vdbg_msg_error_witness :
  __vdbg ("%f:%l: ")%cs ("src/dbg.c")%cs ("main")%cs 42 FmtError world0 = Done ((-1)%Z, world0).
Proof.
  apply (vdbg_msg_error _ _ _ _ _
    [PText ("main")%cs; PLit ":"%char; PText ("42")%cs; PLit ":"%char; PLit " "%char] world0).
  - reflexivity.
  - reflexivity.
  - vm_compute. discriminate.
Defined.

Section ClockWitness.
#[local] Existing Instance demo_platform_noclock.

(** Without a clock, [%T] prints the stale [1234.005678]. *)
Lemma vdbg_clock_error_ignored_witness :
  __vdbg ("%T")%cs ("a.c")%cs ("main")%cs 1 (Rendered (" x")%cs) world0 =
    Done (13%Z, mk_world [("1234.005678 x")%cs] 1 1).
Proof.
  rewrite (vdbg_clock_error_ignored ("a.c")%cs ("main")%cs 1 (" x")%cs world0).
  - reflexivity.
  - reflexivity.
  - repeat constructor; discriminate.
  - vm_compute. lia.
  - reflexivity.
Defined.
End ClockWitness.

Section WriteErrorWitness.
#[local] Existing Instance demo_platform_failing.

(** The first write fails: [dbg]'s line is lost and [-1] returned. *)
Lemma vdbg_write_error_witness :
  @__vdbg (demo_platform_failing 0) ("%f: ")%cs ("a.c")%cs ("main")%cs 1 (Rendered ("x")%cs) world0 =
    Done ((-1)%Z, mk_world [] 1 0).
Proof.
  apply (@vdbg_write_error (demo_platform_failing 0) _ _ _ _ _ _
    [PText ("main")%cs; PLit ":"%char; PLit " "%char] world0).
  - reflexivity.
  - reflexivity.
  - repeat constructor; discriminate.
  - vm_compute. discriminate.
  - reflexivity.
Defined.
End WriteErrorWitness.

Section TidWitness.
#[local] Existing Instance demo_platform_bsd.

(** Without [__linux__], ["%t x"] prints [" x"]. *)
Lemma vdbg_tid_platform_witness :
  __vdbg ("%t")%cs ("a.c")%cs ("main")%cs 1 (Rendered (" x")%cs) world0 =
    Done (2%Z, mk_world [(" x")%cs] 1 0).
Proof.
  rewrite (vdbg_tid_platform ("a.c")%cs ("main")%cs 1 (" x")%cs world0).
  - reflexivity.
  - repeat constructor; discriminate.
  - vm_compute. lia.
  - reflexivity.
Defined.
End TidWitness.

Section OverflowWitness.
#[local] Existing Instance demo_platform.

(** One literal and a message of [INT_MAX] characters: [1 + INT_MAX]. *)
Lemma vdbg_rc_overflow_witness :
  __vdbg ("x")%cs ("a.c")%cs ("main")%cs 1 (Rendered (repeat "a"%char (Z.to_nat INT_MAX))) world0 =
    Undefined UB_int_overflow.
Proof.
  apply (vdbg_rc_overflow _ _ _ _ _ _ [PLit "x"%char] world0).
  - reflexivity.
  - reflexivity.
  - simpl. unfold INT_MAX. lia.
  - apply Forall_forall. intros c Hc. apply list_elem_of_In, repeat_spec in Hc as ->. discriminate.
  - rewrite repeat_length. unfold INT_MAX. lia.
  - rewrite length_app, repeat_length. simpl. unfold INT_MAX. lia.
Defined.
End OverflowWitness.

Section HdrErrorWitness.
#[local] Existing Instance demo_platform.

(** [%F] with a file name of [INT_MAX + 1] characters, followed by a
    lone [%] that would otherwise be read past the template's end. *)
Lemma vdbg_hdr_error_aborts_witness :
  __vdbg ("%F%")%cs (repeat "a"%char (Z.to_nat INT_MAX + 1)) ("main")%cs 1 (Rendered []) world0 =
    Done ((-1)%Z, world0).
Proof.
  apply (vdbg_hdr_error_aborts "F"%char ("%")%cs _ _ _ _ _ (repeat "a"%char (Z.to_nat INT_MAX + 1))).
  - cbn [directive_of directive_piece]. rewrite c_str_repeat by discriminate. reflexivity.
  - rewrite repeat_length, Nat2Z.inj_add, (Z2Nat.id INT_MAX); [lia|unfold INT_MAX; lia].
Defined.
End HdrErrorWitness.
