(* ===== verification/Hex.v ===== *)
(** * Hex: [__vdbg_hex], the contiguous byte dumper (src/dbg.c 172-227)

    [__vdbg_hex] prints the caption through [__vdbg] and ignores its
    result.  It then renders [(size + 15) / 16] rows.  Each row goes into a
    fresh 256-byte stack buffer [out_buf]: first ["%02x: "] of the row
    number [i], then each byte as ["%02x"], with a [" "] before every byte
    but the first.  The row is written with [printf("%s%s", out_buf, EOL)].

    The C types are kept.  [i] is an [unsigned] counter, so [i++] wraps at
    2^32.  The row count [(size + N_ROW_ITEMS - 1) / N_ROW_ITEMS] is
    computed in [size_t].  The byte index [i * N_ROW_ITEMS + j] is
    [unsigned] arithmetic, and [remaining] is a [size_t].  Each loop is a
    fuel-bounded [Fixpoint] that tests the C loop condition.  An early
    [return rc] is the value [Some rc] in the loop's result.

    The theorems cover buffers under 2^32 bytes:
    - the refinement of the loops by the row texts [hex_lines]
      ([vdbg_hex_refines]);
    - the number of rows written;
    - abort on the first failed write.
    Past 2^32 bytes, the byte index wraps ([hex_row_index_wraps]), and past
    2^32 rows the row loop never completes ([hex_rows_never_complete]). *)

From S2P Require Import Prelude CLib AddHdr Vdbg.

(** [#define N_ROW_ITEMS 16u] *)
Definition N_ROW_ITEMS : Z := 16.
(** [#define EOL "\r\n"] (dbg.c 11-15: the [#if 1] branch). *)
Definition EOL : cstr := [Ascii.ascii_of_nat 13; Ascii.ascii_of_nat 10].
(** [sizeof(out_buf)] *)
Definition ROW_BUF : nat := 256.

(** [((unsigned char * )in_buf)[k]]; reading past the caller's bytes is
    undefined. *)
Definition rd_byte (inbuf : list byte) (k : Z) : outcome byte :=
  match inbuf !! Z.to_nat k with Some x => Done x | None => Undefined UB_input_overrun end.

(** ["%02x"] of an [unsigned char] or an [unsigned]. *)
Definition fmt_02x_byte (x : byte) : cstr := fmt_02x (Byte.to_N x).
Definition fmt_02x_z (z : Z) : cstr := fmt_02x (Z.to_N z).

(** The locals of one row: [out_buf], [p - out_buf], [remaining]. *)
Record rowbuf := mk_rowbuf { rb_buf : cells; rb_p : nat; rb_rem : Z }.

(** [p += rc; remaining -= rc;] with [remaining] a [size_t]. *)
Definition rb_advance (r : rowbuf) (b : cells) (rc : Z) : rowbuf :=
  mk_rowbuf b (rb_p r + Z.to_nat rc) (u64 (rb_rem r - rc)).

Section Hex.
Context `{Platform}.
Variables (inbuf : list byte) (size : Z).

(** [for (j = 0; j < n_cols; j++) { rc = snprintf(p, remaining, "%s%02x",
    sep, in_buf[i * N_ROW_ITEMS + j]); if (rc < 0) return rc; p += rc;
    remaining -= rc; sep = " "; }] *)
Fixpoint hex_cols (fuel : nat) (i j n_cols : Z) (sep : cstr) (r : rowbuf)
    : outcome (option Z * rowbuf) :=
  match fuel with
  | O => OutOfFuel
  | S fuel' =>
      if decide (j < n_cols)%Z then
        x ← rd_byte inbuf (u32 (u32 (i * N_ROW_ITEMS) + j));
        '(b, rc) ← snprintf (rb_buf r) (rb_p r) (rb_rem r) (sep ++ fmt_02x_byte x);
        if decide (rc < 0)%Z then Done (Some rc, r)
        else hex_cols fuel' i (j + 1) n_cols [" "%char] (rb_advance r b rc)
      else Done (None, r)
  end.

(** The body of the row loop for row [i] (dbg.c 192-223). *)
Definition hex_row (i : Z) (w : world) : outcome (option Z * world) :=
  let r := mk_rowbuf (uninit ROW_BUF) 0 (Z.of_nat ROW_BUF) in
  '(b, rc) ← snprintf (rb_buf r) (rb_p r) (rb_rem r) (fmt_02x_z i ++ [":"%char; " "%char]);
  if decide (rc < 0)%Z then Done (Some rc, w)
  else
    let r := rb_advance r b rc in
    let n_cols := MIN (u64 (size - u32 (i * N_ROW_ITEMS))) N_ROW_ITEMS in
    '(ret, r) ← hex_cols (S (Z.to_nat N_ROW_ITEMS)) i 0 n_cols [] r;
    match ret with
    | Some rc => Done (Some rc, w)
    | None =>
        out ← read_cstr (rb_buf r);
        let '(rc, w') := printf w (out ++ EOL) in
        if decide (rc < 0)%Z then Done (Some rc, w') else Done (None, w')
    end.

(** [(size + N_ROW_ITEMS - 1) / N_ROW_ITEMS] in [size_t]. *)
Definition hex_nrows : Z := u64 (size + N_ROW_ITEMS - 1) / N_ROW_ITEMS.

(** [for (i = 0; i < nrows; i++)], with [i] an [unsigned]. *)
Fixpoint hex_rows (fuel : nat) (i : Z) (w : world) : outcome (option Z * world) :=
  match fuel with
  | O => OutOfFuel
  | S fuel' =>
      if decide (i < hex_nrows)%Z then
        '(ret, w') ← hex_row i w;
        match ret with
        | Some rc => Done (Some rc, w')
        | None => hex_rows fuel' (u32 (i + 1)) w'
        end
      else Done (None, w)
  end.
End Hex.

Section Entry.
Context `{Platform}.

(** [int __vdbg_hex(hdr, file, func, lineno, in_buf, size, fmt, ap)].
    The fuel [nrows + 1] is enough whenever [nrows <= 2^32]. *)
Definition __vdbg_hex (hdr file func : cstr) (lineno : N) (inbuf : list byte) (size : Z)
    (msg : fmt_result) (w : world) : outcome (Z * world) :=
  '(_, w1) ← __vdbg hdr file func lineno msg w;
  '(ret, w2) ← hex_rows inbuf size (S (Z.to_nat (hex_nrows size))) 0 w1;
  match ret with Some rc => Done (rc, w2) | None => Done (0%Z, w2) end.
End Entry.

(** ** Row buffer lemmas *)

Lemma lookup_splice {A} (l k : list A) n m :
  n + length k <= length l -> m < length k -> splice l n k !! (n + m) = k !! m.
Proof.
  intros. unfold splice. rewrite lookup_app_r by (rewrite length_take; lia).
  rewrite length_take, Nat.min_l by lia. replace (n + m - n) with m by lia.
  by apply lookup_app_l.
Qed.

Lemma read_cstr_take b p T :
  take p b = map Some T -> b !! p = Some (Some NUL) -> nul_free T -> read_cstr b = Done T.
Proof.
  intros Ht Hp Hn. assert (p = length T) as ->.
  { apply (f_equal length) in Ht. rewrite length_take, length_map in Ht.
    apply lookup_lt_Some in Hp. lia. }
  rewrite <- (take_drop (length T) b), Ht.
  destruct (drop (length T) b) as [|x rest] eqn:E.
  - rewrite <- (Nat.add_0_r (length T)), <- lookup_drop, E in Hp. discriminate.
  - rewrite <- (Nat.add_0_r (length T)), <- lookup_drop, E in Hp. simpl in Hp.
    injection Hp as ->. by apply read_cstr_app.
Qed.

Lemma length_fmt_02x_byte x : length (fmt_02x_byte x) = 2.
Proof.
  unfold fmt_02x_byte. pose proof (Byte.to_N_bounded x).
  pose proof (length_fmt_02x (Byte.to_N x) 2 ltac:(lia) ltac:(simpl; lia)).
  unfold fmt_02x in *. rewrite length_pad0 in *. lia.
Qed.

#[export] Hint Rewrite length_fmt_02x_byte : dbg_rw.

(** The row buffer holds the text [T] before [p], followed by a NUL. *)
Definition row_inv (T : cstr) (r : rowbuf) : Prop :=
  length (rb_buf r) = ROW_BUF /\ rb_p r = length T /\ rb_rem r = Z.of_nat (ROW_BUF - length T) /\
  take (rb_p r) (rb_buf r) = map Some T.

Lemma row_inv_init : row_inv [] (mk_rowbuf (uninit ROW_BUF) 0 (Z.of_nat ROW_BUF)).
Proof. split; [reflexivity|]. split; [reflexivity|]. split; reflexivity. Qed.

Lemma row_write T r s :
  row_inv T r -> length T + length s < ROW_BUF ->
  exists b', snprintf (rb_buf r) (rb_p r) (rb_rem r) s = Done (b', Z.of_nat (length s)) /\
    row_inv (T ++ s) (rb_advance r b' (Z.of_nat (length s))) /\
    b' !! (length T + length s) = Some (Some NUL).
Proof.
  intros (Hlen & Hp & Hrem & Ht) Hs. unfold ROW_BUF in *. rewrite Hrem, Hp.
  rewrite snprintf_spec by (unfold INT_MAX; lia).
  rewrite take_ge with (l := s) by lia.
  eexists; split; [done|]. split; [|].
  - unfold rb_advance, row_inv; simpl. rewrite length_app.
    split; [rewrite length_splice; [done|]; rewrite length_map, length_app; simpl; lia|].
    unfold ROW_BUF. split; [lia|]. split; [rewrite u64_small; lia|].
    rewrite Nat2Z.id, Hp, take_splice by (rewrite ?length_map, ?length_app; simpl; lia).
    rewrite <- Hp, Ht, map_app. f_equal. rewrite take_app_le, take_ge by (rewrite length_map; lia). by rewrite map_app.
  - rewrite lookup_splice by (rewrite ?length_map, ?length_app; simpl; lia).
    rewrite list_lookup_fmap, lookup_app_r, Nat.sub_diag by lia. done.
Qed.

(** The text of a row: [sep] before the first byte, [" "] before the others. *)
Fixpoint sep_bytes (sep : cstr) (bs : list byte) : cstr :=
  match bs with
  | [] => []
  | x :: bs' => sep ++ fmt_02x_byte x ++ sep_bytes [" "%char] bs'
  end.

Definition hex_row_text (i : Z) (bs : list byte) : cstr :=
  fmt_02x_z i ++ [":"%char; " "%char] ++ sep_bytes [] bs.

Lemma length_sep_bytes sep bs : length sep <= 1 -> length (sep_bytes sep bs) <= 3 * length bs.
Proof.
  revert sep. induction bs as [|x bs IH]; intros sep Hs; simpl; [lia|].
  rewrite !length_app, length_fmt_02x_byte. specialize (IH [" "%char] ltac:(simpl; lia)). lia.
Qed.

Lemma nul_free_sep_bytes sep bs : nul_free sep -> nul_free (sep_bytes sep bs).
Proof.
  revert sep. induction bs as [|x bs IH]; intros sep Hs; simpl; [constructor|].
  apply Forall_app; split; [done|]. apply Forall_app; split.
  - apply pad0_nul_free, utoa_nul_free. lia.
  - apply IH. repeat constructor. discriminate.
Qed.

Section Cols.
Context `{Platform}.
Variables (inbuf : list byte) (i n_cols : Z).
Hypothesis Hi : (0 <= i)%Z.
Hypothesis Hrow : (16 * i + n_cols <= Z.of_nat (length inbuf))%Z.
Hypothesis Hsize : (Z.of_nat (length inbuf) < 2 ^ 32)%Z.

Lemma hex_cols_ok k : forall j sep r T fuel,
  Z.to_nat (n_cols - j) = k -> k < fuel -> (0 <= j <= n_cols)%Z -> length sep <= 1 ->
  nul_free sep -> row_inv T r -> rb_buf r !! rb_p r = Some (Some NUL) ->
  length T + 3 * k < ROW_BUF ->
  exists r', hex_cols inbuf fuel i j n_cols sep r = Done (None, r') /\
    row_inv (T ++ sep_bytes sep (take k (drop (Z.to_nat (16 * i + j)) inbuf))) r' /\
    rb_buf r' !! rb_p r' = Some (Some NUL).
Proof.
  induction k as [|k IH]; intros j sep r T [|fuel] Hk Hf Hj Hsep Hnsep Hinv Hnul Hlen; try lia.
  - cbn [hex_cols]. rewrite decide_False by lia. exists r. rewrite take_0, app_nil_r. done.
  - cbn [hex_cols]. rewrite decide_True by lia.
    assert (Hidx : u32 (u32 (i * N_ROW_ITEMS) + j) = (16 * i + j)%Z).
    { unfold N_ROW_ITEMS. rewrite (u32_small (i * 16)), u32_small; lia. }
    destruct (lookup_lt_is_Some_2 inbuf (Z.to_nat (16 * i + j))) as [x Hx]; [lia|].
    unfold rd_byte. rewrite Hidx, Hx. ostep.
    destruct (row_write T r (sep ++ fmt_02x_byte x)) as (b' & Hw & Hinv' & Hnul');
      [done|rewrite length_app, length_fmt_02x_byte; unfold ROW_BUF in *; lia|].
    rewrite Hw. ostep. rewrite decide_False by lia.
    destruct (IH (j + 1)%Z [" "%char] (rb_advance r b' (Z.of_nat (length (sep ++ fmt_02x_byte x))))
      (T ++ sep ++ fmt_02x_byte x) fuel) as (r' & Hc & Hinv'' & Hnul'');
      [lia|lia|lia|simpl; lia|repeat constructor; discriminate|done| |
       rewrite !length_app, length_fmt_02x_byte; lia|].
    { unfold rb_advance; simpl. destruct Hinv as (_ & -> & _). rewrite Nat2Z.id. exact Hnul'. }
    exists r'. split; [exact Hc|]. split; [|done].
    rewrite (drop_S _ x) by done. simpl.
    replace (Z.to_nat (16 * i + (j + 1))) with (S (Z.to_nat (16 * i + j))) in Hinv'' by lia.
    by rewrite <- !app_assoc in *.
Qed.
End Cols.

Section Platformed.
Context `{Platform}.

(** Writing lines one [printf] at a time, stopping at the first failure. *)
Fixpoint emit_lines (ls : list cstr) (w : world) : option Z * world :=
  match ls with
  | [] => (None, w)
  | l :: ls' =>
      let '(rc, w') := printf w l in
      if decide (rc < 0)%Z then (Some rc, w') else emit_lines ls' w'
  end.
End Platformed.

Definition row_bytes (inbuf : list byte) (i : nat) : list byte := take 16 (drop (16 * i) inbuf).

Fixpoint hex_lines (inbuf : list byte) (n i : nat) : list cstr :=
  match n with
  | O => []
  | S n' => (hex_row_text (Z.of_nat i) (row_bytes inbuf i) ++ EOL) :: hex_lines inbuf n' (S i)
  end.

Definition nrows (inbuf : list byte) : nat := (length inbuf + 15) / 16.

Lemma take_min_drop {A} (l : list A) n :
  n <= length l -> take (Z.to_nat (Z.min (Z.of_nat (length l) - Z.of_nat n) 16)) (drop n l) = take 16 (drop n l).
Proof.
  intros Hn. destruct (decide (16 <= length l - n)).
  - f_equal. lia.
  - rewrite !take_ge; try reflexivity; rewrite length_drop; lia.
Qed.

Section Rows.
Context `{Platform}.
Variables (inbuf : list byte).
Hypothesis Hsize : (Z.of_nat (length inbuf) < 2 ^ 32)%Z.

Lemma hex_row_ok i w :
  16 * i < length inbuf ->
  hex_row inbuf (Z.of_nat (length inbuf)) (Z.of_nat i) w =
    let '(rc, w') := printf w (hex_row_text (Z.of_nat i) (row_bytes inbuf i) ++ EOL) in
    Done (if decide (rc < 0)%Z then Some rc else None, w').
Proof.
  intros Hi. unfold hex_row. cbn [rb_buf rb_p rb_rem].
  set (s0 := fmt_02x_z (Z.of_nat i) ++ [":"%char; " "%char]).
  assert (Hs0 : length s0 <= 9).
  { unfold s0, fmt_02x_z. rewrite length_app.
    pose proof (length_fmt_02x (Z.to_N (Z.of_nat i)) 7 ltac:(lia) ltac:(simpl; lia)).
    cbn [length]. lia. }
  destruct (row_write [] (mk_rowbuf (uninit ROW_BUF) 0 (Z.of_nat ROW_BUF)) s0 row_inv_init)
    as (b0 & Hw0 & Hinv0 & Hnul0); [simpl; unfold ROW_BUF; lia|].
  cbn [rb_buf rb_p rb_rem] in Hw0. rewrite Hw0. ostep. rewrite decide_False by lia.
  assert (Hn : MIN (u64 (Z.of_nat (length inbuf) - u32 (Z.of_nat i * N_ROW_ITEMS))) N_ROW_ITEMS
               = Z.min (Z.of_nat (length inbuf) - Z.of_nat (16 * i)) 16).
  { unfold N_ROW_ITEMS. rewrite MIN_spec, (u32_small (Z.of_nat i * 16)), u64_small; lia. }
  rewrite Hn.
  destruct (hex_cols_ok inbuf (Z.of_nat i) (Z.min (Z.of_nat (length inbuf) - Z.of_nat (16 * i)) 16)
    ltac:(lia) ltac:(lia) Hsize _ 0 []
    (rb_advance (mk_rowbuf (uninit ROW_BUF) 0 (Z.of_nat ROW_BUF)) b0 (Z.of_nat (length s0)))
    s0 (S (Z.to_nat N_ROW_ITEMS)) eq_refl)
    as (r' & Hc & Hinv' & Hnul');
    [unfold N_ROW_ITEMS; lia|lia|simpl; lia|constructor|done| |simpl; unfold ROW_BUF; lia|].
  { unfold rb_advance; simpl. rewrite Nat2Z.id. exact Hnul0. }
  rewrite Hc. ostep.
  destruct Hinv' as (_ & Hp' & _ & Ht').
  rewrite (read_cstr_take _ _ _ Ht' Hnul').
  2: { apply Forall_app. split; [apply Forall_app; split; [apply pad0_nul_free, utoa_nul_free; lia|repeat constructor; discriminate]|].
       apply nul_free_sep_bytes. constructor. }
  ostep. unfold hex_row_text, row_bytes.
  replace (Z.to_nat (16 * Z.of_nat i + 0)) with (16 * i) by lia.
  replace (Z.to_nat ((Z.of_nat (length inbuf) - Z.of_nat (16 * i)) `min` 16 - 0))
    with (Z.to_nat ((Z.of_nat (length inbuf) - Z.of_nat (16 * i)) `min` 16)) by lia.
  rewrite take_min_drop by lia.
  unfold s0. rewrite <- !app_assoc. destruct (printf w _). by case_decide.
Qed.
End Rows.

Section Loop.
Context `{Platform}.
Variables (inbuf : list byte).
Hypothesis Hsize : (Z.of_nat (length inbuf) < 2 ^ 32)%Z.

Lemma hex_nrows_nat : hex_nrows (Z.of_nat (length inbuf)) = Z.of_nat (nrows inbuf).
Proof.
  unfold hex_nrows, nrows, N_ROW_ITEMS. rewrite u64_small by lia.
  rewrite Nat2Z.inj_div. f_equal. lia.
Qed.

Lemma hex_rows_ok n : forall i w fuel,
  i + n = nrows inbuf -> n < fuel ->
  hex_rows inbuf (Z.of_nat (length inbuf)) fuel (Z.of_nat i) w = Done (emit_lines (hex_lines inbuf n i) w).
Proof.
  induction n as [|n IH]; intros i w [|fuel] Hn Hf; try lia; cbn [hex_rows hex_lines emit_lines];
    rewrite hex_nrows_nat.
  - by rewrite decide_False by lia.
  - rewrite decide_True by lia.
    assert (16 * i < length inbuf).
    { pose proof (Nat.Div0.mul_div_le (length inbuf + 15) 16). unfold nrows in Hn. lia. }
    rewrite hex_row_ok by done. destruct (printf w _) as [rc w'].
    ostep. case_decide; [done|].
    rewrite u32_small by (unfold nrows in Hn; pose proof (Nat.Div0.mul_div_le (length inbuf + 15) 16); lia).
    replace (Z.of_nat i + 1)%Z with (Z.of_nat (S i)) by lia. apply IH; lia.
Qed.
End Loop.

Section Refinement.
Context `{Platform}.

Lemma hex_dump_run hdr file func lineno inbuf msg w rc0 w1 :
  (Z.of_nat (length inbuf) < 2 ^ 32)%Z ->
  __vdbg hdr file func lineno msg w = Done (rc0, w1) ->
  __vdbg_hex hdr file func lineno inbuf (Z.of_nat (length inbuf)) msg w =
    let '(ret, w2) := emit_lines (hex_lines inbuf (nrows inbuf) 0) w1 in
    Done (match ret with Some rc => rc | None => 0%Z end, w2).
Proof.
  intros Hs Hv. unfold __vdbg_hex. rewrite Hv. ostep.
  rewrite hex_nrows_nat by done. rewrite Nat2Z.id.
  rewrite (hex_rows_ok inbuf Hs (nrows inbuf) 0) by lia. ostep.
  by destruct (emit_lines _ _) as [[rc|] w2].
Qed.

(** C11: for a buffer shorter than 2^32 bytes, [__vdbg_hex] prints the
    caption with [__vdbg], then writes the rows [hex_lines] (row [i] is
    ["%02x: "] of [i], the bytes [16i .. 16i+15] as ["%02x"] separated by
    spaces, and ["\r\n"]) one [printf] each, stopping at the first failed
    write and returning its result, or returning 0. *)
Theorem vdbg_hex_refines hdr file func lineno inbuf msg w rc0 w1 :
  (Z.of_nat (length inbuf) < 2 ^ 32)%Z ->
  __vdbg hdr file func lineno msg w = Done (rc0, w1) ->
  __vdbg_hex hdr file func lineno inbuf (Z.of_nat (length inbuf)) msg w =
    let '(ret, w2) := emit_lines (hex_lines inbuf (nrows inbuf) 0) w1 in
    Done (match ret with Some rc => rc | None => 0%Z end, w2).
Proof. apply hex_dump_run. Qed.
End Refinement.

Section Corollaries.
Context `{Platform}.

Lemma length_hex_lines inbuf n i : length (hex_lines inbuf n i) = n.
Proof. revert i. induction n; intros i; simpl; [done|]. by rewrite IHn. Qed.

Lemma emit_lines_ok ls w :
  (forall k, w_writes w <= k -> stdout_fails k = false) ->
  emit_lines ls w = (None, mk_world (w_out w ++ ls) (w_writes w + length ls) (w_ticks w)).
Proof.
  revert w. induction ls as [|l ls IH]; intros w Hok; simpl.
  - by rewrite app_nil_r, Nat.add_0_r; destruct w.
  - unfold printf. rewrite Hok by lia. rewrite decide_False by lia.
    rewrite IH by (simpl; intros; apply Hok; lia). simpl.
    by rewrite <- app_assoc, Nat.add_succ_r.
Qed.

Lemma emit_lines_fail ls w k :
  k < length ls -> stdout_fails (w_writes w + k) = true ->
  (forall j, j < k -> stdout_fails (w_writes w + j) = false) ->
  emit_lines ls w = (Some (-1)%Z, mk_world (w_out w ++ take k ls) (w_writes w + S k) (w_ticks w)).
Proof.
  revert w k. induction ls as [|l ls IH]; intros w k Hk Hf Hok; simpl in *; [lia|].
  unfold printf. destruct k as [|k].
  - rewrite Nat.add_0_r in Hf. rewrite Hf, decide_True by lia. simpl.
    by rewrite app_nil_r, Nat.add_1_r.
  - assert (H0 := Hok 0 ltac:(lia)). rewrite Nat.add_0_r in H0. rewrite H0, decide_False by lia.
    rewrite (IH _ k); simpl; [|lia|by rewrite <- Nat.add_succ_r|intros j Hj; rewrite <- Nat.add_succ_r; apply Hok; lia].
    rewrite <- app_assoc. simpl. do 2 f_equal. lia.
Qed.

(** C12: when every write succeeds, [__vdbg_hex] returns 0 and stdout
    receives the caption followed by exactly [ceil(size / 16)] rows. *)
Theorem vdbg_hex_output hdr file func lineno inbuf msg w rc0 w1 :
  (Z.of_nat (length inbuf) < 2 ^ 32)%Z ->
  __vdbg hdr file func lineno msg w = Done (rc0, w1) ->
  (forall k, w_writes w1 <= k -> stdout_fails k = false) ->
  __vdbg_hex hdr file func lineno inbuf (Z.of_nat (length inbuf)) msg w =
    Done (0%Z, mk_world (w_out w1 ++ hex_lines inbuf (nrows inbuf) 0)
                        (w_writes w1 + nrows inbuf) (w_ticks w1)).
Proof.
  intros Hs Hv Hok. rewrite (hex_dump_run _ _ _ _ _ _ _ _ _ Hs Hv).
  by rewrite emit_lines_ok, length_hex_lines.
Qed.

(** C13: when the write of row [k] fails, [__vdbg_hex] returns [-1]
    with only rows [0 .. k-1] written and no later write attempted. *)
Theorem vdbg_hex_write_error hdr file func lineno inbuf msg w rc0 w1 k :
  (Z.of_nat (length inbuf) < 2 ^ 32)%Z ->
  __vdbg hdr file func lineno msg w = Done (rc0, w1) ->
  k < nrows inbuf -> stdout_fails (w_writes w1 + k) = true ->
  (forall j, j < k -> stdout_fails (w_writes w1 + j) = false) ->
  __vdbg_hex hdr file func lineno inbuf (Z.of_nat (length inbuf)) msg w =
    Done ((-1)%Z, mk_world (w_out w1 ++ take k (hex_lines inbuf (nrows inbuf) 0))
                           (w_writes w1 + S k) (w_ticks w1)).
Proof.
  intros Hs Hv Hk Hf Hok. rewrite (hex_dump_run _ _ _ _ _ _ _ _ _ Hs Hv).
  by rewrite (emit_lines_fail _ _ k) by (rewrite ?length_hex_lines; done).
Qed.
End Corollaries.

(** ** The results of the early returns *)

(** Every early [return rc] of [__vdbg_hex] returns [-1]. *)
Lemma hex_cols_result `{Platform} inbuf fuel i j n sep r rc r' :
  hex_cols inbuf fuel i j n sep r = Done (Some rc, r') -> rc = (-1)%Z.
Proof.
  revert j sep r. induction fuel as [|fuel IH]; intros j sep r Hc; cbn [hex_cols] in Hc;
    [discriminate|]. case_decide; [|discriminate].
  oinv Hc as (x & _ & Hc). oinv Hc as ([b rc1] & Hs & Hc).
  case_decide; [|by eapply IH]. injection Hc as <- _.
  by apply (int_result_neg _ (snprintf_result _ _ _ _ _ _ Hs)).
Qed.

Lemma hex_row_result `{Platform} inbuf size i w rc w' :
  hex_row inbuf size i w = Done (Some rc, w') -> rc = (-1)%Z.
Proof.
  unfold hex_row. intros Hr. oinv Hr as ([b rc1] & Hs & Hr).
  case_decide; [injection Hr as <- _; by apply (int_result_neg _ (snprintf_result _ _ _ _ _ _ Hs))|].
  oinv Hr as ([[rc2|] r2] & Hc & Hr); [injection Hr as <- _; by eapply hex_cols_result|].
  oinv Hr as (out & _ & Hr). destruct (printf w _) as [rc3 w3] eqn:Ep.
  case_decide; [injection Hr as <- _; by eapply printf_neg|discriminate].
Qed.

Lemma hex_rows_result `{Platform} inbuf size fuel i w rc w' :
  hex_rows inbuf size fuel i w = Done (Some rc, w') -> rc = (-1)%Z.
Proof.
  revert i w. induction fuel as [|fuel IH]; intros i w Hr; cbn [hex_rows] in Hr; [discriminate|].
  case_decide; [|discriminate]. oinv Hr as ([[rc1|] w1] & Hrow & Hr).
  - injection Hr as <- _. by eapply hex_row_result.
  - by eapply IH.
Qed.

Lemma vdbg_hex_result `{Platform} hdr file func lineno inbuf size msg w rc w' :
  __vdbg_hex hdr file func lineno inbuf size msg w = Done (rc, w') -> rc = (-1)%Z \/ rc = 0%Z.
Proof.
  unfold __vdbg_hex. intros Hv. oinv Hv as ([rc0 w1] & _ & Hv).
  oinv Hv as ([[rc1|] w2] & Hr & Hv); injection Hv as <- _; [left; by eapply hex_rows_result|by right].
Qed.

(** ** Wrap-around of the 32-bit byte index *)

Lemma u32_row_wrap : u32 (2 ^ 28 * N_ROW_ITEMS) = u32 (0 * N_ROW_ITEMS).
Proof. reflexivity. Qed.

(** C22: [i * N_ROW_ITEMS + j] is computed in [unsigned], so for a buffer
    of [2^32] bytes or more the row [2^28] wraps to byte 0: its column
    loop, with the column count [hex_row] computes for it, reads and
    prints exactly the bytes of row 0. *)
Theorem hex_row_index_wraps inbuf size fuel j sep r :
  hex_cols inbuf fuel (2 ^ 28) j (MIN (u64 (size - u32 (2 ^ 28 * N_ROW_ITEMS))) N_ROW_ITEMS) sep r =
  hex_cols inbuf fuel 0 j (MIN (u64 (size - u32 (0 * N_ROW_ITEMS))) N_ROW_ITEMS) sep r.
Proof.
  rewrite u32_row_wrap. revert j sep r.
  induction fuel as [|fuel IH]; intros j sep r; cbn [hex_cols]; [done|].
  rewrite u32_row_wrap. case_decide; [|done].
  apply obind_ext. intros x _. apply obind_ext. intros [b rc] _.
  case_decide; [done|]. apply IH.
Qed.

Lemma u32_range z : (0 <= u32 z < 2 ^ 32)%Z.
Proof. unfold u32. apply Z.mod_pos_bound. lia. Qed.

(** C25: the row counter [i] is an [unsigned] compared with a [size_t]
    row count.  When [size] needs more than 2^32 rows, [i] wraps before
    reaching the count, so the row loop never completes normally, for any
    amount of fuel: it runs until a write fails or a read goes out of
    bounds, or forever. *)
Theorem hex_rows_never_complete `{Platform} inbuf size fuel i w w' :
  (2 ^ 32 < hex_nrows size)%Z -> (0 <= i < 2 ^ 32)%Z ->
  hex_rows inbuf size fuel i w <> Done (None, w').
Proof.
  revert i w. induction fuel as [|fuel IH]; intros i w Hn Hi; cbn [hex_rows]; [discriminate|].
  rewrite decide_True by lia. rewrite bind_outcome.
  destruct (hex_row inbuf size i w) as [[[rc|] w1]| |]; cbn [obind]; try discriminate.
  apply IH; [done|apply u32_range].
Qed.

(** ** Witnesses on concrete inputs *)

(** The seventeen bytes 0, 7, 14, ... (7k mod 256). *)
Definition demo_bytes : list byte :=
  map (fun k => match Byte.of_nat (k * 7 mod 256) with Some b => b | None => Byte.x00 end) (seq 0 17).

Section Witnesses.
#[local] Existing Instance demo_platform.

Lemma vdbg_hex_output_witness :
  __vdbg_hex ("%f: ")%cs ("a.c")%cs ("main")%cs 1 demo_bytes 17 (Rendered ("cap")%cs) world0 =
    Done (0%Z, mk_world
      [("main: cap")%cs;
       ("00: 00 07 0e 15 1c 23 2a 31 38 3f 46 4d 54 5b 62 69")%cs ++ EOL;
       ("01: 70")%cs ++ EOL] 3 0).
Proof.
  change 17%Z with (Z.of_nat (length demo_bytes)).
  rewrite (vdbg_hex_output _ _ _ _ _ _ _ 9%Z (mk_world [("main: cap")%cs] 1 0)).
  - reflexivity.
  - vm_compute. reflexivity.
  - vm_compute. reflexivity.
  - intros k _. reflexivity.
Defined.

Lemma vdbg_hex_refines_witness :
  __vdbg_hex ("%l ")%cs ("a.c")%cs ("main")%cs 7 (take 3 demo_bytes) 3 (Rendered []) world0 =
    Done (0%Z, mk_world [("7 ")%cs; ("00: 00 07 0e")%cs ++ EOL] 2 0).
Proof.
  change 3%Z with (Z.of_nat (length (take 3 demo_bytes))).
  rewrite (vdbg_hex_refines _ _ _ _ _ _ _ 2%Z (mk_world [("7 ")%cs] 1 0)).
  - reflexivity.
  - vm_compute. reflexivity.
  - vm_compute. reflexivity.
Defined.
End Witnesses.

Section ErrorWitness.
#[local] Existing Instance demo_platform_failing.

Lemma vdbg_hex_write_error_witness :
  @__vdbg_hex (demo_platform_failing 2) ("%f: ")%cs ("a.c")%cs ("main")%cs 1 demo_bytes 17
    (Rendered ("cap")%cs) world0 =
    Done ((-1)%Z, mk_world
      [("main: cap")%cs; ("00: 00 07 0e 15 1c 23 2a 31 38 3f 46 4d 54 5b 62 69")%cs ++ EOL] 3 0).
Proof.
  change 17%Z with (Z.of_nat (length demo_bytes)).
  rewrite (@vdbg_hex_write_error (demo_platform_failing 2) _ _ _ _ _ _ _ 9%Z
             (mk_world [("main: cap")%cs] 1 0) 1).
  - reflexivity.
  - vm_compute. reflexivity.
  - vm_compute. reflexivity.
  - vm_compute. lia.
  - reflexivity.
  - intros j Hj. destruct j; [reflexivity|lia].
Defined.
End ErrorWitness.

Lemma hex_rows_never_complete_witness :
  (2 ^ 32 < hex_nrows (2 ^ 37))%Z /\ (0 <= 0 < 2 ^ 32)%Z /\
  @hex_rows demo_platform demo_bytes (2 ^ 37) 5 0 world0 <> Done (None, world0).
Proof.
  split; [vm_compute; reflexivity|]. split; [lia|].
  apply (@hex_rows_never_complete demo_platform); [vm_compute; reflexivity|lia].
Defined.
