(* ===== verification/HexIov.v ===== *)
(** * HexIov: [__vdbg_hex_iov], the scattered byte dumper (src/dbg.c 229-294)

    [__vdbg_hex_iov] prints the caption through [__vdbg], ignoring its
    result, and then walks the [struct iovec] segments byte by byte.  One
    running [unsigned] index [i] spans all segments, and one 256-byte
    [out_buf] is reused for every row.  The dump works as follows:
    - When [i % 16 == 0], ["%02x:"] of [i] (the byte offset) starts a row.
    - Every byte is written as ["%s%02x"] with the current separator
      [sep].  [sep] starts as [" "], is reset to [" "] after each byte,
      and becomes ["*"] after each segment.
    - When [i % 16 == 0] after [i++], the row is written with
      [printf("%s%s", out_buf, EOL)].  The result of that [printf] is
      ignored, and [p] and [remaining] are reset.
    - The function returns the last [rc], the result of the last
      [snprintf], or [rc] itself on an early error return.

    The state of the loops is the record [iov_state].  It holds the row
    buffer, [i], [sep], [rc], and the world.  Each loop is a fuel-bounded
    [Fixpoint], as in [Hex].  The specification describes the dumped stream
    as a list of tokens, each a separator character and a byte
    ([iov_tokens]); [iov_lines] gives the complete rows of that stream. *)

From S2P Require Import Prelude CLib AddHdr Vdbg Hex.

(** [struct iovec { void *iov_base; size_t iov_len; }]: the bytes
    readable at [iov_base] and the declared length. *)
Record iovec := mk_iovec { iov_base : list byte; iov_len : Z }.

(** The locals of [__vdbg_hex_iov] that live across iterations:
    [out_buf], [p], [remaining] (as a [rowbuf]), [i], [sep], [rc], and the
    world. *)
Record iov_state := mk_iov_state {
  is_row : rowbuf; is_i : Z; is_sep : cstr; is_rc : Z; is_w : world }.

(** [vec[j]]; reading past the caller's array is undefined. *)
Definition rd_iovec (vec : list iovec) (j : Z) : outcome iovec :=
  match vec !! Z.to_nat j with Some v => Done v | None => Undefined UB_input_overrun end.

(** [p += rc; remaining -= rc;] after the assignment [rc = snprintf(...)]. *)
Definition iov_advance (s : iov_state) (b : cells) (rc : Z) : iov_state :=
  mk_iov_state (rb_advance (is_row s) b rc) (is_i s) (is_sep s) rc (is_w s).

(** [rc = 0; p = out_buf; remaining = sizeof(out_buf); i = 0; sep = " ";] *)
Definition iov_init (w : world) : iov_state :=
  mk_iov_state (mk_rowbuf (uninit ROW_BUF) 0 (Z.of_nat ROW_BUF)) 0 [" "%char] 0 w.

Section HexIov.
Context `{Platform}.

(** [if ((i % N_ROW_ITEMS) == 0) { rc = snprintf(p, remaining, "%02x:", i);
    if (rc < 0) return rc; p += rc; remaining -= rc; }] *)
Definition iov_prefix (s : iov_state) : outcome (option Z * iov_state) :=
  if decide (is_i s mod N_ROW_ITEMS = 0)%Z then
    '(b, rc) ← snprintf (rb_buf (is_row s)) (rb_p (is_row s)) (rb_rem (is_row s))
                 (fmt_02x_z (is_i s) ++ [":"%char]);
    if decide (rc < 0)%Z then Done (Some rc, s) else Done (None, iov_advance s b rc)
  else Done (None, s).

(** The body of the inner loop for the byte [c] (dbg.c 268-289). *)
Definition iov_byte (c : byte) (s : iov_state) : outcome (option Z * iov_state) :=
  '(ret, s) ← iov_prefix s;
  match ret with
  | Some rc => Done (Some rc, s)
  | None =>
      '(b, rc) ← snprintf (rb_buf (is_row s)) (rb_p (is_row s)) (rb_rem (is_row s))
                   (is_sep s ++ fmt_02x_byte c);
      if decide (rc < 0)%Z then Done (Some rc, s)
      else
        let s := iov_advance s b rc in
        let i := u32 (is_i s + 1) in
        if decide (i mod N_ROW_ITEMS = 0)%Z then
          out ← read_cstr (rb_buf (is_row s));
          let '(_, w) := printf (is_w s) (out ++ EOL) in
          Done (None, mk_iov_state (mk_rowbuf (rb_buf (is_row s)) 0 (Z.of_nat ROW_BUF))
                                   i [" "%char] (is_rc s) w)
        else Done (None, mk_iov_state (is_row s) i [" "%char] (is_rc s) (is_w s))
  end.

(** [for (k = 0; k < vec[j].iov_len; k++)], with [k] an [unsigned]. *)
Fixpoint iov_bytes (fuel : nat) (v : iovec) (k : Z) (s : iov_state)
    : outcome (option Z * iov_state) :=
  match fuel with
  | O => OutOfFuel
  | S fuel' =>
      if decide (k < iov_len v)%Z then
        c ← rd_byte (iov_base v) k;
        '(ret, s) ← iov_byte c s;
        match ret with
        | Some rc => Done (Some rc, s)
        | None => iov_bytes fuel' v (u32 (k + 1)) s
        end
      else Done (None, s)
  end.

(** [for (j = 0; j < iovcnt; j++) { ...; sep = "*"; }], with [j] an
    [unsigned].  The inner loop gets fuel [iov_len + 1]. *)
Fixpoint iov_segs (fuel : nat) (vec : list iovec) (iovcnt j : Z) (s : iov_state)
    : outcome (option Z * iov_state) :=
  match fuel with
  | O => OutOfFuel
  | S fuel' =>
      if decide (j < iovcnt)%Z then
        v ← rd_iovec vec j;
        '(ret, s) ← iov_bytes (S (Z.to_nat (iov_len v))) v 0 s;
        match ret with
        | Some rc => Done (Some rc, s)
        | None =>
            iov_segs fuel' vec iovcnt (u32 (j + 1))
              (mk_iov_state (is_row s) (is_i s) ["*"%char] (is_rc s) (is_w s))
        end
      else Done (None, s)
  end.

(** [int __vdbg_hex_iov(hdr, func, file, lineno, vec, iovcnt, fmt, ap)].
    The definition names its second and third parameters [func, file],
    in that order, and passes them to [__vdbg(hdr, file, func, ...)]. *)
Definition __vdbg_hex_iov (hdr func file : cstr) (lineno : N) (vec : list iovec)
    (iovcnt : Z) (msg : fmt_result) (w : world) : outcome (Z * world) :=
  '(_, w1) ← __vdbg hdr file func lineno msg w;
  '(ret, s) ← iov_segs (S (Z.to_nat iovcnt)) vec iovcnt 0 (iov_init w1);
  match ret with Some rc => Done (rc, is_w s) | None => Done (is_rc s, is_w s) end.
End HexIov.

(** ** Specification: the dumped stream as tokens *)

(** The tokens of one segment whose first byte follows the separator [c]. *)
Fixpoint seg_toks (c : ascii) (bs : list byte) : list (ascii * byte) :=
  match bs with
  | [] => []
  | x :: bs' => (c, x) :: seg_toks " "%char bs'
  end.

(** The whole stream: the first byte of every segment but the first
    follows ["*"]. *)
Fixpoint iov_tokens (first : bool) (segs : list (list byte)) : list (ascii * byte) :=
  match segs with
  | [] => []
  | seg :: segs' => seg_toks (if first then " "%char else "*"%char) seg ++ iov_tokens false segs'
  end.

Definition tok_text (t : ascii * byte) : cstr := t.1 :: fmt_02x_byte t.2.

(** A row starting at byte offset [off]. *)
Definition iov_row_text (off : nat) (ts : list (ascii * byte)) : cstr :=
  fmt_02x_z (Z.of_nat off) ++ [":"%char] ++ concat (map tok_text ts).

(** The [n] complete rows from row [r] on. *)
Fixpoint iov_lines (ts : list (ascii * byte)) (n r : nat) : list cstr :=
  match n with
  | O => []
  | S n' => (iov_row_text (16 * r) (take 16 (drop (16 * r) ts)) ++ EOL) :: iov_lines ts n' (S r)
  end.

Section Emit.
Context `{Platform}.

(** Lines written with [printf], each result ignored. *)
Fixpoint emit_ignore (ls : list cstr) (w : world) : world :=
  match ls with
  | [] => w
  | l :: ls' => emit_ignore ls' (printf w l).2
  end.
End Emit.

(** ** Lemmas on the specification *)

Lemma iov_lines_snoc ts m r :
  iov_lines ts (S m) r = iov_lines ts m r ++
    [iov_row_text (16 * (r + m)) (take 16 (drop (16 * (r + m)) ts)) ++ EOL].
Proof.
  revert r. induction m as [|m IH]; intros r.
  - cbn [iov_lines app]. by rewrite Nat.add_0_r.
  - change (iov_lines ts (S (S m)) r) with
      ((iov_row_text (16 * r) (take 16 (drop (16 * r) ts)) ++ EOL) :: iov_lines ts (S m) (S r)).
    rewrite IH. cbn [iov_lines app]. by replace (S r + m) with (r + S m) by lia.
Qed.

Lemma emit_ignore_app `{Platform} l1 l2 w :
  emit_ignore (l1 ++ l2) w = emit_ignore l2 (emit_ignore l1 w).
Proof. revert w. induction l1 as [|l l1 IH]; intros w; simpl; auto. Qed.

Lemma length_tok_text ts : length (concat (map tok_text ts)) = 3 * length ts.
Proof.
  induction ts as [|t ts IH]; simpl; [done|].
  autorewrite with dbg_rw. cbn [length]. autorewrite with dbg_rw. lia.
Qed.

Lemma nul_free_tok_text ts : Forall (fun t => t.1 <> NUL) ts -> nul_free (concat (map tok_text ts)).
Proof.
  induction 1 as [|t ts Ht _ IH]; simpl; [constructor|].
  constructor; [done|]. apply Forall_app. split; [|done].
  apply pad0_nul_free, utoa_nul_free. lia.
Qed.

Lemma length_fmt_02x_z n : (Z.of_nat n < 2 ^ 32)%Z -> length (fmt_02x_z (Z.of_nat n)) <= 8.
Proof.
  intros. pose proof (length_fmt_02x (Z.to_N (Z.of_nat n)) 8 ltac:(lia) ltac:(simpl; lia)).
  unfold fmt_02x_z. lia.
Qed.

Lemma nul_free_fmt_02x_z z : nul_free (fmt_02x_z z).
Proof. apply pad0_nul_free, utoa_nul_free. lia. Qed.

(** The row index after [i++]: either a row is complete or it grows. *)
Lemma mod16_succ n :
  (S n mod 16 = 0 /\ n mod 16 = 15 /\ S n / 16 = S (n / 16)) \/
  (S n mod 16 = S (n mod 16) /\ S n / 16 = n / 16).
Proof.
  destruct (decide (n mod 16 = 15)); [left|right]; repeat split;
    try done; lia.
Qed.

Lemma length_seg_toks c bs : length (seg_toks c bs) = length bs.
Proof. revert c. induction bs; intros c; simpl; auto. Qed.
#[export] Hint Rewrite length_seg_toks length_tok_text : dbg_rw.

Lemma seg_toks_sep c bs : c <> NUL -> Forall (fun t => t.1 <> NUL) (seg_toks c bs).
Proof.
  revert c. induction bs as [|x bs IH]; intros c Hc; simpl; constructor; [done|].
  apply IH. discriminate.
Qed.

Lemma iov_tokens_sep first segs : Forall (fun t => t.1 <> NUL) (iov_tokens first segs).
Proof.
  revert first. induction segs as [|seg segs IH]; intros first; simpl; [constructor|].
  apply Forall_app. split; [|apply IH]. apply seg_toks_sep. destruct first; discriminate.
Qed.

Lemma drop_cons_lookup {A} (l l' : list A) n x : drop n l = x :: l' -> l !! n = Some x.
Proof. intros E. rewrite <- (Nat.add_0_r n), <- lookup_drop, E. done. Qed.

Lemma drop_cons_drop {A} (l l' : list A) n x : drop n l = x :: l' -> drop (S n) l = l'.
Proof. intros E. rewrite <- Nat.add_1_r, <- drop_drop, E. done. Qed.

(** The data half of the loop body, after the row prefix: ["%s%02x"]
    appends three characters to the partial row [T], [i++], and every
    16th byte the row is printed and [p] and [remaining] reset. *)
Lemma iov_byte_step `{Platform} s s1 T d c :
  iov_prefix s = Done (None, s1) -> row_inv T (is_row s1) -> nul_free T -> d <> NUL ->
  is_sep s1 = [d] -> length T <= 54 ->
  exists b,
    row_inv (T ++ [d] ++ fmt_02x_byte c) (rb_advance (is_row s1) b 3) /\
    b !! (length T + 3) = Some (Some NUL) /\
    iov_byte c s =
      if decide (u32 (is_i s1 + 1) mod N_ROW_ITEMS = 0)%Z then
        Done (None, mk_iov_state (mk_rowbuf b 0 (Z.of_nat ROW_BUF)) (u32 (is_i s1 + 1)) [" "%char] 3
                      (printf (is_w s1) ((T ++ [d] ++ fmt_02x_byte c) ++ EOL)).2)
      else Done (None, mk_iov_state (rb_advance (is_row s1) b 3) (u32 (is_i s1 + 1)) [" "%char] 3
                         (is_w s1)).
Proof.
  intros Hp Hr HT Hd Hs Hl. unfold iov_byte. rewrite Hp. ostep. rewrite Hs.
  assert (H3 : length ([d] ++ fmt_02x_byte c) = 3) by (rewrite length_app, length_fmt_02x_byte; done).
  destruct (row_write T (is_row s1) ([d] ++ fmt_02x_byte c)) as (b & Hw & Hr2 & Hnul);
    [done|rewrite H3; unfold ROW_BUF; lia|].
  rewrite H3 in Hw, Hr2, Hnul. exists b. split; [exact Hr2|]. split; [exact Hnul|].
  rewrite Hw. ostep. rewrite decide_False by lia. cbn [iov_advance is_i is_row is_rc is_w].
  case_decide; [|done].
  destruct Hr2 as (_ & _ & _ & Ht). rewrite (read_cstr_take _ _ _ Ht); [by ostep; destruct printf| |].
  - cbn [rb_advance rb_p]. destruct Hr as (_ & -> & _). exact Hnul.
  - apply Forall_app. split; [done|]. constructor; [done|]. apply pad0_nul_free, utoa_nul_free. lia.
Qed.

(** ** The loops against the specification *)

Section IovRun.
Context `{Platform}.
Variable toks : list (ascii * byte).
Variable w1 : world.
Hypothesis Htoks : (Z.of_nat (length toks) < 2 ^ 32)%Z.
Hypothesis Hsep : Forall (fun t => t.1 <> NUL) toks.

(** The text of the row of byte [n] before byte [n] is written. *)
Definition row_head (n : nat) : cstr :=
  iov_row_text (16 * (n / 16)) (take (n mod 16) (drop (16 * (n / 16)) toks)).

(** After [n] bytes: [i = n], [rc] is the last [snprintf] result, the
    complete rows are written, and [out_buf] holds the partial row. *)
Definition iov_inv (n : nat) (s : iov_state) : Prop :=
  is_i s = Z.of_nat n /\ is_rc s = (if decide (n = 0) then 0%Z else 3%Z) /\
  is_w s = emit_ignore (iov_lines toks (n / 16) 0) w1 /\
  row_inv (if decide (n mod 16 = 0) then [] else row_head n) (is_row s).

Lemma length_row_head n : n <= length toks -> length (row_head n) <= 54.
Proof.
  intros Hn. unfold row_head, iov_row_text. rewrite !length_app, length_tok_text, length_take.
  pose proof (length_fmt_02x_z (16 * (n / 16)) ltac:(lia)). cbn [length]. lia.
Qed.

Lemma nul_free_row_text off k : nul_free (iov_row_text off (take k (drop off toks))).
Proof.
  unfold iov_row_text. apply Forall_app. split; [apply nul_free_fmt_02x_z|].
  constructor; [discriminate|]. apply nul_free_tok_text, Forall_take, Forall_drop, Hsep.
Qed.

Lemma row_head_snoc n c x :
  toks !! n = Some (c, x) ->
  row_head n ++ tok_text (c, x) =
    iov_row_text (16 * (n / 16)) (take (S (n mod 16)) (drop (16 * (n / 16)) toks)).
Proof.
  intros Hn. unfold row_head, iov_row_text.
  rewrite (take_S_r _ _ (c, x)).
  - rewrite map_app, concat_app. simpl. by rewrite app_nil_r, <- !app_assoc.
  - rewrite lookup_drop. by replace (16 * (n / 16) + n mod 16) with n by lia.
Qed.

Lemma iov_prefix_ok n s :
  n < length toks -> iov_inv n s ->
  exists s1, iov_prefix s = Done (None, s1) /\ row_inv (row_head n) (is_row s1) /\
    is_i s1 = is_i s /\ is_sep s1 = is_sep s /\ is_w s1 = is_w s.
Proof.
  intros Hn (Hi & _ & _ & Hr). unfold iov_prefix. rewrite Hi. unfold N_ROW_ITEMS.
  destruct (decide (n mod 16 = 0)) as [E|E].
  - rewrite decide_True by lia.
    pose proof (length_fmt_02x_z n ltac:(lia)).
    destruct (row_write [] (is_row s) (fmt_02x_z (Z.of_nat n) ++ [":"%char]))
      as (b & Hw & Hr' & _); [done|rewrite length_app; simpl; unfold ROW_BUF; lia|].
    rewrite Hw. ostep. rewrite decide_False by lia.
    eexists; split; [reflexivity|]. split; [|done].
    unfold row_head, iov_row_text. rewrite E, take_0.
    replace (16 * (n / 16)) with n by lia. by rewrite app_nil_r.
  - rewrite decide_False by lia. by exists s.
Qed.

Lemma iov_byte_ok n s c x :
  toks !! n = Some (c, x) -> iov_inv n s -> is_sep s = [c] ->
  exists s', iov_byte x s = Done (None, s') /\ iov_inv (S n) s' /\ is_sep s' = [" "%char].
Proof.
  intros Hn Hinv Hs. pose proof (lookup_lt_Some _ _ _ Hn) as Hlt.
  destruct (iov_prefix_ok n s) as (s1 & Hp & Hr1 & Hi1 & Hs1 & Hw1); [lia|done|].
  destruct Hinv as (Hi & _ & Hwo & _).
  destruct (iov_byte_step s s1 (row_head n) c x Hp Hr1) as (b & Hr2 & _ & ->);
    [apply nul_free_row_text|apply (Forall_lookup_1 _ _ _ _ Hsep Hn)|by rewrite Hs1
    |apply length_row_head; lia|].
  rewrite Hi1, Hi, u32_small by lia.
  change ([c] ++ fmt_02x_byte x) with (tok_text (c, x)) in *.
  rewrite row_head_snoc in Hr2 |- * by done.
  unfold N_ROW_ITEMS. destruct (mod16_succ n) as [(E1 & E2 & E3) | (E1 & E2)].
  - rewrite decide_True by lia. destruct (printf _ _) as [rc' w'] eqn:Ep.
    eexists; split; [reflexivity|]. split; [|done].
    unfold iov_inv; cbn [is_i is_rc is_w is_row].
    split; [lia|]. split; [by rewrite decide_False by lia|]. split.
    + rewrite E3, iov_lines_snoc, emit_ignore_app, <- Hwo, <- Hw1. rewrite E2 in Ep.
      cbn [emit_ignore Nat.add]. by rewrite Ep.
    + rewrite decide_True by done. destruct Hr2 as (Hlen & _).
      split; [exact Hlen|]. split; [done|]. split; [done|]. done.
  - rewrite decide_False by lia.
    eexists; split; [reflexivity|]. split; [|done].
    unfold iov_inv; cbn [is_i is_rc is_w is_row].
    split; [lia|]. split; [by rewrite decide_False by lia|]. split.
    + by rewrite E2, <- Hwo, <- Hw1.
    + rewrite decide_False by lia. unfold row_head. rewrite E1, E2. exact Hr2.
Qed.

Lemma iov_bytes_ok v bs : forall k s n c rest fuel,
  iov_len v = Z.of_nat (length (iov_base v)) ->
  (Z.of_nat (length (iov_base v)) < 2 ^ 32)%Z ->
  drop k (iov_base v) = bs -> length bs < fuel ->
  drop n toks = seg_toks c bs ++ rest -> iov_inv n s -> is_sep s = [c] ->
  exists s', iov_bytes fuel v (Z.of_nat k) s = Done (None, s') /\
    iov_inv (n + length bs) s' /\ is_sep s' = (if bs is [] then [c] else [" "%char]).
Proof.
  induction bs as [|x bs IH]; intros k s n c rest [|fuel] Hlen Hb Hk Hf Ht Hinv Hs;
    cbn [length] in Hf; try lia; cbn [iov_bytes].
  - rewrite decide_False; [exists s; by rewrite Nat.add_0_r|].
    apply (f_equal length) in Hk. rewrite length_drop in Hk. simpl in Hk. lia.
  - assert (Hkl : k < length (iov_base v)).
    { apply (f_equal length) in Hk. rewrite length_drop in Hk. simpl in Hk. lia. }
    rewrite decide_True by lia. unfold rd_byte. rewrite Nat2Z.id, (drop_cons_lookup _ _ _ _ Hk).
    ostep. cbn [seg_toks app] in Ht.
    destruct (iov_byte_ok n s c x) as (s1 & Hby & Hinv1 & Hs1);
      [exact (drop_cons_lookup _ _ _ _ Ht)|done|done|].
    rewrite Hby. ostep. rewrite u32_small by lia.
    replace (Z.of_nat k + 1)%Z with (Z.of_nat (S k)) by lia.
    destruct (IH (S k) s1 (S n) " "%char rest fuel) as (s' & Hr & Hinv' & Hs');
      [done|done|exact (drop_cons_drop _ _ _ _ Hk)|lia|exact (drop_cons_drop _ _ _ _ Ht)|done|done|].
    exists s'. split; [done|]. cbn [length].
    split; [by replace (n + S (length bs)) with (S n + length bs) by lia|].
    rewrite Hs'. by destruct bs.
Qed.

Lemma drop_app_prefix {A} (l k rest : list A) n :
  drop n l = k ++ rest -> drop (n + length k) l = rest.
Proof. intros E. by rewrite <- drop_drop, E, drop_app_length. Qed.

Lemma iov_segs_ok vec vs : forall j s n first rest fuel,
  Forall (fun v => iov_len v = Z.of_nat (length (iov_base v))) vec ->
  (Z.of_nat (length vec) < 2 ^ 32)%Z ->
  drop j vec = vs -> length vs < fuel ->
  drop n toks = iov_tokens first (map iov_base vs) ++ rest ->
  iov_inv n s -> is_sep s = [if first then " "%char else "*"%char] ->
  exists s', iov_segs fuel vec (Z.of_nat (length vec)) (Z.of_nat j) s = Done (None, s') /\
    iov_inv (n + length (iov_tokens first (map iov_base vs))) s'.
Proof.
  induction vs as [|v vs IH]; intros j s n first rest [|fuel] Hvec Hcnt Hj Hf Ht Hinv Hs;
    cbn [length] in Hf; try lia; cbn [iov_segs].
  - rewrite decide_False; [exists s; by rewrite Nat.add_0_r|].
    apply (f_equal length) in Hj. rewrite length_drop in Hj. simpl in Hj. lia.
  - assert (Hjl : j < length vec).
    { apply (f_equal length) in Hj. rewrite length_drop in Hj. simpl in Hj. lia. }
    rewrite decide_True by lia. unfold rd_iovec. rewrite Nat2Z.id, (drop_cons_lookup _ _ _ _ Hj).
    ostep. cbn [map iov_tokens] in Ht |- *. rewrite <- app_assoc in Ht.
    assert (Hv : iov_len v = Z.of_nat (length (iov_base v))).
    { exact (Forall_lookup_1 _ _ _ _ Hvec (drop_cons_lookup _ _ _ _ Hj)). }
    assert (Hvl : length (iov_base v) <= length toks).
    { pose proof (f_equal length Ht) as L. rewrite length_drop, !length_app, length_seg_toks in L. lia. }
    destruct (iov_bytes_ok v (iov_base v) 0 s n _ _ (S (Z.to_nat (iov_len v))) Hv
      ltac:(lia) eq_refl ltac:(lia) Ht Hinv Hs) as (s1 & Hb & Hinv1 & _).
    change 0%Z with (Z.of_nat 0). rewrite Hb. ostep.
    rewrite u32_small by lia. replace (Z.of_nat j + 1)%Z with (Z.of_nat (S j)) by lia.
    pose proof (drop_app_prefix _ _ _ _ Ht) as Ht'. rewrite length_seg_toks in Ht'.
    destruct (IH (S j) (mk_iov_state (is_row s1) (is_i s1) ["*"%char] (is_rc s1) (is_w s1))
      (n + length (iov_base v)) false rest fuel) as (s' & Hr & Hinv');
      [done|done|exact (drop_cons_drop _ _ _ _ Hj)|lia|done|done|done|].
    exists s'. split; [done|]. rewrite length_app, length_seg_toks.
    by rewrite Nat.add_assoc.
Qed.
End IovRun.

(** ** [__vdbg_hex_iov] against the specification *)

(** The number of bytes of all segments. *)
Definition iov_total (vec : list iovec) : nat := sum_list_with (fun v => length (iov_base v)) vec.

Lemma length_iov_tokens first vec :
  length (iov_tokens first (map iov_base vec)) = iov_total vec.
Proof.
  revert first. induction vec as [|v vec IH]; intros first; simpl; [done|].
  by rewrite length_app, length_seg_toks, IH.
Qed.

Section IovEntry.
Context `{Platform}.

Lemma iov_dump_run hdr file func lineno vec msg w rc0 w1 :
  Forall (fun v => iov_len v = Z.of_nat (length (iov_base v))) vec ->
  (Z.of_nat (length vec) < 2 ^ 32)%Z -> (Z.of_nat (iov_total vec) < 2 ^ 32)%Z ->
  __vdbg hdr file func lineno msg w = Done (rc0, w1) ->
  __vdbg_hex_iov hdr func file lineno vec (Z.of_nat (length vec)) msg w =
    Done (if decide (iov_total vec = 0) then 0%Z else 3%Z,
          emit_ignore (iov_lines (iov_tokens true (map iov_base vec)) (iov_total vec / 16) 0) w1).
Proof.
  intros Hvec Hcnt Htot Hv. unfold __vdbg_hex_iov, iov_init. rewrite Hv. ostep.
  set (toks := iov_tokens true (map iov_base vec)).
  assert (Hlen : length toks = iov_total vec) by apply length_iov_tokens.
  destruct (iov_segs_ok toks w1 ltac:(lia) (iov_tokens_sep _ _) vec vec 0
    (mk_iov_state (mk_rowbuf (uninit ROW_BUF) 0 (Z.of_nat ROW_BUF)) 0 [" "%char] 0 w1)
    0 true [] (S (Z.to_nat (Z.of_nat (length vec)))) Hvec Hcnt eq_refl ltac:(lia))
    as (s & Hs & Hinv); [by rewrite app_nil_r|split; [done|]; split; [done|]; split; [done|apply row_inv_init]|done|].
  change (Z.of_nat 0) with 0%Z in Hs. rewrite Hs. ostep.
  destruct Hinv as (_ & Hrc & Hw & _). fold toks in Hrc, Hw |- *. rewrite Hlen in Hrc, Hw.
  by rewrite Hrc, Hw.
Qed.

(** C14: for segments whose declared lengths match their bytes, with fewer
    than 2^32 segments and bytes in total, [__vdbg_hex_iov] prints the
    caption with [__vdbg(hdr, file, func, ...)], then writes the complete
    16-byte rows of the token stream ([iov_lines]), ignoring each write's
    result, and returns 0 for an empty dump and 3, the length of the last
    byte's ["%s%02x"], otherwise. *)
Theorem vdbg_hex_iov_refines hdr file func lineno vec msg w rc0 w1 :
  Forall (fun v => iov_len v = Z.of_nat (length (iov_base v))) vec ->
  (Z.of_nat (length vec) < 2 ^ 32)%Z -> (Z.of_nat (iov_total vec) < 2 ^ 32)%Z ->
  __vdbg hdr file func lineno msg w = Done (rc0, w1) ->
  __vdbg_hex_iov hdr func file lineno vec (Z.of_nat (length vec)) msg w =
    Done (if decide (iov_total vec = 0) then 0%Z else 3%Z,
          emit_ignore (iov_lines (iov_tokens true (map iov_base vec)) (iov_total vec / 16) 0) w1).
Proof. apply iov_dump_run. Qed.

Lemma emit_ignore_ok ls w :
  (forall k, w_writes w <= k -> stdout_fails k = false) ->
  emit_ignore ls w = mk_world (w_out w ++ ls) (w_writes w + length ls) (w_ticks w).
Proof.
  revert w. induction ls as [|l ls IH]; intros w Hok; simpl.
  - by rewrite app_nil_r, Nat.add_0_r; destruct w.
  - unfold printf. rewrite Hok by lia. simpl.
    rewrite IH by (simpl; intros; apply Hok; lia). simpl.
    by rewrite <- app_assoc, Nat.add_succ_r.
Qed.

Lemma length_iov_lines ts n r : length (iov_lines ts n r) = n.
Proof. revert r. induction n; intros r; simpl; [done|]. by rewrite IHn. Qed.

(** C15: when every write succeeds, [__vdbg_hex_iov] writes only
    [total / 16] rows after the caption: the final partial row is never
    flushed, so the last [total mod 16] bytes never reach stdout. *)
Theorem vdbg_hex_iov_drops_partial_row hdr file func lineno vec msg w rc0 w1 :
  Forall (fun v => iov_len v = Z.of_nat (length (iov_base v))) vec ->
  (Z.of_nat (length vec) < 2 ^ 32)%Z -> (Z.of_nat (iov_total vec) < 2 ^ 32)%Z ->
  __vdbg hdr file func lineno msg w = Done (rc0, w1) ->
  (forall k, w_writes w1 <= k -> stdout_fails k = false) ->
  exists rc, __vdbg_hex_iov hdr func file lineno vec (Z.of_nat (length vec)) msg w =
    Done (rc, mk_world (w_out w1 ++ iov_lines (iov_tokens true (map iov_base vec)) (iov_total vec / 16) 0)
                       (w_writes w1 + iov_total vec / 16) (w_ticks w1)).
Proof.
  intros Hvec Hcnt Htot Hv Hok. rewrite (iov_dump_run _ _ _ _ _ _ _ _ _ Hvec Hcnt Htot Hv).
  eexists. by rewrite emit_ignore_ok, length_iov_lines.
Qed.
End IovEntry.

(** ** Two segments forming one row against the contiguous dumper *)

Lemma tok_text_seg c bs : concat (map tok_text (seg_toks c bs)) = sep_bytes [c] bs.
Proof.
  revert c. induction bs as [|x bs IH]; intros c; simpl; [done|]. by rewrite IH.
Qed.

Lemma sep_bytes_app sep a b :
  a <> [] -> sep_bytes sep (a ++ b) = sep_bytes sep a ++ sep_bytes [" "%char] b.
Proof.
  revert sep. induction a as [|x a IH]; intros sep Ha; [done|]. simpl.
  destruct a as [|x' a]; [simpl; by rewrite app_nil_r, <- app_assoc|].
  rewrite IH by done. by rewrite <- !app_assoc.
Qed.

Lemma length_sep_bytes1 c bs : length (sep_bytes [c] bs) = 3 * length bs.
Proof.
  revert c. induction bs as [|x bs IH]; intros c; simpl; [done|].
  autorewrite with dbg_rw. rewrite IH. lia.
Qed.

(** The row of [a ++ b] with ["*"] before the first byte of [b] instead of
    a space. *)
Lemma row_marker a b :
  a <> [] -> b <> [] ->
  iov_row_text 0 (seg_toks " "%char a ++ seg_toks "*"%char b) =
    <[3 + 3 * length a := "*"%char]> (hex_row_text 0 (a ++ b)) /\
  hex_row_text 0 (a ++ b) !! (3 + 3 * length a) = Some " "%char.
Proof.
  intros Ha Hb. set (P := fmt_02x_z 0 ++ [":"%char] ++ sep_bytes [" "%char] a).
  assert (HP : length P = 3 + 3 * length a).
  { unfold P. rewrite !length_app, length_sep_bytes1. simpl. lia. }
  assert (Hhex : hex_row_text 0 (a ++ b) = P ++ sep_bytes [" "%char] b).
  { unfold hex_row_text, P. rewrite sep_bytes_app by done.
    destruct a as [|x a]; [done|]. simpl. by rewrite <- !app_assoc. }
  assert (Hiov : iov_row_text 0 (seg_toks " "%char a ++ seg_toks "*"%char b) = P ++ sep_bytes ["*"%char] b).
  { unfold iov_row_text, P. rewrite map_app, concat_app, !tok_text_seg. by rewrite <- !app_assoc. }
  rewrite Hhex, Hiov, <- HP. destruct b as [|y b]; [done|]. split.
  - rewrite insert_app_r_alt, Nat.sub_diag by lia. done.
  - rewrite lookup_app_r, Nat.sub_diag by lia. done.
Qed.

Section Contiguous.
Context `{Platform}.

(** C16: two non-empty segments of 16 bytes in total (the 10 + 6 case of
    the documentation) are dumped as the same single line as the
    contiguous dumper prints for their concatenation, except that the
    separator before the first byte of the second segment, at index
    [3 + 3 * length a], is ['*'] instead of a space.  The contiguous
    dumper returns 0 and the scattered one 3. *)
Theorem vdbg_hex_iov_contiguous hdr file func lineno a b msg w rc0 w1 :
  a <> [] -> b <> [] -> length a + length b = 16 ->
  __vdbg hdr file func lineno msg w = Done (rc0, w1) ->
  (forall k, w_writes w1 <= k -> stdout_fails k = false) ->
  exists line,
    __vdbg_hex hdr file func lineno (a ++ b) 16 msg w =
      Done (0%Z, mk_world (w_out w1 ++ [line]) (w_writes w1 + 1) (w_ticks w1)) /\
    __vdbg_hex_iov hdr func file lineno
      [mk_iovec a (Z.of_nat (length a)); mk_iovec b (Z.of_nat (length b))] 2 msg w =
      Done (3%Z, mk_world (w_out w1 ++ [<[3 + 3 * length a := "*"%char]> line])
                          (w_writes w1 + 1) (w_ticks w1)) /\
    line !! (3 + 3 * length a) = Some " "%char.
Proof.
  intros Ha Hb Hab Hv Hok. destruct (row_marker a b Ha Hb) as [Hrow Hsp].
  exists (hex_row_text 0 (a ++ b) ++ EOL).
  pose proof (lookup_lt_Some _ _ _ Hsp) as Hlen.
  split; [|split].
  - replace 16%Z with (Z.of_nat (length (a ++ b))) by (rewrite length_app; lia).
    rewrite (hex_dump_run hdr file func lineno (a ++ b) msg w rc0 w1
      ltac:(rewrite length_app; lia) Hv).
    rewrite emit_lines_ok by done. unfold nrows. rewrite length_app, Hab. simpl.
    unfold row_bytes. rewrite drop_0, take_ge by (rewrite length_app; lia). done.
  - replace 2%Z with (Z.of_nat (length [mk_iovec a (Z.of_nat (length a)); mk_iovec b (Z.of_nat (length b))]))
      by reflexivity.
    rewrite (iov_dump_run hdr file func lineno
      [mk_iovec a (Z.of_nat (length a)); mk_iovec b (Z.of_nat (length b))] msg w rc0 w1
      ltac:(repeat constructor) ltac:(simpl; lia)
      ltac:(unfold iov_total; simpl; lia) Hv).
    unfold iov_total. cbn [sum_list_with iov_base map iov_tokens]. rewrite Nat.add_0_r, Hab.
    rewrite emit_ignore_ok by done. change (16 `div` 16) with 1. cbn [iov_lines length].
    rewrite Nat.mul_0_r, drop_0, app_nil_r, take_ge
      by (rewrite length_app, !length_seg_toks; lia).
    rewrite Hrow, insert_app_l by lia. done.
  - rewrite lookup_app_l by lia. done.
Qed.
End Contiguous.

(** ** The values [__vdbg_hex_iov] returns *)

(** An early return carries [-1]; otherwise [rc] holds a C result. *)
Definition iov_ret (ret : option Z) (s : iov_state) : Prop :=
  match ret with Some rc => rc = (-1)%Z | None => int_result (is_rc s) end.

Lemma snprintf_neg b p n t b' rc : snprintf b p n t = Done (b', rc) -> (rc < 0)%Z -> rc = (-1)%Z.
Proof. intros Hs. apply int_result_neg. by eapply snprintf_result. Qed.

Lemma iov_prefix_ret `{Platform} s ret s' :
  int_result (is_rc s) -> iov_prefix s = Done (ret, s') -> iov_ret ret s'.
Proof.
  unfold iov_prefix. intros Hrc Hp. case_decide; [|by injection Hp as <- <-].
  oinv Hp as ([b rc] & Hs & Hp). case_decide; injection Hp as <- <-; [by eapply snprintf_neg|].
  simpl. by eapply snprintf_result.
Qed.

Lemma iov_byte_ret `{Platform} c s ret s' :
  int_result (is_rc s) -> iov_byte c s = Done (ret, s') -> iov_ret ret s'.
Proof.
  unfold iov_byte. intros Hrc Hb. oinv Hb as ([ret1 s1] & Hp & Hb).
  apply iov_prefix_ret in Hp; [|done]. destruct ret1 as [rc1|]; [by injection Hb as <- <-|].
  oinv Hb as ([b rc] & Hs & Hb). case_decide; [injection Hb as <- <-; by eapply snprintf_neg|].
  apply snprintf_result in Hs. case_decide.
  - oinv Hb as (out & _ & Hb). destruct (printf _ _) as [rc2 w2]. by injection Hb as <- <-.
  - by injection Hb as <- <-.
Qed.

Lemma iov_bytes_ret `{Platform} fuel v k s ret s' :
  int_result (is_rc s) -> iov_bytes fuel v k s = Done (ret, s') -> iov_ret ret s'.
Proof.
  revert k s. induction fuel as [|fuel IH]; intros k s Hrc Hb; cbn [iov_bytes] in Hb; [discriminate|].
  case_decide; [|by injection Hb as <- <-].
  oinv Hb as (c & _ & Hb). oinv Hb as ([ret1 s1] & Hby & Hb).
  apply iov_byte_ret in Hby; [|done]. destruct ret1; [by injection Hb as <- <-|by eapply IH].
Qed.

Lemma iov_segs_ret `{Platform} fuel vec cnt j s ret s' :
  int_result (is_rc s) -> iov_segs fuel vec cnt j s = Done (ret, s') -> iov_ret ret s'.
Proof.
  revert j s. induction fuel as [|fuel IH]; intros j s Hrc Hg; cbn [iov_segs] in Hg; [discriminate|].
  case_decide; [|by injection Hg as <- <-].
  oinv Hg as (v & _ & Hg). oinv Hg as ([ret1 s1] & Hb & Hg).
  apply iov_bytes_ret in Hb; [|done]. destruct ret1; [by injection Hg as <- <-|exact (IH _ (mk_iov_state (is_row s1) (is_i s1) ["*"%char] (is_rc s1) (is_w s1)) Hb Hg)].
Qed.

Lemma vdbg_hex_iov_result `{Platform} hdr func file lineno vec cnt msg w rc w' :
  __vdbg_hex_iov hdr func file lineno vec cnt msg w = Done (rc, w') -> int_result rc.
Proof.
  unfold __vdbg_hex_iov. intros Hv. oinv Hv as ([rc0 w1] & _ & Hv).
  oinv Hv as ([ret s] & Hg & Hv). apply iov_segs_ret in Hg; [|right; unfold INT_MAX; simpl; lia].
  destruct ret; injection Hv as <- _; [by left|done].
Qed.

(** ** Wrap-around of the segment counter *)

(** C26: the byte counter [k] is an [unsigned] compared with the
    [size_t] [iov_len].  For a segment of 2^32 bytes or more, [k] wraps
    before reaching [iov_len], so the inner loop never completes normally,
    for any amount of fuel. *)
Theorem iov_bytes_never_complete `{Platform} fuel v k s s' :
  (2 ^ 32 <= iov_len v)%Z -> (0 <= k < 2 ^ 32)%Z ->
  iov_bytes fuel v k s <> Done (None, s').
Proof.
  revert k s. induction fuel as [|fuel IH]; intros k s Hl Hk; cbn [iov_bytes]; [discriminate|].
  rewrite decide_True by lia. rewrite bind_outcome.
  destruct (rd_byte (iov_base v) k) as [c| |]; cbn [obind]; try discriminate.
  rewrite bind_outcome. destruct (iov_byte c s) as [[[rc|] s1]| |]; cbn [obind]; try discriminate.
  apply IH; [done|apply u32_range].
Qed.

(** ** Witnesses on concrete inputs *)

Section IovWitnesses.
#[local] Existing Instance demo_platform.

(** The seventeen demonstration bytes as segments of 10 and 7 bytes. *)
Definition demo_vec : list iovec :=
  [mk_iovec (take 10 demo_bytes) 10; mk_iovec (drop 10 demo_bytes) 7].

Lemma vdbg_hex_iov_refines_witness :
  __vdbg_hex_iov ("%f: ")%cs ("main")%cs ("a.c")%cs 1 demo_vec 2 (Rendered ("cap")%cs) world0 =
    Done (3%Z, emit_ignore (iov_lines (iov_tokens true (map iov_base demo_vec)) 1 0)
                           (mk_world [("main: cap")%cs] 1 0)).
Proof.
  change 2%Z with (Z.of_nat (length demo_vec)).
  rewrite (vdbg_hex_iov_refines ("%f: ")%cs ("a.c")%cs ("main")%cs 1 demo_vec (Rendered ("cap")%cs)
    world0 9%Z (mk_world [("main: cap")%cs] 1 0)).
  - reflexivity.
  - repeat constructor.
  - vm_compute. reflexivity.
  - vm_compute. reflexivity.
  - vm_compute. reflexivity.
Defined.

(** Seventeen bytes give one row: the byte [0x70] at offset 16 is lost. *)
Lemma vdbg_hex_iov_drops_partial_row_witness :
  exists rc, __vdbg_hex_iov ("%f: ")%cs ("main")%cs ("a.c")%cs 1 demo_vec 2 (Rendered ("cap")%cs) world0 =
    Done (rc, mk_world [("main: cap")%cs;
                        ("00: 00 07 0e 15 1c 23 2a 31 38 3f*46 4d 54 5b 62 69")%cs ++ EOL] 2 0).
Proof.
  change 2%Z with (Z.of_nat (length demo_vec)).
  destruct (vdbg_hex_iov_drops_partial_row ("%f: ")%cs ("a.c")%cs ("main")%cs 1 demo_vec
    (Rendered ("cap")%cs) world0 9%Z (mk_world [("main: cap")%cs] 1 0)) as [rc Hrc].
  - repeat constructor.
  - vm_compute. reflexivity.
  - vm_compute. reflexivity.
  - vm_compute. reflexivity.
  - intros k _. reflexivity.
  - exists rc. rewrite Hrc. vm_compute. reflexivity.
Defined.

Lemma vdbg_hex_iov_contiguous_witness :
  exists line,
    __vdbg_hex ("%f: ")%cs ("a.c")%cs ("main")%cs 1 (take 10 demo_bytes ++ take 6 (drop 10 demo_bytes)) 16
      (Rendered ("cap")%cs) world0 =
      Done (0%Z, mk_world ([("main: cap")%cs] ++ [line]) (1 + 1) 0) /\
    __vdbg_hex_iov ("%f: ")%cs ("main")%cs ("a.c")%cs 1
      [mk_iovec (take 10 demo_bytes) (Z.of_nat (length (take 10 demo_bytes)));
       mk_iovec (take 6 (drop 10 demo_bytes)) (Z.of_nat (length (take 6 (drop 10 demo_bytes))))] 2
      (Rendered ("cap")%cs) world0 =
      Done (3%Z, mk_world ([("main: cap")%cs] ++ [<[3 + 3 * length (take 10 demo_bytes) := "*"%char]> line])
                          (1 + 1) 0) /\
    line !! (3 + 3 * length (take 10 demo_bytes)) = Some " "%char.
Proof.
  apply (vdbg_hex_iov_contiguous ("%f: ")%cs ("a.c")%cs ("main")%cs 1 (take 10 demo_bytes)
    (take 6 (drop 10 demo_bytes)) (Rendered ("cap")%cs) world0 9%Z (mk_world [("main: cap")%cs] 1 0)).
  - vm_compute. discriminate.
  - vm_compute. discriminate.
  - reflexivity.
  - vm_compute. reflexivity.
  - intros k _. reflexivity.
Defined.
End IovWitnesses.

Lemma iov_bytes_never_complete_witness :
  (2 ^ 32 <= iov_len (mk_iovec demo_bytes (2 ^ 32)))%Z /\ (0 <= 0 < 2 ^ 32)%Z /\
  forall s', @iov_bytes demo_platform 20 (mk_iovec demo_bytes (2 ^ 32)) 0
    (mk_iov_state (mk_rowbuf (uninit ROW_BUF) 0 (Z.of_nat ROW_BUF)) 0 [" "%char] 0 world0)
    <> Done (None, s').
Proof.
  split; [simpl; lia|]. split; [lia|]. intros s'.
  apply (@iov_bytes_never_complete demo_platform); simpl; lia.
Defined.
