(* ===== verification/Dbg.v ===== *)
(** * Dbg: the inline wrappers and macros of src/include/dbg.h

    Under [#if DBG], [__dbg], [__dbg_hex] and [__dbg_hex_iov]
    (dbg.h 67-115, here [__dbg_on] and the others) return 0 without doing
    anything when [cond] is false.  Otherwise they call [__vdbg],
    [__vdbg_hex] or [__vdbg_hex_iov] with the header [DBG_HEADER].  When
    the including file defines [DBG] as 0, the three are replaced by
    bodies that only [return 0] (dbg.h 116-134, [__dbg_off] and the
    others).  The preprocessor switch [DBG] is a parameter, and [__dbg],
    [__dbg_hex] and [__dbg_hex_iov] write the [#if DBG] test out.  The macros [dbg_cond], [dbg_t], [dbg_f],
    [dbg], [dbg_hex], [dbg_hex_cond], [dbg_hex_iov] and [dbg_hex_iov_cond]
    (dbg.h 143-208) are definitions.  They take the call site's
    [__FILE__], [__func__] and [__LINE__] as arguments.

    [__dbg_hex_iov] passes [(DBG_HEADER, file, func, ...)] to
    [__vdbg_hex_iov].  That function declares these parameters in the
    order [(hdr, func, file, ...)], so the caption it prints has the file
    and the function exchanged: [dbg_hex_iov_caption_swapped]. *)

From S2P Require Import Prelude CLib AddHdr Vdbg Hex HexIov.

(** [#define DBG_HEADER "%f:%l: "], the default header (dbg.h 63-65). *)
Definition DBG_HEADER : cstr := ("%f:%l: ")%cs.

Section Wrappers.
Context `{Platform}.
(** The value of the macro [DBG] the including file defines. *)
Variable DBG : Z.

(** [static inline int __dbg(cond, file, func, line, fmt, ...)] under
    [#if DBG] (dbg.h 67-81). *)
Definition __dbg_on (cond : bool) (file func : cstr) (line : N) (msg : fmt_result) (w : world)
    : outcome (Z * world) :=
  if negb cond then Done (0%Z, w)
  else __vdbg DBG_HEADER file func line msg w.

(** [__dbg_hex] under [#if DBG] (dbg.h 83-97). *)
Definition __dbg_hex_on (cond : bool) (file func : cstr) (lineno : N) (inbuf : list byte)
    (size : Z) (msg : fmt_result) (w : world) : outcome (Z * world) :=
  if negb cond then Done (0%Z, w)
  else __vdbg_hex DBG_HEADER file func lineno inbuf size msg w.

(** [__dbg_hex_iov] under [#if DBG] (dbg.h 99-115). *)
Definition __dbg_hex_iov_on (cond : bool) (file func : cstr) (lineno : N) (vec : list iovec)
    (iovcnt : Z) (msg : fmt_result) (w : world) : outcome (Z * world) :=
  if negb cond then Done (0%Z, w)
  else __vdbg_hex_iov DBG_HEADER file func lineno vec iovcnt msg w.

(** The three bodies under [#else] (dbg.h 117-134): [return 0]. *)
Definition __dbg_off (cond : bool) (file func : cstr) (line : N) (msg : fmt_result) (w : world)
    : outcome (Z * world) :=
  Done (0%Z, w).

Definition __dbg_hex_off (cond : bool) (file func : cstr) (lineno : N) (inbuf : list byte)
    (size : Z) (msg : fmt_result) (w : world) : outcome (Z * world) :=
  Done (0%Z, w).

Definition __dbg_hex_iov_off (cond : bool) (file func : cstr) (lineno : N) (vec : list iovec)
    (iovcnt : Z) (msg : fmt_result) (w : world) : outcome (Z * world) :=
  Done (0%Z, w).

(** [#if DBG] (dbg.h 39) chooses one of the two definitions of each. *)
Definition __dbg (cond : bool) (file func : cstr) (line : N) (msg : fmt_result) (w : world) :=
  if decide (DBG <> 0)%Z then __dbg_on cond file func line msg w
  else __dbg_off cond file func line msg w.
Definition __dbg_hex (cond : bool) (file func : cstr) (lineno : N) (inbuf : list byte)
    (size : Z) (msg : fmt_result) (w : world) :=
  if decide (DBG <> 0)%Z then __dbg_hex_on cond file func lineno inbuf size msg w
  else __dbg_hex_off cond file func lineno inbuf size msg w.
Definition __dbg_hex_iov (cond : bool) (file func : cstr) (lineno : N) (vec : list iovec)
    (iovcnt : Z) (msg : fmt_result) (w : world) :=
  if decide (DBG <> 0)%Z then __dbg_hex_iov_on cond file func lineno vec iovcnt msg w
  else __dbg_hex_iov_off cond file func lineno vec iovcnt msg w.

(** The macros, at a call site in [__FILE__] and [__func__] on line
    [__LINE__]. *)
Definition dbg_cond (cond : bool) (FILE func : cstr) (LINE : N) (msg : fmt_result) :=
  __dbg cond FILE func LINE msg.
Definition dbg_t (FILE func : cstr) (LINE : N) (msg : fmt_result) :=
  dbg_cond true FILE func LINE msg.
Definition dbg_f (FILE func : cstr) (LINE : N) (msg : fmt_result) :=
  dbg_cond false FILE func LINE msg.
Definition dbg (FILE func : cstr) (LINE : N) (msg : fmt_result) :=
  dbg_t FILE func LINE msg.
Definition dbg_hex (FILE func : cstr) (LINE : N) (inbuf : list byte) (size : Z) (msg : fmt_result) :=
  __dbg_hex true FILE func LINE inbuf size msg.
Definition dbg_hex_cond (cond : bool) (FILE func : cstr) (LINE : N) (inbuf : list byte) (size : Z)
    (msg : fmt_result) :=
  __dbg_hex cond FILE func LINE inbuf size msg.
Definition dbg_hex_iov (FILE func : cstr) (LINE : N) (vec : list iovec) (iovcnt : Z)
    (msg : fmt_result) :=
  __dbg_hex_iov true FILE func LINE vec iovcnt msg.
Definition dbg_hex_iov_cond (cond : bool) (FILE func : cstr) (LINE : N) (vec : list iovec)
    (iovcnt : Z) (msg : fmt_result) :=
  __dbg_hex_iov cond FILE func LINE vec iovcnt msg.
End Wrappers.

(** The text the default header expands to. *)
Definition default_header_text (func : cstr) (line : N) : cstr :=
  c_str func ++ ":"%char :: fmt_u line ++ [":"%char; " "%char].

Lemma hdr_pieces_default `{Platform} file func line w :
  hdr_pieces file func line DBG_HEADER w =
    Some ([PText (c_str func); PLit ":"%char; PText (fmt_u line); PLit ":"%char; PLit " "%char], w).
Proof. reflexivity. Qed.

Lemma pieces_text_default func line :
  pieces_text [PText (c_str func); PLit ":"%char; PText (fmt_u line); PLit ":"%char; PLit " "%char] =
    default_header_text func line.
Proof. unfold pieces_text, default_header_text. simpl. by rewrite ?app_nil_r, <- ?app_assoc. Qed.

Lemma length_default_header_text func line :
  length (default_header_text func line) = length (c_str func) + length (fmt_u line) + 3.
Proof. unfold default_header_text. rewrite length_app. simpl. rewrite length_app. simpl. lia. Qed.

Section WrapperTheorems.
Context `{Platform}.

(** C17: with debugging compiled in, [dbg] at a call site whose function
    name and line number take at most 251 characters prints the line
    ["func:line: "] followed by the message, cut to 255 characters, in one
    write, and returns its logical length.  251 is the limit: at 252 the
    last literal of the header falls where [remaining] is 2 (see
    [dbg_default_header_uninit]). *)
Theorem dbg_default_line DBG file func line m w :
  DBG <> 0%Z -> length (c_str func) + length (fmt_u line) <= 251 -> nul_free m ->
  (Z.of_nat (length (default_header_text func line ++ m)) <= INT_MAX)%Z ->
  stdout_fails (w_writes w) = false ->
  dbg DBG file func line (Rendered m) w =
    Done (Z.of_nat (length (default_header_text func line ++ m)),
          mk_world (w_out w ++ [take 255 (default_header_text func line ++ m)])
                   (S (w_writes w)) (w_ticks w)).
Proof.
  intros HD Hlen Hm Hmax Hok. unfold dbg, dbg_t, dbg_cond, __dbg, __dbg_on.
  rewrite decide_True by done. cbn [negb].
  rewrite <- pieces_text_default in Hmax |- *.
  apply vdbg_safe_run; [apply hdr_pieces_default| |done|done|done].
  apply pieces_safe_short. rewrite pieces_text_default, length_default_header_text. lia.
Qed.

(** C18: [__dbg_hex_iov] at a call site in [file] and [func] prints as
    its caption the line [__dbg] prints at a call site in [func] and
    [file], exchanged, because [__vdbg_hex_iov] declares its parameters as
    [(hdr, func, file, ...)] while its callers pass [(hdr, file, func, ...)].
    The rows follow as in [vdbg_hex_iov_refines]. *)
Theorem dbg_hex_iov_caption_swapped DBG file func lineno vec msg w rc0 w1 :
  DBG <> 0%Z ->
  Forall (fun v => iov_len v = Z.of_nat (length (iov_base v))) vec ->
  (Z.of_nat (length vec) < 2 ^ 32)%Z -> (Z.of_nat (iov_total vec) < 2 ^ 32)%Z ->
  __dbg DBG true func file lineno msg w = Done (rc0, w1) ->
  __dbg_hex_iov DBG true file func lineno vec (Z.of_nat (length vec)) msg w =
    Done (if decide (iov_total vec = 0) then 0%Z else 3%Z,
          emit_ignore (iov_lines (iov_tokens true (map iov_base vec)) (iov_total vec / 16) 0) w1).
Proof.
  intros HD Hvec Hcnt Htot Hd. unfold __dbg, __dbg_on in Hd. unfold __dbg_hex_iov, __dbg_hex_iov_on.
  rewrite decide_True in Hd |- * by done. cbn [negb] in Hd |- *.
  by apply (iov_dump_run _ _ _ _ _ _ _ rc0 w1).
Qed.

(** C19: with [DBG] at 0, or with a false [cond], the three wrappers
    return 0 and neither write nor read the clock. *)
Theorem dbg_disabled_noop DBG cond file func lineno inbuf size vec iovcnt msg w :
  DBG = 0%Z \/ cond = false ->
  __dbg DBG cond file func lineno msg w = Done (0%Z, w) /\
  __dbg_hex DBG cond file func lineno inbuf size msg w = Done (0%Z, w) /\
  __dbg_hex_iov DBG cond file func lineno vec iovcnt msg w = Done (0%Z, w).
Proof.
  unfold __dbg, __dbg_hex, __dbg_hex_iov, __dbg_on, __dbg_hex_on, __dbg_hex_iov_on,
    __dbg_off, __dbg_hex_off, __dbg_hex_iov_off.
  intros [-> | ->]; [rewrite !decide_False by lia | destruct (decide _)]; done.
Qed.
End WrapperTheorems.

(** ** Witnesses and counterexamples on concrete inputs *)

Section DbgWitnesses.
#[local] Existing Instance demo_platform.

(** C20: [dbg] with debugging compiled in, in a function whose name and
    line number take 252 characters together, prints an indeterminate
    byte, whatever the message.  ["%f:%l"] renders to 253 characters.  The
    final space of the default header then meets [remaining == 2]: the
    guard [remaining > 2] skips the store, but [p] still advances, so
    [buf[254]] stays uninitialised. *)
Theorem dbg_default_header_uninit DBG file func line m w :
  DBG <> 0%Z -> length (c_str func) + length (fmt_u line) = 252 ->
  (Z.of_nat (255 + length m) <= INT_MAX)%Z ->
  dbg DBG file func line (Rendered m) w = Undefined UB_uninit_read.
Proof.
  intros HD Hlen Hmax. unfold dbg, dbg_t, dbg_cond, __dbg, __dbg_on.
  rewrite decide_True by done. cbn [negb].
  apply (vdbg_literal_uninit ("%f:%l")%cs ":"%char " "%char file func line m w
    [PText (c_str func); PLit ":"%char; PText (fmt_u line)] w); try done.
  - repeat constructor; discriminate.
  - unfold pieces_text. simpl. rewrite app_nil_r, length_app. simpl. lia.
Qed.

Lemma dbg_default_header_uninit_witness :
  dbg 1 ("a.c")%cs (repeat "f"%char 251) 7 (Rendered ("x")%cs) world0 = Undefined UB_uninit_read.
Proof.
  apply dbg_default_header_uninit.
  - lia.
  - reflexivity.
  - simpl. unfold INT_MAX. lia.
Defined.

Lemma dbg_default_line_witness :
  dbg 1 ("a.c")%cs ("main")%cs 42 (Rendered ("hello")%cs) world0 =
    Done (14%Z, mk_world [("main:42: hello")%cs] 1 0).
Proof.
  rewrite (dbg_default_line 1 ("a.c")%cs ("main")%cs 42 ("hello")%cs world0).
  - vm_compute. reflexivity.
  - lia.
  - vm_compute. lia.
  - repeat constructor; discriminate.
  - vm_compute. discriminate.
  - reflexivity.
Defined.

(** The caption of [dbg_hex_iov] in [main] of [a.c] names [a.c] where
    the header asks for the function. *)
Lemma dbg_hex_iov_caption_swapped_witness :
  dbg_hex_iov 1 ("a.c")%cs ("main")%cs 7 [mk_iovec [Byte.x2a] 1] 1 (Rendered ("cap")%cs) world0 =
    Done (3%Z, mk_world [("a.c:7: cap")%cs] 1 0).
Proof.
  unfold dbg_hex_iov.
  change 1%Z with (Z.of_nat (length [mk_iovec [Byte.x2a] 1])) at 2.
  rewrite (dbg_hex_iov_caption_swapped 1 ("a.c")%cs ("main")%cs 7 [mk_iovec [Byte.x2a] 1]
    (Rendered ("cap")%cs) world0 10%Z (mk_world [("a.c:7: cap")%cs] 1 0)).
  - reflexivity.
  - lia.
  - repeat constructor.
  - vm_compute. reflexivity.
  - vm_compute. reflexivity.
  - vm_compute. reflexivity.
Defined.

Lemma dbg_disabled_noop_witness :
  __dbg 0 true ("a.c")%cs ("main")%cs 7 (Rendered ("x")%cs) world0 = Done (0%Z, world0) /\
  __dbg_hex 0 true ("a.c")%cs ("main")%cs 7 demo_bytes 17 (Rendered ("x")%cs) world0 = Done (0%Z, world0) /\
  __dbg_hex_iov 0 true ("a.c")%cs ("main")%cs 7 [] 0 (Rendered ("x")%cs) world0 = Done (0%Z, world0).
Proof. apply dbg_disabled_noop. left. reflexivity. Defined.
End DbgWitnesses.
