(* ===== verification/HexParse.v ===== *)
(** * HexParse: reading a hex dump back

    A reader of the output of [__vdbg_hex] recovers the row index and the
    bytes of every row.  This file defines that reader ([parse_hex_row],
    [parse_dump]) and proves the dump lossless: parsing the rows of
    [hex_lines] gives back exactly the dumped buffer.  The reader of the
    scattered dump ([parse_iov_row], [parse_iov_dump]) also keeps the
    separator of every byte.  It shows which bytes [__vdbg_hex_iov]
    delivers: all complete rows, in order.  The number
    conversion [utoa] of [CLib] is inverted on the way ([parse_hex_utoa]).
    The reader is specification, not repository code. *)

From S2P Require Import Prelude CLib AddHdr Vdbg Hex HexIov.

(** The value of a lower-case hexadecimal digit. *)
Definition hex_val (c : ascii) : option N :=
  let n := Ascii.N_of_ascii c in
  if (48 <=? n)%N && (n <? 58)%N then Some (n - 48)%N
  else if (97 <=? n)%N && (n <? 103)%N then Some (n - 87)%N
  else None.

Fixpoint parse_hex_acc (acc : N) (s : cstr) : option N :=
  match s with
  | [] => Some acc
  | c :: s' => d ← hex_val c; parse_hex_acc (acc * 16 + d)%N s'
  end.

Definition parse_hex (s : cstr) : option N := parse_hex_acc 0 s.

(** Bytes written ["%02x"] and separated by single spaces. *)
Fixpoint parse_bytes (s : cstr) : option (list byte) :=
  match s with
  | [] => Some []
  | c1 :: c2 :: rest =>
      n ← parse_hex [c1; c2]; b ← Byte.of_N n;
      match rest with
      | [] => Some [b]
      | " "%char :: rest' => bs ← parse_bytes rest'; Some (b :: bs)
      | _ => None
      end
  | _ => None
  end.

(** The text before the first [':'] and the text after it. *)
Fixpoint split_colon (s : cstr) : option (cstr * cstr) :=
  match s with
  | [] => None
  | c :: s' =>
      if decide (c = ":"%char) then Some ([], s')
      else '(a, b) ← split_colon s'; Some (c :: a, b)
  end.

(** A row ["%02x: "] index, then the bytes. *)
Definition parse_hex_row (s : cstr) : option (N * list byte) :=
  '(pre, rest) ← split_colon s;
  i ← parse_hex pre;
  match rest with
  | " "%char :: body => bs ← parse_bytes body; Some (i, bs)
  | _ => None
  end.

(** A printed line without its [EOL]. *)
Definition parse_line (l : cstr) : option (N * list byte) :=
  parse_hex_row (take (length l - length EOL) l).

(** The bytes of a whole dump, row after row. *)
Definition parse_dump (ls : list cstr) : option (list byte) :=
  rows ← mapM parse_line ls; Some (concat (map snd rows)).

(** A row of the scattered dumper: ["%02x:"] offset, then each byte as
    its separator and two hex digits. *)
Fixpoint parse_toks (s : cstr) : option (list (ascii * byte)) :=
  match s with
  | [] => Some []
  | c :: c1 :: c2 :: rest =>
      n ← parse_hex [c1; c2]; b ← Byte.of_N n; ts ← parse_toks rest; Some ((c, b) :: ts)
  | _ => None
  end.

Definition parse_iov_row (s : cstr) : option (N * list (ascii * byte)) :=
  '(pre, rest) ← split_colon s; off ← parse_hex pre; ts ← parse_toks rest; Some (off, ts).

Definition parse_iov_line (l : cstr) : option (N * list (ascii * byte)) :=
  parse_iov_row (take (length l - length EOL) l).

(** The bytes of a whole scattered dump. *)
Definition parse_iov_dump (ls : list cstr) : option (list byte) :=
  rows ← mapM parse_iov_line ls; Some (concat (map (fun r => map snd r.2) rows)).

(** ** Inverting the number conversion *)

Definition hex_value (l : list N) (acc : N) : N := fold_left (fun a d => a * 16 + d)%N l acc.

Lemma N_lt_pow_size n : (n < 2 ^ N.of_nat (N.size_nat n))%N.
Proof.
  destruct n as [|p]; [simpl; lia|]. cbn [N.size_nat].
  induction p as [p IH|p IH|]; cbn [Pos.size_nat]; rewrite ?Nat2N.inj_succ, ?N.pow_succ_r';
    lia.
Qed.

Lemma digits_value f n :
  (n < 16 ^ N.of_nat f)%N -> hex_value (digits f 16 n) 0 = n.
Proof.
  revert n. induction f as [|f IH]; intros n Hn; simpl.
  - simpl in Hn. unfold hex_value. simpl. lia.
  - destruct (N.ltb_spec n 16); [unfold hex_value; simpl; lia|].
    unfold hex_value in *. rewrite fold_left_app. simpl.
    rewrite IH; [pose proof (N.div_mod' n 16); lia|].
    apply N.Div0.div_lt_upper_bound. rewrite Nat2N.inj_succ, N.pow_succ_r' in Hn. lia.
Qed.

Lemma hex_val_digit d : (d < 16)%N -> hex_val (digit_char d) = Some d.
Proof.
  intros Hd. rewrite <- (N2Nat.id d). assert (N.to_nat d < 16) as Hk by lia.
  generalize (N.to_nat d) Hk. clear. intros k Hk.
  do 16 (destruct k as [|k]; [reflexivity|]). lia.
Qed.

Lemma parse_hex_digits acc l :
  Forall (fun d => (d < 16)%N) l -> parse_hex_acc acc (map digit_char l) = Some (hex_value l acc).
Proof.
  revert acc. induction l as [|d l IH]; intros acc Hl; simpl; [done|].
  inversion Hl as [|? ? Hd Hl']; subst. rewrite hex_val_digit by done. simpl. by apply IH.
Qed.

Lemma parse_hex_utoa n : parse_hex (utoa 16 n) = Some n.
Proof.
  unfold parse_hex, utoa. rewrite parse_hex_digits by (apply digits_lt; lia).
  f_equal. apply digits_value.
  pose proof (N_lt_pow_size n).
  assert (2 ^ N.of_nat (N.size_nat n) <= 16 ^ N.of_nat (S (N.size_nat n)))%N.
  { transitivity (16 ^ N.of_nat (N.size_nat n))%N.
    - apply N.pow_le_mono_l. lia.
    - apply N.pow_le_mono_r; lia. }
  lia.
Qed.

Lemma parse_hex_acc_zeros k s : parse_hex_acc 0 (replicate k "0"%char ++ s) = parse_hex_acc 0 s.
Proof. induction k as [|k IH]; simpl; [done|]. exact IH. Qed.

Lemma parse_fmt_02x n : parse_hex (fmt_02x n) = Some n.
Proof. unfold parse_hex, fmt_02x, pad0. rewrite parse_hex_acc_zeros. apply parse_hex_utoa. Qed.

(** ** Reading rows back *)

Lemma parse_byte x : exists c1 c2, fmt_02x_byte x = [c1; c2] /\
  (n ← parse_hex [c1; c2]; Byte.of_N n) = Some x.
Proof.
  pose proof (length_fmt_02x_byte x) as Hl. pose proof (parse_fmt_02x (Byte.to_N x)) as Hp.
  fold (fmt_02x_byte x) in Hp.
  destruct (fmt_02x_byte x) as [|c1 [|c2 [|]]]; try discriminate.
  exists c1, c2. split; [done|]. rewrite Hp. simpl. apply Byte.of_to_N.
Qed.

Lemma sep_bytes_space bs :
  sep_bytes [" "%char] bs = match bs with [] => [] | _ :: _ => " "%char :: sep_bytes [] bs end.
Proof. by destruct bs. Qed.

Lemma parse_sep_bytes bs : parse_bytes (sep_bytes [] bs) = Some bs.
Proof.
  induction bs as [|x bs IH]; [done|].
  destruct (parse_byte x) as (c1 & c2 & Hx & Hp). cbn [sep_bytes app]. rewrite Hx.
  cbn [app parse_bytes]. rewrite sep_bytes_space.
  destruct (parse_hex [c1; c2]) as [n|]; simpl in Hp |- *; [|discriminate].
  rewrite Hp. simpl. destruct bs as [|y bs]; [done|]. rewrite IH. done.
Qed.

Lemma digit_char_not_colon d : (d < 16)%N -> digit_char d <> ":"%char.
Proof.
  intros Hd. rewrite <- (N2Nat.id d). assert (N.to_nat d < 16) as Hk by lia.
  generalize (N.to_nat d) Hk. clear. intros k Hk.
  do 16 (destruct k as [|k]; [discriminate|]). lia.
Qed.

Lemma colon_free_fmt_02x n : ":"%char ∉ fmt_02x n.
Proof.
  intros Hin. assert (Hall : Forall (fun c => c <> ":"%char) (fmt_02x n)).
  { unfold fmt_02x, pad0, utoa. apply Forall_app. split.
    - apply Forall_replicate. discriminate.
    - apply Forall_map. eapply Forall_impl; [apply digits_lt; lia|].
      intros d Hd. cbv beta in *. apply digit_char_not_colon. lia. }
  rewrite Forall_forall in Hall. by apply (Hall _ Hin).
Qed.

Lemma split_colon_app pre rest : ":"%char ∉ pre -> split_colon (pre ++ ":"%char :: rest) = Some (pre, rest).
Proof.
  induction pre as [|c pre IH]; intros Hc; simpl; [try rewrite decide_True; done|].
  rewrite decide_False by (intros ->; apply Hc; left).
  rewrite IH by (intros Hin; apply Hc; by right). done.
Qed.

Lemma parse_row_text i bs : parse_hex_row (hex_row_text i bs) = Some (Z.to_N i, bs).
Proof.
  unfold parse_hex_row, hex_row_text, fmt_02x_z. cbn [app].
  rewrite split_colon_app by apply colon_free_fmt_02x. simpl.
  rewrite parse_fmt_02x. simpl. by rewrite parse_sep_bytes.
Qed.

Lemma parse_line_row i bs : parse_line (hex_row_text i bs ++ EOL) = Some (Z.to_N i, bs).
Proof.
  unfold parse_line. rewrite length_app, Nat.add_sub, take_app_length. apply parse_row_text.
Qed.


Lemma mapM_parse_hex_lines inbuf n i :
  mapM parse_line (hex_lines inbuf n i) =
    Some (map (fun k => (N.of_nat k, row_bytes inbuf k)) (seq i n)).
Proof.
  revert i. induction n as [|n IH]; intros i; [done|].
  cbn [hex_lines]. simpl mapM. rewrite parse_line_row, IH. simpl.
  by replace (Z.to_N (Z.of_nat i)) with (N.of_nat i) by lia.
Qed.

(** The rows [i .. i+n-1] together hold the buffer from byte [16 i] on,
    once they reach its end. *)
Lemma concat_row_bytes inbuf n i :
  length inbuf <= 16 * (i + n) -> concat (map (row_bytes inbuf) (seq i n)) = drop (16 * i) inbuf.
Proof.
  revert i. induction n as [|n IH]; intros i Hn; cbn [seq map concat].
  - rewrite drop_ge; [done|lia].
  - rewrite IH by lia. unfold row_bytes.
    replace (16 * S i) with (16 * i + 16) by lia. rewrite <- drop_drop. apply take_drop.
Qed.

Lemma parse_hex_lines inbuf : parse_dump (hex_lines inbuf (nrows inbuf) 0) = Some inbuf.
Proof.
  unfold parse_dump. rewrite mapM_parse_hex_lines. simpl. f_equal.
  rewrite map_map. simpl. rewrite concat_row_bytes; [apply drop_0|unfold nrows; lia].
Qed.

Section Roundtrip.
Context `{Platform}.

(** C21: the dump is lossless.  When every write succeeds, the rows that
    [__vdbg_hex] writes after the caption, read back with [parse_dump]
    (each ["%02x: "] index followed by ["%02x"] bytes separated by
    spaces), give exactly the dumped buffer. *)
Theorem vdbg_hex_roundtrip hdr file func lineno inbuf msg w rc0 w1 :
  (Z.of_nat (length inbuf) < 2 ^ 32)%Z ->
  __vdbg hdr file func lineno msg w = Done (rc0, w1) ->
  (forall k, w_writes w1 <= k -> stdout_fails k = false) ->
  exists rows w2,
    __vdbg_hex hdr file func lineno inbuf (Z.of_nat (length inbuf)) msg w = Done (0%Z, w2) /\
    w_out w2 = w_out w1 ++ rows /\ parse_dump rows = Some inbuf.
Proof.
  intros Hs Hv Hok. exists (hex_lines inbuf (nrows inbuf) 0).
  rewrite (hex_dump_run _ _ _ _ _ _ _ _ _ Hs Hv), emit_lines_ok by done.
  eexists. split; [reflexivity|]. split; [done|]. apply parse_hex_lines.
Qed.
End Roundtrip.

Section RoundtripWitness.
#[local] Existing Instance demo_platform.

Lemma vdbg_hex_roundtrip_witness :
  exists rows w2,
    __vdbg_hex ("%f: ")%cs ("a.c")%cs ("main")%cs 1 demo_bytes (Z.of_nat (length demo_bytes))
      (Rendered ("cap")%cs) world0 = Done (0%Z, w2) /\
    w_out w2 = [("main: cap")%cs] ++ rows /\ parse_dump rows = Some demo_bytes.
Proof.
  apply (vdbg_hex_roundtrip ("%f: ")%cs ("a.c")%cs ("main")%cs 1 demo_bytes (Rendered ("cap")%cs)
    world0 9%Z (mk_world [("main: cap")%cs] 1 0)).
  - vm_compute. reflexivity.
  - vm_compute. reflexivity.
  - intros k _. reflexivity.
Defined.
End RoundtripWitness.

(** ** Reading the scattered dump back *)

Lemma parse_tok_texts ts : parse_toks (concat (map tok_text ts)) = Some ts.
Proof.
  induction ts as [|[c x] ts IH]; [done|].
  destruct (parse_byte x) as (c1 & c2 & Hx & Hp). cbn [concat map].
  change (tok_text (c, x)) with (c :: fmt_02x_byte x). rewrite Hx. cbn [app parse_toks].
  destruct (parse_hex [c1; c2]) as [n|]; simpl in Hp; [|discriminate].
  cbn [mbind option_bind]. rewrite Hp, IH. done.
Qed.

Lemma parse_iov_line_row off ts :
  parse_iov_line (iov_row_text off ts ++ EOL) = Some (N.of_nat off, ts).
Proof.
  unfold parse_iov_line. rewrite length_app, Nat.add_sub, take_app_length.
  unfold parse_iov_row, iov_row_text, fmt_02x_z. cbn [app].
  rewrite split_colon_app by apply colon_free_fmt_02x. simpl.
  rewrite parse_fmt_02x. simpl. rewrite parse_tok_texts. simpl.
  by replace (Z.to_N (Z.of_nat off)) with (N.of_nat off) by lia.
Qed.

Lemma mapM_parse_iov_lines ts n r :
  mapM parse_iov_line (iov_lines ts n r) =
    Some (map (fun k => (N.of_nat (16 * k), take 16 (drop (16 * k) ts))) (seq r n)).
Proof.
  revert r. induction n as [|n IH]; intros r; [done|].
  cbn [iov_lines]. simpl mapM. rewrite parse_iov_line_row, IH. done.
Qed.

Lemma concat_chunks {A} (l : list A) n r :
  concat (map (fun k => take 16 (drop (16 * k) l)) (seq r n)) = take (16 * n) (drop (16 * r) l).
Proof.
  revert r. induction n as [|n IH]; intros r; cbn [seq map concat]; [done|].
  rewrite IH. replace (16 * S r) with (16 * r + 16) by lia. rewrite <- drop_drop.
  replace (16 * S n) with (16 + 16 * n) by lia. apply take_take_drop.
Qed.

Lemma map_snd_seg_toks c bs : map snd (seg_toks c bs) = bs.
Proof. revert c. induction bs as [|x bs IH]; intros c; simpl; [done|]. by rewrite IH. Qed.

Lemma map_snd_iov_tokens first segs : map snd (iov_tokens first segs) = concat segs.
Proof.
  revert first. induction segs as [|seg segs IH]; intros first; simpl; [done|].
  by rewrite map_app, map_snd_seg_toks, IH.
Qed.


Lemma parse_iov_lines segs n :
  parse_iov_dump (iov_lines (iov_tokens true segs) n 0) = Some (take (16 * n) (concat segs)).
Proof.
  unfold parse_iov_dump. rewrite mapM_parse_iov_lines. cbn [mbind option_bind]. f_equal.
  set (ts := iov_tokens true segs).
  pose proof (concat_chunks ts n 0) as Hc. rewrite drop_0 in Hc.
  rewrite <- (map_snd_iov_tokens true segs). fold ts.
  rewrite firstn_map, <- Hc, concat_map, !map_map. done.
Qed.

Section IovRoundtrip.
Context `{Platform}.

(** C23: when every write succeeds, the rows [__vdbg_hex_iov] writes
    after the caption parse back ([parse_iov_dump]: the ["%02x:"] offset,
    then a separator and two hex digits per byte) to the first
    [16 * (total / 16)] bytes of the concatenated segments: every complete
    row arrives intact and in order, and exactly the last
    [total mod 16] bytes are missing. *)
Theorem vdbg_hex_iov_roundtrip hdr file func lineno vec msg w rc0 w1 :
  Forall (fun v => iov_len v = Z.of_nat (length (iov_base v))) vec ->
  (Z.of_nat (length vec) < 2 ^ 32)%Z -> (Z.of_nat (iov_total vec) < 2 ^ 32)%Z ->
  __vdbg hdr file func lineno msg w = Done (rc0, w1) ->
  (forall k, w_writes w1 <= k -> stdout_fails k = false) ->
  exists rc rows w2,
    __vdbg_hex_iov hdr func file lineno vec (Z.of_nat (length vec)) msg w = Done (rc, w2) /\
    w_out w2 = w_out w1 ++ rows /\
    parse_iov_dump rows = Some (take (16 * (iov_total vec / 16)) (concat (map iov_base vec))).
Proof.
  intros Hvec Hcnt Htot Hv Hok.
  rewrite (iov_dump_run _ _ _ _ _ _ _ _ _ Hvec Hcnt Htot Hv), emit_ignore_ok by done.
  do 3 eexists. split; [reflexivity|]. split; [reflexivity|]. apply parse_iov_lines.
Qed.
End IovRoundtrip.

Section IovRoundtripWitness.
#[local] Existing Instance demo_platform.

(** The 17 demonstration bytes in segments of 10 and 7: the one row read
    back holds the first 16 bytes. *)
Lemma vdbg_hex_iov_roundtrip_witness :
  exists rc rows w2,
    __vdbg_hex_iov ("%f: ")%cs ("main")%cs ("a.c")%cs 1 demo_vec (Z.of_nat (length demo_vec))
      (Rendered ("cap")%cs) world0 = Done (rc, w2) /\
    w_out w2 = [("main: cap")%cs] ++ rows /\
    parse_iov_dump rows = Some (take 16 demo_bytes).
Proof.
  apply (vdbg_hex_iov_roundtrip ("%f: ")%cs ("a.c")%cs ("main")%cs 1 demo_vec (Rendered ("cap")%cs)
    world0 9%Z (mk_world [("main: cap")%cs] 1 0)).
  - repeat constructor.
  - vm_compute. reflexivity.
  - vm_compute. reflexivity.
  - vm_compute. reflexivity.
  - intros k _. reflexivity.
Defined.
End IovRoundtripWitness.
