(* ===== verification/IovMachine.v ===== *)
(** * IovMachine: the scattered dumper as a transition system

    The loops of [__vdbg_hex_iov] (src/dbg.c 262-291) change the state
    [iov_state] in two ways: the body of the inner loop consumes one
    byte ([iov_byte]), and the end of a segment sets [sep = "*"].  The
    relation [iov_step] has one rule for each, and the byte is chosen by
    the environment: any byte of any segment.  The states reachable from
    the initial state [iov_init] ([rtc iov_step]) cover every point the
    dumper reaches between two bytes, at any offset and beyond 2^32 bytes,
    where the [unsigned] index wraps.

    The theorems:
    - reachable states satisfy the well-formedness [iov_wf]
      ([reachable_iov_wf], by rule induction with [rtc_ind_r]).  The row
      buffer holds a NUL-terminated partial row of at most
      [9 + 3 * (i mod 16)] characters, and [p + remaining = 256]; the
      cursor bounds follow ([iov_reachable_buffer_bounds]);
    - from a reachable state any byte is processed without undefined
      behaviour or early return ([iov_reachable_progress]);
    - a row is written in bounded time: whatever bytes arrive, within
      [16 - i mod 16] of them [printf] is called
      ([iov_reachable_row_written], with the bounded modality [within]);
    - the loops [iov_bytes] and [iov_segs] of [__vdbg_hex_iov] pass only
      through reachable states ([iov_bytes_reach], [iov_segs_reach]), so
      the function completes, with a non-negative [rc], for any number of
      segments each under 2^32 bytes ([vdbg_hex_iov_completes]). *)

From stdpp Require Import relations.
From S2P Require Import Prelude CLib AddHdr Vdbg Hex HexIov.

Section Machine.
Context `{Platform}.

(** One transition of the loops of [__vdbg_hex_iov]. *)
Inductive iov_step : iov_state -> iov_state -> Prop :=
  | iov_step_byte c s s' : iov_byte c s = Done (None, s') -> iov_step s s'
  | iov_step_seg s :
      iov_step s (mk_iov_state (is_row s) (is_i s) ["*"%char] (is_rc s) (is_w s)).

(** The states between two iterations of the loops, in a dump that began
    with the world [w]. *)
Definition iov_reachable (w : world) (s : iov_state) : Prop := rtc iov_step (iov_init w) s.

(** [P] holds within [n] bytes, whatever bytes arrive: now, or after
    the next byte, which is processed without error, within [n - 1]. *)
#[warnings="-register-all"]
Inductive within (P : iov_state -> Prop) : nat -> iov_state -> Prop :=
  | within_now n s : P s -> within P n s
  | within_byte n s :
      (forall c, exists s', iov_byte c s = Done (None, s') /\ within P n s') ->
      within P (S n) s.
End Machine.

(** Between two bytes: [out_buf] holds the partial row [T], followed by a
    NUL once a byte of the row has been written; [T] is empty at a row
    boundary and at most [9 + 3 (i mod 16)] long inside a row; [i] is an
    [unsigned]; [sep] is [" "] or ["*"]; [rc] is not negative. *)
Definition iov_wf (s : iov_state) : Prop :=
  exists T, row_inv T (is_row s) /\ nul_free T /\ (0 <= is_i s < 2 ^ 32)%Z /\
    (is_i s mod 16 = 0 -> T = [])%Z /\
    ((is_i s mod 16 <> 0)%Z ->
       length T <= 9 + 3 * Z.to_nat (is_i s mod 16) /\
       rb_buf (is_row s) !! rb_p (is_row s) = Some (Some NUL)) /\
    (is_sep s = [" "%char] \/ is_sep s = ["*"%char]) /\ (0 <= is_rc s)%Z.

(** ** Arithmetic of the wrapping index *)

Lemma u32_mod16 z : (u32 z mod 16 = z mod 16)%Z.
Proof. unfold u32. apply Z.mod_mod_divide. by exists (2 ^ 28)%Z. Qed.

Lemma mod16_succ_z i :
  (0 <= i)%Z ->
  ((i + 1) mod 16 = 0 /\ i mod 16 = 15)%Z \/ ((i + 1) mod 16 = i mod 16 + 1)%Z.
Proof. intros. Z.div_mod_to_equations. lia. Qed.

Lemma iov_wf_init w : iov_wf (iov_init w).
Proof.
  exists []. split; [apply row_inv_init|]. split; [constructor|].
  simpl. split; [lia|]. split; [done|]. split; [done|]. split; [by left|lia].
Qed.

(** ** One byte from a well-formed state *)

Section Bytes.
Context `{Platform}.

(** [if ((i % N_ROW_ITEMS) == 0)] writes the row prefix: after it the
    buffer holds the partial row [T1] the byte is appended to. *)
Lemma iov_prefix_wf s :
  iov_wf s -> exists T1 s1,
    iov_prefix s = Done (None, s1) /\ row_inv T1 (is_row s1) /\ nul_free T1 /\
    length T1 <= 9 + 3 * Z.to_nat (is_i s mod 16) /\
    is_i s1 = is_i s /\ is_sep s1 = is_sep s /\ is_w s1 = is_w s.
Proof.
  intros (T & Hrow & HnT & Hi & H0 & Hn0 & Hsep & _). unfold iov_prefix, N_ROW_ITEMS.
  destruct (decide (is_i s mod 16 = 0)%Z) as [E|E].
  - rewrite (H0 E) in Hrow.
    pose proof (length_fmt_02x_z (Z.to_nat (is_i s)) ltac:(lia)) as Hf.
    rewrite Z2Nat.id in Hf by lia.
    destruct (row_write [] (is_row s) (fmt_02x_z (is_i s) ++ [":"%char])) as (b & Hw & Hr' & _);
      [done|rewrite length_app; simpl; unfold ROW_BUF; lia|].
    rewrite Hw. ostep. rewrite decide_False by lia.
    eexists _, _. split; [reflexivity|]. split; [exact Hr'|]. split.
    + rewrite app_nil_l. apply Forall_app. split; [apply nul_free_fmt_02x_z|repeat constructor; discriminate].
    + rewrite E, app_nil_l, length_app. simpl. split; [lia|]. done.
  - exists T, s. destruct (Hn0 E) as [Hl _]. done.
Qed.

Lemma iov_byte_wf s c :
  iov_wf s -> exists s',
    iov_byte c s = Done (None, s') /\ iov_wf s' /\ is_i s' = u32 (is_i s + 1) /\
    w_writes (is_w s') =
      (if decide (is_i s' mod 16 = 0)%Z then S (w_writes (is_w s)) else w_writes (is_w s)).
Proof.
  intros Hwf. pose proof Hwf as (T & _ & _ & Hi & _ & _ & Hsep & _).
  destruct (iov_prefix_wf s Hwf) as (T1 & s1 & Hp & Hr1 & Hn1 & Hl1 & Hi1 & Hs1 & Hw1).
  assert (Hd : exists d, is_sep s1 = [d] /\ d <> NUL).
  { rewrite Hs1. destruct Hsep as [-> | ->]; eexists; (split; [done|discriminate]). }
  destruct Hd as (d & Hd & HdN).
  assert (Hmod : (0 <= is_i s mod 16 < 16)%Z) by (apply Z.mod_pos_bound; lia).
  destruct (iov_byte_step s s1 T1 d c Hp Hr1 Hn1 HdN Hd) as (b & Hr2 & Hnul & ->); [lia|].
  assert (HnT2 : nul_free (T1 ++ [d] ++ fmt_02x_byte c)).
  { apply Forall_app. split; [done|]. constructor; [done|]. apply pad0_nul_free, utoa_nul_free. lia. }
  pose proof (u32_range (is_i s + 1)) as Hu. pose proof (u32_mod16 (is_i s + 1)) as Hm.
  rewrite Hi1. unfold N_ROW_ITEMS.
  destruct (mod16_succ_z (is_i s) ltac:(lia)) as [[E1 E2] | E1].
  - rewrite decide_True by lia. destruct (printf _ _) as [rc2 w2] eqn:Ep.
    eexists. split; [reflexivity|]. cbn [is_i is_w is_row is_rc is_sep fst snd].
    rewrite decide_True by lia. split; [|split; [done|]].
    + exists []. cbn [is_i is_sep is_row is_rc]. destruct Hr2 as (Hlen & _). split; [split; [exact Hlen|]; split; [done|]; split; done|].
      split; [constructor|]. split; [lia|]. split; [done|]. split; [lia|]. split; [by left|lia].
    + rewrite (printf_writes _ _ _ _ Ep). by rewrite Hw1.
  - rewrite decide_False by lia. eexists. split; [reflexivity|].
    cbn [is_i is_w is_row is_rc is_sep]. rewrite decide_False by lia. split; [|split; [done|by rewrite Hw1]].
    exists (T1 ++ [d] ++ fmt_02x_byte c). cbn [is_i is_sep is_row is_rc].
    split; [exact Hr2|]. split; [done|].
    split; [lia|]. split; [lia|]. split; [|split; [by left|lia]].
    intros _. split.
    + rewrite !length_app, length_fmt_02x_byte. cbn [length].
      replace (Z.to_nat (u32 (is_i s + 1) mod 16)) with (S (Z.to_nat (is_i s mod 16))) by lia. lia.
    + cbn [rb_advance rb_buf rb_p]. destruct Hr1 as (_ & -> & _). exact Hnul.
Qed.
End Bytes.

(** ** Rule induction over the transitions *)

Section Reach.
Context `{Platform}.

Lemma iov_wf_seg s :
  iov_wf s -> iov_wf (mk_iov_state (is_row s) (is_i s) ["*"%char] (is_rc s) (is_w s)).
Proof. intros (T & ? & ? & ? & ? & ? & _ & ?). exists T. cbn [is_row is_i is_sep]. auto 8. Qed.

Lemma iov_step_wf s s' : iov_wf s -> iov_step s s' -> iov_wf s'.
Proof.
  intros Hwf Hs. destruct Hs as [c s0 s1 Hb | s0].
  - destruct (iov_byte_wf s0 c Hwf) as (s2 & Hb' & Hwf' & _). congruence.
  - by apply iov_wf_seg.
Qed.

Lemma reachable_iov_wf w s : iov_reachable w s -> iov_wf s.
Proof.
  revert s. apply (rtc_ind_r iov_wf (iov_init w)); eauto using iov_step_wf, iov_wf_init.
Qed.

Lemma reachable_byte_step w s c :
  iov_reachable w s -> exists s', iov_byte c s = Done (None, s') /\ iov_reachable w s'.
Proof.
  intros Hr. destruct (iov_byte_wf s c (reachable_iov_wf w s Hr)) as (s' & Hb & _).
  exists s'. split; [done|]. eapply rtc_r; [exact Hr|]. by eapply iov_step_byte.
Qed.

(** [i mod 16] falls by one with each byte until the row is written:
    [n] bytes before the row boundary, the row is written within [n + 1]. *)
Lemma iov_wf_within_flush n s k :
  iov_wf s -> Z.to_nat (15 - is_i s mod 16) = n -> w_writes (is_w s) = k ->
  within (fun s' => w_writes (is_w s') = S k) (S n) s.
Proof.
  revert s. induction n as [|n IH]; intros s Hwf Hn Hk; apply within_byte; intros c;
    destruct (iov_byte_wf s c Hwf) as (s' & Hb & Hwf' & Hi' & Hw');
    exists s'; split; try done;
    pose proof Hwf as (T & _ & _ & Hi & _); rewrite Hi', u32_mod16 in Hw';
    assert (Hm : (0 <= is_i s mod 16 < 16)%Z) by (apply Z.mod_pos_bound; lia);
    destruct (mod16_succ_z (is_i s) ltac:(lia)) as [[E1 E2] | E1].
  - apply within_now. rewrite decide_True in Hw' by done. congruence.
  - lia.
  - apply within_now. rewrite decide_True in Hw' by done. congruence.
  - rewrite decide_False in Hw' by lia. apply (IH s'); [done| |congruence].
    rewrite Hi', u32_mod16. lia.
Qed.
End Reach.

(** ** The loops of [__vdbg_hex_iov] run on the machine *)

Section Runs.
Context `{Platform}.

(** A segment whose [iov_len] is its length and below 2^32 (so that the
    [unsigned] [k] does not wrap) is consumed byte by byte through
    [iov_step], from any reachable state. *)
Lemma iov_bytes_reach w fuel v k s :
  iov_reachable w s -> iov_len v = Z.of_nat (length (iov_base v)) -> (iov_len v < 2 ^ 32)%Z ->
  (0 <= k <= iov_len v)%Z -> Z.to_nat (iov_len v - k) < fuel ->
  exists s', iov_bytes fuel v k s = Done (None, s') /\ iov_reachable w s'.
Proof.
  revert k s. induction fuel as [|fuel IH]; intros k s Hr Hl Hb Hk Hf; [lia|].
  cbn [iov_bytes]. case_decide as Hlt; [|by exists s].
  destruct (lookup_lt_is_Some_2 (iov_base v) (Z.to_nat k)) as [c Hc]; [lia|].
  unfold rd_byte. rewrite Hc. ostep.
  destruct (reachable_byte_step w s c Hr) as (s1 & -> & Hr1). ostep.
  rewrite u32_small by lia. apply IH; [done..|lia|lia].
Qed.

(** The outer loop: each segment, then [sep = "*"], an [iov_step_seg]. *)
Lemma iov_segs_reach w fuel vec cnt j s :
  iov_reachable w s ->
  Forall (fun v => iov_len v = Z.of_nat (length (iov_base v)) /\ (iov_len v < 2 ^ 32)%Z) vec ->
  (0 <= j <= cnt)%Z -> (cnt <= Z.of_nat (length vec))%Z -> (cnt < 2 ^ 32)%Z ->
  Z.to_nat (cnt - j) < fuel ->
  exists s', iov_segs fuel vec cnt j s = Done (None, s') /\ iov_reachable w s'.
Proof.
  revert j s. induction fuel as [|fuel IH]; intros j s Hr Hv Hj Hc Hc32 Hf; [lia|].
  cbn [iov_segs]. case_decide as Hlt; [|by exists s].
  destruct (lookup_lt_is_Some_2 vec (Z.to_nat j)) as [v Hlk]; [lia|].
  unfold rd_iovec. rewrite Hlk. ostep.
  destruct (Forall_lookup_1 _ _ _ _ Hv Hlk) as [Hl Hb].
  destruct (iov_bytes_reach w (S (Z.to_nat (iov_len v))) v 0 s) as (s1 & -> & Hr1); [done..|lia|lia|].
  ostep. rewrite u32_small by lia. apply IH; [|done|lia|done|done|lia].
  eapply rtc_r; [exact Hr1|]. apply iov_step_seg.
Qed.
End Runs.

(** ** The dumper's loops as a machine *)

Section Claims.
Context `{Platform}.

(** C29: in every state the loops of [__vdbg_hex_iov] reach, the unsigned
    index [i] is below 2^32, the write position [p] of [out_buf] stays
    within [9 + 3 (i mod 16) <= 54] characters (so below the 256 bytes of
    the buffer), [remaining] is what is left of the buffer after [p], and
    [p] is 0 at every row boundary. *)
Theorem iov_reachable_buffer_bounds w s :
  iov_reachable w s ->
  (0 <= is_i s < 2 ^ 32)%Z /\
  rb_p (is_row s) <= 9 + 3 * Z.to_nat (is_i s mod 16) /\ rb_p (is_row s) < ROW_BUF /\
  rb_rem (is_row s) = Z.of_nat (ROW_BUF - rb_p (is_row s)) /\
  ((is_i s mod 16 = 0)%Z -> rb_p (is_row s) = 0).
Proof.
  intros Hr. destruct (reachable_iov_wf w s Hr) as (T & (_ & Hp & Hrem & _) & _ & Hi & H0 & Hn0 & _).
  assert (Hm : (0 <= is_i s mod 16 < 16)%Z) by (apply Z.mod_pos_bound; lia).
  rewrite Hp, Hrem. unfold ROW_BUF.
  destruct (decide (is_i s mod 16 = 0)%Z) as [E|E].
  - rewrite (H0 E). cbn [length]. lia.
  - destruct (Hn0 E) as [Hl _]. lia.
Qed.

(** C30: from every state the loops reach, the next byte of any segment,
    whatever its value, is processed without undefined behaviour and
    without an [snprintf] failure (no early [return]), and leads to a
    state the loops reach. *)
Theorem iov_reachable_progress w s :
  iov_reachable w s ->
  forall c, exists s', iov_byte c s = Done (None, s') /\ iov_reachable w s'.
Proof.
  intros Hr c. by apply reachable_byte_step.
Qed.

(** C31: from every state the loops reach, a row is written within
    [16 - i mod 16] bytes: whatever bytes arrive next, each is processed
    without error, and by the byte that completes the row of [i] the
    dumper has called [printf] once more than it had. *)
Theorem iov_reachable_row_written w s :
  iov_reachable w s ->
  within (fun s' => w_writes (is_w s') = S (w_writes (is_w s))) (Z.to_nat (16 - is_i s mod 16)) s.
Proof.
  intros Hr. pose proof (reachable_iov_wf w s Hr) as Hwf.
  pose proof Hwf as (T & _ & _ & Hi & _).
  assert (Hm : (0 <= is_i s mod 16 < 16)%Z) by (apply Z.mod_pos_bound; lia).
  replace (Z.to_nat (16 - is_i s mod 16)) with (S (Z.to_nat (15 - is_i s mod 16))) by lia.
  by eapply iov_wf_within_flush.
Qed.
(** C32: for any number of segments, each shorter than 2^32 bytes and
    described by its [iov_len], with [iovcnt] at most their number,
    [__vdbg_hex_iov] completes without undefined behaviour and without
    an early [return], also when the segments together hold 2^32 bytes
    or more and [i] wraps.  Its loops stop in a state of the machine,
    and it returns that state's [rc], which is not negative. *)
Theorem vdbg_hex_iov_completes hdr func file lineno vec iovcnt msg w rc0 w1 :
  Forall (fun v => iov_len v = Z.of_nat (length (iov_base v)) /\ (iov_len v < 2 ^ 32)%Z) vec ->
  (0 <= iovcnt <= Z.of_nat (length vec))%Z -> (iovcnt < 2 ^ 32)%Z ->
  __vdbg hdr file func lineno msg w = Done (rc0, w1) ->
  exists s, iov_reachable w1 s /\ (0 <= is_rc s)%Z /\
    __vdbg_hex_iov hdr func file lineno vec iovcnt msg w = Done (is_rc s, is_w s).
Proof.
  intros Hv Hc Hc32 Hd.
  destruct (iov_segs_reach w1 (S (Z.to_nat iovcnt)) vec iovcnt 0 (iov_init w1)) as (s & Hs & Hr);
    [apply rtc_refl|done|lia|lia|done|lia|].
  destruct (reachable_iov_wf _ _ Hr) as (_ & _ & _ & _ & _ & _ & _ & Hrc).
  exists s. split; [done|]. split; [done|].
  unfold __vdbg_hex_iov. rewrite Hd. ostep. by rewrite Hs.
Qed.
End Claims.

Section Witnesses.
#[local] Existing Instance demo_platform.

Lemma iov_reachable_buffer_bounds_witness :
  iov_reachable world0 (iov_init world0) /\ rb_p (is_row (iov_init world0)) < ROW_BUF.
Proof.
  split; [apply rtc_refl|]. apply (iov_reachable_buffer_bounds world0 (iov_init world0)).
  apply rtc_refl.
Defined.

Lemma iov_reachable_progress_witness :
  iov_reachable world0 (iov_init world0) /\
  exists s', iov_byte Byte.x2a (iov_init world0) = Done (None, s') /\ iov_reachable world0 s'.
Proof.
  split; [apply rtc_refl|]. apply (iov_reachable_progress world0 (iov_init world0)).
  apply rtc_refl.
Defined.

Lemma iov_reachable_row_written_witness :
  iov_reachable world0 (iov_init world0) /\
  within (fun s' => w_writes (is_w s') = 1) 16 (iov_init world0).
Proof.
  split; [apply rtc_refl|]. apply (iov_reachable_row_written world0 (iov_init world0)).
  apply rtc_refl.
Defined.
Lemma vdbg_hex_iov_completes_witness :
  exists s, iov_reachable (mk_world [[]] 1 0) s /\ (0 <= is_rc s)%Z /\
    __vdbg_hex_iov [] [] [] 1 [mk_iovec [Byte.x2a] 1; mk_iovec [] 0] 2 (Rendered []) world0 =
      Done (is_rc s, is_w s).
Proof.
  apply (vdbg_hex_iov_completes [] [] [] 1 _ 2 (Rendered []) world0 0%Z).
  - repeat constructor; simpl; lia.
  - simpl. lia.
  - lia.
  - reflexivity.
Defined.
End Witnesses.
