(* ===== verification/Frame.v ===== *)
(** * Frame: what a call leaves to the next one

    The library touches the world in two ways only, [printf] and
    [clock_gettime].  A map [φ] on worlds that commutes with both (a
    [WorldMorphism]) commutes with every operation of the library:
    [dbg_add_hdr], the loop of [__vdbg], the row loops of [__vdbg_hex] and
    [__vdbg_hex_iov], the three entry points and the three wrappers
    ([*_natural], proved bottom-up in the Section [Natural], where [φ] and
    its laws are the section's hypotheses).

    Two such maps:
    - [out_prepend pre] puts lines [pre] in front of what is on stdout.  A
      call neither reads stdout nor depends on it: it only appends;
    - [writes_shift k] counts [k] more earlier writes.  When stdout never
      fails ([StdoutReliable]) the write count changes nothing.

    From both follows the idempotence of spec section 8: with a reliable
    stdout, a call that reads no clock, made a second time, returns the
    same value and appends the same lines ([call_repeats],
    [entry_points_repeat]).  With [%T] the second call prints another time
    ([vdbg_time_successive]). *)

From S2P Require Import Prelude CLib AddHdr Vdbg Hex HexIov Dbg.

(** ** Maps on worlds that commute with the platform calls *)

Class WorldMorphism `{Platform} (φ : world -> world) : Prop := {
  wm_printf w s : printf (φ w) s = prod_map id φ (printf w s);
  wm_clock now w : clock_gettime now (φ w) = prod_map id φ (clock_gettime now w)
}.

(** A platform whose stdout never fails. *)
Class StdoutReliable `{Platform} : Prop := stdout_reliable n : stdout_fails n = false.

Definition out_prepend (pre : list cstr) (w : world) : world :=
  mk_world (pre ++ w_out w) (w_writes w) (w_ticks w).

Definition writes_shift (k : nat) (w : world) : world :=
  mk_world (w_out w) (k + w_writes w) (w_ticks w).

#[export] Instance out_prepend_morphism `{Platform} pre : WorldMorphism (out_prepend pre).
Proof.
  split.
  - intros w s. unfold printf, out_prepend. cbn.
    destruct (stdout_fails (w_writes w)); cbn; [done|by rewrite app_assoc].
  - intros now w. unfold clock_gettime, out_prepend. cbn. by destruct (clock_monotonic (w_ticks w)).
Qed.

#[export] Instance writes_shift_morphism `{Platform} `{!StdoutReliable} k :
  WorldMorphism (writes_shift k).
Proof.
  split.
  - intros w s. unfold printf, writes_shift. cbn. rewrite !stdout_reliable. cbn.
    do 3 f_equal. lia.
  - intros now w. unfold clock_gettime, writes_shift. cbn. by destruct (clock_monotonic (w_ticks w)).
Qed.

Lemma out_prepend_shift_0 w :
  w = out_prepend (w_out w) (writes_shift (w_writes w) (mk_world [] 0 (w_ticks w))).
Proof. destruct w. unfold out_prepend, writes_shift. simpl. by rewrite app_nil_r, Nat.add_0_r. Qed.

(** ** Every operation commutes with such a map *)

Section Natural.
Context `{Platform} (φ : world -> world) `{!WorldMorphism φ}.

Definition fs_lift (s : fstate) : fstate :=
  mk_fstate (fs_h s) (fs_buf s) (fs_p s) (fs_rem s) (fs_rc s) (φ (fs_w s)).
Definition is_lift (s : iov_state) : iov_state :=
  mk_iov_state (is_row s) (is_i s) (is_sep s) (is_rc s) (φ (is_w s)).

(** Unfold the binds whose scrutinee no longer mentions [φ], after
    rewriting the calls in front with [printf], [clock_gettime] and the
    lemmas [Hs]. *)
Ltac natural Hs :=
  repeat progress (
    rewrite ?bind_outcome, ?wm_printf, ?wm_clock, ?Hs, ?obind_omap, ?omap_obind, ?obind_assoc;
    cbn [obind omap prod_map fst snd id fs_lift is_lift fs_h fs_buf fs_p fs_rem fs_rc fs_w
         is_row is_i is_sep is_rc is_w iov_advance];
    try first [ match goal with |- context [printf (φ ?w) ?t] => rewrite (wm_printf w t) end
              | match goal with |- context [clock_gettime ?n (φ ?w)] => rewrite (wm_clock n w) end
              | rewrite Hs
              | match goal with p : prod _ _ |- _ => destruct p end
              | match goal with |- context [printf ?w ?t] => destruct (printf w t) end
              | match goal with |- context [clock_gettime ?n ?w] => destruct (clock_gettime n w) as [[] ?] end
              | case_match
              | match goal with |- context [obind ?m _] => destruct m end ]);
  reflexivity.

Lemma dbg_add_hdr_natural hdr h b p rem file func lineno w :
  dbg_add_hdr hdr h b p rem file func lineno (φ w) =
    omap (prod_map id φ) (dbg_add_hdr hdr h b p rem file func lineno w).
Proof. unfold dbg_add_hdr. natural wm_clock. Qed.

Lemma vdbg_step_natural hdr file func lineno msg s :
  vdbg_step hdr file func lineno msg (fs_lift s) =
    omap (prod_map id fs_lift) (vdbg_step hdr file func lineno msg s).
Proof. unfold vdbg_step. natural dbg_add_hdr_natural. Qed.

Lemma vdbg_loop_natural hdr file func lineno msg fuel s :
  vdbg_loop hdr file func lineno msg fuel (fs_lift s) =
    omap fs_lift (vdbg_loop hdr file func lineno msg fuel s).
Proof.
  revert s. induction fuel as [|fuel IH]; intros s; [done|]. cbn [vdbg_loop].
  rewrite !bind_outcome, vdbg_step_natural, obind_omap, omap_obind.
  apply obind_ext. intros [c s'] _. cbn. case_match; [apply IH|done].
Qed.

Lemma __vdbg_natural hdr file func lineno msg w :
  __vdbg hdr file func lineno msg (φ w) = omap (prod_map id φ) (__vdbg hdr file func lineno msg w).
Proof.
  unfold __vdbg. change (vdbg_init (φ w)) with (fs_lift (vdbg_init w)).
  rewrite !bind_outcome, vdbg_loop_natural, obind_omap, omap_obind.
  apply obind_ext. intros s _. natural wm_printf.
Qed.

Lemma hex_row_natural inbuf size i w :
  hex_row inbuf size i (φ w) = omap (prod_map id φ) (hex_row inbuf size i w).
Proof. unfold hex_row. natural wm_printf. Qed.

Lemma hex_rows_natural inbuf size fuel i w :
  hex_rows inbuf size fuel i (φ w) = omap (prod_map id φ) (hex_rows inbuf size fuel i w).
Proof.
  revert i w. induction fuel as [|fuel IH]; intros i w; [done|]. cbn [hex_rows].
  case_decide; [|done]. rewrite !bind_outcome, hex_row_natural, obind_omap, omap_obind.
  apply obind_ext. intros [[rc|] w'] _; cbn; [done|apply IH].
Qed.

Lemma __vdbg_hex_natural hdr file func lineno inbuf size msg w :
  __vdbg_hex hdr file func lineno inbuf size msg (φ w) =
    omap (prod_map id φ) (__vdbg_hex hdr file func lineno inbuf size msg w).
Proof. unfold __vdbg_hex. rewrite !bind_outcome, __vdbg_natural. natural hex_rows_natural. Qed.

Lemma iov_prefix_natural s : iov_prefix (is_lift s) = omap (prod_map id is_lift) (iov_prefix s).
Proof. unfold iov_prefix. natural wm_printf. Qed.

Lemma iov_byte_natural c s : iov_byte c (is_lift s) = omap (prod_map id is_lift) (iov_byte c s).
Proof. unfold iov_byte. natural iov_prefix_natural. Qed.

Lemma iov_bytes_natural fuel v k s :
  iov_bytes fuel v k (is_lift s) = omap (prod_map id is_lift) (iov_bytes fuel v k s).
Proof.
  revert k s. induction fuel as [|fuel IH]; intros k s; [done|]. cbn [iov_bytes].
  case_decide; [|done]. rewrite !bind_outcome. destruct (rd_byte _ _); cbn [obind]; [|done|done].
  rewrite !bind_outcome, iov_byte_natural, obind_omap, omap_obind.
  apply obind_ext. intros [[rc|] s'] _; cbn; [done|apply IH].
Qed.

Lemma iov_segs_natural fuel vec cnt j s :
  iov_segs fuel vec cnt j (is_lift s) = omap (prod_map id is_lift) (iov_segs fuel vec cnt j s).
Proof.
  revert j s. induction fuel as [|fuel IH]; intros j s; [done|]. cbn [iov_segs].
  case_decide; [|done]. rewrite !bind_outcome. destruct (rd_iovec _ _); cbn [obind]; [|done|done].
  rewrite !bind_outcome, iov_bytes_natural, obind_omap, omap_obind.
  apply obind_ext. intros [[rc|] s'] _; cbn; [done|].
  exact (IH _ (mk_iov_state (is_row s') (is_i s') ["*"%char] (is_rc s') (is_w s'))).
Qed.

Lemma __vdbg_hex_iov_natural hdr func file lineno vec cnt msg w :
  __vdbg_hex_iov hdr func file lineno vec cnt msg (φ w) =
    omap (prod_map id φ) (__vdbg_hex_iov hdr func file lineno vec cnt msg w).
Proof.
  unfold __vdbg_hex_iov. rewrite !bind_outcome, __vdbg_natural, obind_omap, omap_obind.
  apply obind_ext. intros [rc w1] _. cbn -[iov_init iov_segs].
  change (iov_init (φ w1)) with (is_lift (iov_init w1)).
  rewrite !bind_outcome, iov_segs_natural, obind_omap, omap_obind.
  apply obind_ext. by intros [[rc'|] s] _.
Qed.

Lemma __dbg_natural DBG cond file func lineno msg w :
  __dbg DBG cond file func lineno msg (φ w) = omap (prod_map id φ) (__dbg DBG cond file func lineno msg w).
Proof.
  unfold __dbg, __dbg_on, __dbg_off. case_decide; [|done].
  destruct cond; cbn [negb]; [apply __vdbg_natural|done].
Qed.

Lemma __dbg_hex_natural DBG cond file func lineno inbuf size msg w :
  __dbg_hex DBG cond file func lineno inbuf size msg (φ w) =
    omap (prod_map id φ) (__dbg_hex DBG cond file func lineno inbuf size msg w).
Proof.
  unfold __dbg_hex, __dbg_hex_on, __dbg_hex_off. case_decide; [|done].
  destruct cond; cbn [negb]; [apply __vdbg_hex_natural|done].
Qed.

Lemma __dbg_hex_iov_natural DBG cond file func lineno vec cnt msg w :
  __dbg_hex_iov DBG cond file func lineno vec cnt msg (φ w) =
    omap (prod_map id φ) (__dbg_hex_iov DBG cond file func lineno vec cnt msg w).
Proof.
  unfold __dbg_hex_iov, __dbg_hex_iov_on, __dbg_hex_iov_off. case_decide; [|done].
  destruct cond; cbn [negb]; [apply __vdbg_hex_iov_natural|done].
Qed.
End Natural.

(** ** Successive calls *)

(** Made a second time, from the world the first call left, the call
    returns the same value and appends the same lines. *)
Definition call_repeats (f : world -> outcome (Z * world)) : Prop :=
  forall w rc w', f w = Done (rc, w') -> w_ticks w' = w_ticks w ->
  exists new w'', w_out w' = w_out w ++ new /\ f w' = Done (rc, w'') /\ w_out w'' = w_out w' ++ new.

Section Repeat.
Context `{Platform} `{!StdoutReliable}.

Lemma natural_call_repeats (f : world -> outcome (Z * world)) :
  (forall φ, WorldMorphism φ -> forall w, f (φ w) = omap (prod_map id φ) (f w)) -> call_repeats f.
Proof.
  intros Hf w rc w' Hw Ht. set (w0 := mk_world [] 0 (w_ticks w)).
  rewrite (out_prepend_shift_0 w), (Hf (out_prepend _) _), (Hf (writes_shift _) _) in Hw.
  fold w0 in Hw. destruct (f w0) as [[rc0 w0']| |] eqn:E0; cbn in Hw; [|discriminate..].
  injection Hw as -> Hw'. exists (w_out w0').
  pose proof (out_prepend_shift_0 w') as Ew'. rewrite Ht in Ew'. fold w0 in Ew'.
  eexists. split; [by rewrite <- Hw'|]. split.
  - rewrite Ew' at 1. by rewrite (Hf (out_prepend _) _), (Hf (writes_shift _) _), E0.
  - done.
Qed.
End Repeat.

(** ** Naturality and repetition of the entry points *)

Section Claims.
Context `{Platform}.

(** The entry points touch the world only through [printf] and
    [clock_gettime].  Every map on worlds that commutes with those two
    calls commutes with [__vdbg], [__vdbg_hex] and [__vdbg_hex_iov], on
    every input and every outcome (undefined behaviour included).  With
    [out_prepend]: no call reads what is on stdout, each only appends. *)
Theorem entry_points_natural (φ : world -> world) `{!WorldMorphism φ}
    hdr file func lineno inbuf size vec cnt msg w :
  __vdbg hdr file func lineno msg (φ w) = omap (prod_map id φ) (__vdbg hdr file func lineno msg w) /\
  __vdbg_hex hdr file func lineno inbuf size msg (φ w) =
    omap (prod_map id φ) (__vdbg_hex hdr file func lineno inbuf size msg w) /\
  __vdbg_hex_iov hdr func file lineno vec cnt msg (φ w) =
    omap (prod_map id φ) (__vdbg_hex_iov hdr func file lineno vec cnt msg w).
Proof.
  split; [|split].
  - exact (__vdbg_natural φ hdr file func lineno msg w).
  - exact (__vdbg_hex_natural φ hdr file func lineno inbuf size msg w).
  - exact (__vdbg_hex_iov_natural φ hdr func file lineno vec cnt msg w).
Qed.

(** Idempotence (spec section 8).  With a stdout that never fails,
    each entry point, called a second time with the same arguments from
    the world the first call left, returns the same value and appends
    the same lines, provided the first call read no clock. *)
Theorem entry_points_repeat `{!StdoutReliable} hdr file func lineno inbuf size vec cnt msg :
  call_repeats (__vdbg hdr file func lineno msg) /\
  call_repeats (__vdbg_hex hdr file func lineno inbuf size msg) /\
  call_repeats (__vdbg_hex_iov hdr func file lineno vec cnt msg).
Proof.
  split; [|split]; apply natural_call_repeats; intros φ Hφ w.
  - exact (__vdbg_natural φ hdr file func lineno msg w).
  - exact (__vdbg_hex_natural φ hdr file func lineno inbuf size msg w).
  - exact (__vdbg_hex_iov_natural φ hdr func file lineno vec cnt msg w).
Qed.

Lemma hdr_pieces_time file func lineno w t :
  clock_monotonic (w_ticks w) = Some t ->
  hdr_pieces file func lineno ("%T")%cs w =
    Some ([PText (fmt_time t)], mk_world (w_out w) (w_writes w) (S (w_ticks w))).
Proof. intros Hc. simpl. unfold clock_gettime. by rewrite Hc. Qed.

(** C34: [%T] makes successive calls differ.  Two calls of [__vdbg] with
    the template ["%T"] print the two successive readings of the
    monotonic clock, each read at call time, so the idempotence of spec
    section 8 fails for any template with [%T] as soon as the clock
    advances. *)
Theorem vdbg_time_successive file func lineno m w t1 t2 :
  clock_monotonic (w_ticks w) = Some t1 -> clock_monotonic (S (w_ticks w)) = Some t2 ->
  nul_free m -> length (fmt_time t1 ++ m) <= 255 -> length (fmt_time t2 ++ m) <= 255 ->
  stdout_fails (w_writes w) = false -> stdout_fails (S (w_writes w)) = false ->
  exists w1 w2,
    __vdbg ("%T")%cs file func lineno (Rendered m) w =
      Done (Z.of_nat (length (fmt_time t1 ++ m)), w1) /\
    __vdbg ("%T")%cs file func lineno (Rendered m) w1 =
      Done (Z.of_nat (length (fmt_time t2 ++ m)), w2) /\
    w_out w2 = w_out w ++ [fmt_time t1 ++ m; fmt_time t2 ++ m].
Proof.
  intros Hc1 Hc2 Hm Hl1 Hl2 Hok1 Hok2.
  assert (Hp : forall pc, pieces_text [PText pc] = pc) by (intros; apply app_nil_r).
  rewrite (vdbg_safe_run _ _ _ _ _ _ _ _ (hdr_pieces_time _ _ _ _ _ Hc1));
    [|done|done|rewrite Hp; unfold INT_MAX; lia|done].
  rewrite Hp, take_ge by lia. eexists _, _. split; [reflexivity|].
  rewrite (vdbg_safe_run _ _ _ _ _ _ _ _
    (hdr_pieces_time _ _ _ (mk_world _ (S (w_writes w)) (S (w_ticks w))) _ Hc2));
    [|done|done|rewrite Hp; unfold INT_MAX; lia|done].
  rewrite Hp, take_ge by lia. split; [reflexivity|]. simpl. by rewrite <- app_assoc.
Qed.
End Claims.

(** ** Witnesses on the Linux demo platform *)

Section Witnesses.
#[local] Existing Instance demo_platform.

Lemma vdbg_time_successive_witness :
  exists w1 w2,
    __vdbg ("%T")%cs ("a.c")%cs ("main")%cs 1 (Rendered []) world0 = Done (10%Z, w1) /\
    __vdbg ("%T")%cs ("a.c")%cs ("main")%cs 1 (Rendered []) w1 = Done (10%Z, w2) /\
    w_out w2 = [("100.123456")%cs; ("101.123456")%cs].
Proof.
  apply (vdbg_time_successive ("a.c")%cs ("main")%cs 1 [] world0
    (mk_timespec 100 123456789) (mk_timespec 101 123456789)).
  - reflexivity.
  - reflexivity.
  - constructor.
  - vm_compute. lia.
  - vm_compute. lia.
  - reflexivity.
  - reflexivity.
Defined.
End Witnesses.
